(** * Game Export Utility: a shallow embedding of [GameExportUtility.py]

    The add-on is a thin layer over the host application: it reads and
    writes attributes of scene objects and sequences host operators.  The
    embedding keeps the add-on's own statements concrete (attribute reads
    and writes, loops, the [try]/[finally] block, the dictionaries of the
    snapshot, the keyword arguments of the exporter calls).  Host
    operators with a simple effect are written out in [host_effect]; the
    two geometry operators, the path helpers and the failures of host
    calls are the fields of the class [Host], and the theorems hold for
    every host, under the conditions [HostFrame] and [OriginSetContract]
    where they are named.

    The panel is embedded as the list of layout calls it makes, and
    loading, [register] and [unregister] as functions on the attributes of
    the scene type and the set of registered classes.

    A coordinate is the rational value of a float.  The host stores
    coordinates in single precision and Python computes in double
    precision: every arithmetic step of [set_origin_at_bottom] is
    followed by the rounding of its format ([round]).  Overflow to
    infinity is not part of the embedding.  [location] and
    [matrix_world] are the two attributes the add-on assigns; the host's
    re-evaluation of one from the other is not part of the embedding,
    and neither is the order in which the host lists children and
    selected objects (the embedding lists them by name). *)

From Stdlib Require Import Ascii QArith Qminmax Qround Qabs Qpower Lqa.
From stdpp Require Import gmap strings list fin_maps.

(** ** Floating-point numbers

    [round fmt q] is the float of the format [fmt] nearest to [q], ties
    to the even significand.  The exponent has its lower bound, so that
    small numbers round to multiples of the least positive float; it has
    no upper bound. *)

Inductive FloatFormat := binary32 | binary64.

(** The number of bits of the significand. *)
Definition precision (fmt : FloatFormat) : Z :=
  match fmt with binary32 => 24 | binary64 => 53 end.

(** The exponent of the least positive float. *)
Definition emin (fmt : FloatFormat) : Z :=
  match fmt with binary32 => -149 | binary64 => -1074 end.

(** The integer nearest to [x], the even one of two that are equally
    near. *)
Definition nearest_even (x : Q) : Z :=
  let f := Qfloor x in
  match (x - inject_Z f ?= 1 # 2)%Q with
  | Lt => f
  | Gt => (f + 1)%Z
  | Eq => if Z.even f then f else (f + 1)%Z
  end.

(** The exponent [e] of the last bit of the float nearest to [a > 0]:
    [a / 2^e] lies between [2^(p-1)] and [2^p], unless [e] is the least
    exponent. *)
Definition exponent (fmt : FloatFormat) (a : Q) : Z :=
  let p := precision fmt in
  let e0 := (Z.log2 (Qnum a) - Z.log2 (Zpos (Qden a)) - p)%Z in
  let e1 := if Qle_bool (2 ^ p) (a * 2 ^ (- e0)) then (e0 + 1)%Z else e0 in
  Z.max e1 (emin fmt).

Definition round (fmt : FloatFormat) (q : Q) : Q :=
  let a := Qred (Qabs q) in
  if (Qnum a =? 0)%Z then 0%Q
  else
    let e := exponent fmt a in
    let r := (inject_Z (nearest_even (a * 2 ^ (- e))) * 2 ^ e)%Q in
    Qred (if Qle_bool 0 q then r else - r).

(** The largest relative error of a rounding, and the largest absolute
    error of a rounding below the normal range. *)
Definition unit_roundoff (fmt : FloatFormat) : Q := (2 ^ (- precision fmt))%Q.

Definition underflow_unit (fmt : FloatFormat) : Q := (2 ^ (emin fmt - 1))%Q.

(** A number stored in a [mathutils] vector or matrix or in the data of
    a mesh. *)
Definition float32 (q : Q) : Q := round binary32 q.

(** [a + b] and [a / b] on Python floats. *)
Definition py_add (a b : Q) : Q := round binary64 (a + b).

Definition py_div (a b : Q) : Q := round binary64 (a / b).

(** ** Geometry ([mathutils]) *)

Record Vector := mkVector { vx : Q; vy : Q; vz : Q }.

Definition Row : Type := Q * Q * Q * Q.

Record Matrix := mkMatrix { row0 : Row; row1 : Row; row2 : Row; row3 : Row }.

Definition zero_vector : Vector := mkVector 0 0 0.

(** [-v] *)
Definition vneg (v : Vector) : Vector :=
  mkVector (- vx v) (- vy v) (- vz v).

(** [point[i]] for a 3D vector. *)
Definition vindex (v : Vector) (i : nat) : Q :=
  match i with
  | O => vx v
  | S O => vy v
  | _ => vz v
  end.

(** One component of [m @ v]: [mathutils] multiplies in single
    precision, adds the products up in a double and stores the sum in
    single precision. *)
Definition row_dot (r : Row) (v : Vector) : Q :=
  let '(a, b, c, d) := r in
  let dot := round binary64 (0 + float32 (a * vx v)) in
  let dot := round binary64 (dot + float32 (b * vy v)) in
  let dot := round binary64 (dot + float32 (c * vz v)) in
  let dot := round binary64 (dot + float32 (d * 1)) in
  float32 dot.

(** [m @ v] for a 4x4 matrix and a 3D vector: the vector is extended with
    [w = 1] and the first three components of the product are returned. *)
Definition matmul_vec (m : Matrix) (v : Vector) : Vector :=
  mkVector (row_dot (row0 m) v) (row_dot (row1 m) v) (row_dot (row2 m) v).

(** One component of a point of a mesh under [Mesh.transform(m)]: the
    host multiplies and adds in single precision and then adds the
    translation of the matrix. *)
Definition row_transform (r : Row) (v : Vector) : Q :=
  let '(a, b, c, d) := r in
  let sum := float32 (0 + float32 (vx v * a)) in
  let sum := float32 (sum + float32 (vy v * b)) in
  let sum := float32 (sum + float32 (vz v * c)) in
  float32 (sum + d).

Definition transform_point (m : Matrix) (v : Vector) : Vector :=
  mkVector (row_transform (row0 m) v) (row_transform (row1 m) v)
           (row_transform (row2 m) v).

(** [mathutils.Matrix.Translation(v)] *)
Definition Translation (v : Vector) : Matrix :=
  mkMatrix (1, 0, 0, vx v)%Q (0, 1, 0, vy v)%Q (0, 0, 1, vz v)%Q (0, 0, 0, 1)%Q.

(** [m.translation] *)
Definition translation (m : Matrix) : Vector :=
  mkVector (snd (row0 m)) (snd (row1 m)) (snd (row2 m)).

(** ** Scene objects *)

Inductive ObjectType :=
  | MESH | CURVE | SURFACE | FONT | ARMATURE | LATTICE | EMPTY | LIGHT | CAMERA.

Inductive ObjectMode := OBJECT | EDIT | SCULPT | POSE.

#[global] Instance ObjectType_eq_dec : EqDecision ObjectType.
Proof. solve_decision. Defined.

#[global] Instance ObjectMode_eq_dec : EqDecision ObjectMode.
Proof. solve_decision. Defined.

(** The attributes of a [bpy.types.Object] that the add-on reads or
    writes.  The name of an object is its key in [bpy.data.objects]. *)
Record Object := mkObject {
  type : ObjectType;
  mode : ObjectMode;
  parent : option string;
  location : Vector;
  matrix_world : Matrix;
  vertices : list Vector;      (* [obj.data.vertices[i].co], meshes only *)
  select_get : bool;
}.

Definition set_location (v : Vector) (o : Object) : Object :=
  mkObject (type o) (mode o) (parent o) v (matrix_world o) (vertices o) (select_get o).

Definition set_matrix_world (m : Matrix) (o : Object) : Object :=
  mkObject (type o) (mode o) (parent o) (location o) m (vertices o) (select_get o).

Definition set_vertices (vs : list Vector) (o : Object) : Object :=
  mkObject (type o) (mode o) (parent o) (location o) (matrix_world o) vs (select_get o).

Definition set_select (b : bool) (o : Object) : Object :=
  mkObject (type o) (mode o) (parent o) (location o) (matrix_world o) (vertices o) b.

Definition set_mode (md : ObjectMode) (o : Object) : Object :=
  mkObject (type o) md (parent o) (location o) (matrix_world o) (vertices o) (select_get o).

(** What no operation of an export run changes: the kind of an object,
    its place in the hierarchy and the number of its vertices. *)
Definition shape (o : Object) : ObjectType * option string * nat :=
  (type o, parent o, length (vertices o)).

(** [obj.children]: the host computes it from the parent pointers of all
    objects of the document. *)
Definition children (objs : gmap string Object) (obj : string) : list string :=
  (filter (λ kv, parent kv.2 = Some obj) (map_to_list objs)).*1.

(** [context.selected_objects] *)
Definition context_selected_objects (objs : gmap string Object) : list string :=
  (filter (λ kv, select_get kv.2 = true) (map_to_list objs)).*1.

(** *** Bounding box ([obj.bound_box]) *)

Fixpoint qmin_list (x : Q) (l : list Q) : Q :=
  match l with
  | [] => x
  | y :: l' => qmin_list (Qmin x y) l'
  end.

Fixpoint qmax_list (x : Q) (l : list Q) : Q :=
  match l with
  | [] => x
  | y :: l' => qmax_list (Qmax x y) l'
  end.

(** Lower and upper corner of the axis-aligned box around the vertices; a
    mesh without vertices has the all-zero box. *)
Definition bounds (vs : list Vector) : Vector * Vector :=
  match vs with
  | [] => (zero_vector, zero_vector)
  | v :: vs' =>
      (mkVector (qmin_list (vx v) (map vx vs'))
                (qmin_list (vy v) (map vy vs'))
                (qmin_list (vz v) (map vz vs')),
       mkVector (qmax_list (vx v) (map vx vs'))
                (qmax_list (vy v) (map vy vs'))
                (qmax_list (vz v) (map vz vs')))
  end.

(** The eight corners in the host's order. *)
Definition corners (lo hi : Vector) : list Vector :=
  [ mkVector (vx lo) (vy lo) (vz lo);
    mkVector (vx lo) (vy lo) (vz hi);
    mkVector (vx lo) (vy hi) (vz hi);
    mkVector (vx lo) (vy hi) (vz lo);
    mkVector (vx hi) (vy lo) (vz lo);
    mkVector (vx hi) (vy lo) (vz hi);
    mkVector (vx hi) (vy hi) (vz hi);
    mkVector (vx hi) (vy hi) (vz lo) ].

Definition bound_box (o : Object) : list Vector :=
  let '(lo, hi) := bounds (vertices o) in corners lo hi.

(** [bb[i][j]] *)
Definition bb_at (bb : list Vector) (i j : nat) : Q :=
  vindex (nth i bb zero_vector) j.

(** Python's [min] over a non-empty list keeps the first least element. *)
Definition py_min (l : list Q) : Q :=
  match l with
  | [] => 0
  | x :: l' => fold_left (λ m y, if Qlt_le_dec y m then y else m) l' x
  end.

(** ** Scene settings

    The properties the add-on attaches to [bpy.types.Scene]
    (lines 24-98 and [register]). *)

Inductive ExportType := FBX | OBJ.

Inductive ColorsType := NONE | SRGB | LINEAR.

Record ExportOptions := mkExportOptions {
  include_modifiers_fbx : bool;
  use_triangles_fbx : bool;
  use_vertex_colors_fbx : ColorsType;
  include_modifiers_obj : bool;
  use_triangles_obj : bool;
}.

Definition registered_scene_properties : list string :=
  [ "export_types"; "batch_export"; "mesh_directory_path"; "set_file_name";
    "origin_at_bottom"; "custom_origin"; "ExportOptions" ].

(** A scene carries a value for every registered property; attributes
    that other code attached to the scene type are in [other_properties].
    Reading an attribute that is in neither raises [AttributeError]. *)
Record Scene := mkScene {
  export_types : ExportType;
  batch_export : bool;
  mesh_directory_path : string;
  set_file_name : string;
  origin_at_bottom : bool;
  custom_origin : bool;
  scene_ExportOptions : ExportOptions;
  other_properties : gmap string string;
}.

(** [export_format.lower()] for the items of the [export_types] enum *)
Definition export_format (t : ExportType) : string :=
  match t with FBX => "FBX" | OBJ => "OBJ" end.

Definition lower_ascii (c : ascii) : ascii :=
  let n := nat_of_ascii c in
  if (65 <=? n)%nat && (n <=? 90)%nat then ascii_of_nat (n + 32) else c.

Fixpoint lower (s : string) : string :=
  match s with
  | EmptyString => EmptyString
  | String c s' => String (lower_ascii c) (lower s')
  end.

(** ** The host state and Python's control flow *)

Inductive PyValue := PyBool (b : bool) | PyStr (s : string) | PyEnum (c : ColorsType).

Inductive HostCall :=
  | wm_save_as_mainfile (filepath : string)
  | object_select_all_DESELECT
  | object_mode_set_OBJECT
  | object_transform_apply_rotation_scale
  | object_origin_set_CURSOR_MEDIAN
  | export_scene_fbx (kwargs : list (string * PyValue))
  | wm_obj_export (kwargs : list (string * PyValue))
  | view3d_snap_cursor_to_center
  | os_makedirs (path : string).

Inductive Exception :=
  | AttributeError (attribute : string)
  | TypeError (keyword : string)
  | IndexError
  | ReferenceError (object : string)
  | RuntimeError (call : HostCall).

Record State := mkState {
  objects : gmap string Object;               (* [bpy.data.objects] *)
  active : option string;                     (* [context.view_layer.objects.active] *)
  cursor_location : Vector;                   (* [context.scene.cursor.location] *)
  directories : list string;                  (* directories on disk *)
  exported : list (string * list string);     (* export files written, with the objects in each *)
  calls : list HostCall;                      (* host calls issued, oldest first *)
  reports : list (string * string);           (* [self.report] *)
}.

Definition set_objects (objs : gmap string Object) (s : State) : State :=
  mkState objs (active s) (cursor_location s) (directories s) (exported s) (calls s) (reports s).

Definition set_active (a : option string) (s : State) : State :=
  mkState (objects s) a (cursor_location s) (directories s) (exported s) (calls s) (reports s).

Definition set_cursor_location (v : Vector) (s : State) : State :=
  mkState (objects s) (active s) v (directories s) (exported s) (calls s) (reports s).

Definition add_directory (p : string) (s : State) : State :=
  mkState (objects s) (active s) (cursor_location s) (directories s ++ [p]) (exported s) (calls s) (reports s).

Definition add_exported (f : string * list string) (s : State) : State :=
  mkState (objects s) (active s) (cursor_location s) (directories s) (exported s ++ [f]) (calls s) (reports s).

Definition add_call (c : HostCall) (s : State) : State :=
  mkState (objects s) (active s) (cursor_location s) (directories s) (exported s) (calls s ++ [c]) (reports s).

Definition add_report (r : string * string) (s : State) : State :=
  mkState (objects s) (active s) (cursor_location s) (directories s) (exported s) (calls s) (reports s ++ [r]).

Inductive Result (A : Type) :=
  | Return (a : A)
  | Raise (e : Exception).
Arguments Return {A} a.
Arguments Raise {A} e.

(** A Python statement: it ends normally or raises, and the state it
    leaves behind is kept in both cases. *)
Definition Py (A : Type) : Type := State -> Result A * State.

Definition ret {A} (a : A) : Py A := λ s, (Return a, s).

Definition raise {A} (e : Exception) : Py A := λ s, (Raise e, s).

Definition bind {A B} (c : Py A) (k : A -> Py B) : Py B := λ s,
  match c s with
  | (Return a, s1) => k a s1
  | (Raise e, s1) => (Raise e, s1)
  end.

Notation "x <- c ;; k" := (bind c (λ x, k))
  (at level 100, c at next level, right associativity).
Notation "c ;; k" := (bind c (λ _, k))
  (at level 100, right associativity).

Definition gets {A} (f : State -> A) : Py A := λ s, (Return (f s), s).

Definition modify (f : State -> State) : Py unit := λ s, (Return tt, f s).

(** [for x in l: body(x)] *)
Fixpoint for_each {A} (l : list A) (body : A -> Py unit) : Py unit :=
  match l with
  | [] => ret tt
  | x :: l' => body x ;; for_each l' body
  end.

(** [try: body finally: cleanup].  The cleanup runs on both exits; an
    exception of the cleanup replaces the outcome of the body. *)
Definition try_finally {A} (body : Py A) (cleanup : Py unit) : Py A := λ s,
  let '(r, s1) := body s in
  match cleanup s1 with
  | (Return _, s2) => (r, s2)
  | (Raise e, s2) => (Raise e, s2)
  end.

(** Reading an attribute of the object [obj] refers to. *)
Definition read_object (obj : string) : Py Object := λ s,
  match objects s !! obj with
  | Some o => (Return o, s)
  | None => (Raise (ReferenceError obj), s)
  end.

(** Writing an attribute of the object [obj] refers to. *)
Definition write_object (obj : string) (f : Object -> Object) : Py unit :=
  modify (λ s, set_objects (alter f obj (objects s)) s).

(** ** Host operators *)

(** Keyword arguments the two exporters of the host accept (Python API of
    the host version the add-on declares in [bl_info]). *)
Definition export_scene_fbx_keywords : list string :=
  [ "filepath"; "check_existing"; "filter_glob"; "use_selection"; "use_visible";
    "use_active_collection"; "collection"; "global_scale"; "apply_unit_scale";
    "apply_scale_options"; "use_space_transform"; "bake_space_transform";
    "object_types"; "use_mesh_modifiers"; "use_mesh_modifiers_render";
    "mesh_smooth_type"; "colors_type"; "prioritize_active_color"; "use_subsurf";
    "use_mesh_edges"; "use_tspace"; "use_triangles"; "use_custom_props";
    "add_leaf_bones"; "primary_bone_axis"; "secondary_bone_axis";
    "use_armature_deform_only"; "armature_nodetype"; "bake_anim";
    "bake_anim_use_all_bones"; "bake_anim_use_nla_strips";
    "bake_anim_use_all_actions"; "bake_anim_force_startend_keying";
    "bake_anim_step"; "bake_anim_simplify_factor"; "path_mode";
    "embed_textures"; "batch_mode"; "use_batch_own_dir"; "use_metadata";
    "axis_forward"; "axis_up" ].

Definition wm_obj_export_keywords : list string :=
  [ "filepath"; "check_existing"; "filter_glob"; "export_animation";
    "start_frame"; "end_frame"; "forward_axis"; "up_axis"; "global_scale";
    "apply_modifiers"; "export_eval_mode";
    "export_selected_objects"; "export_uv"; "export_normals"; "export_colors";
    "export_materials"; "export_pbr_extensions"; "path_mode";
    "export_triangulated_mesh"; "export_curves_as_nurbs";
    "export_object_groups"; "export_material_groups"; "export_vertex_groups";
    "export_smooth_groups"; "smooth_group_bitflags"; "collection" ].

(** The first keyword of a call that its operator does not know. *)
Definition unrecognized_keyword (c : HostCall) : option string :=
  match c with
  | export_scene_fbx kw =>
      head (filter (λ k, k ∉ export_scene_fbx_keywords) kw.*1)
  | wm_obj_export kw =>
      head (filter (λ k, k ∉ wm_obj_export_keywords) kw.*1)
  | _ => None
  end.

Fixpoint keyword (k : string) (kw : list (string * PyValue)) : option PyValue :=
  match kw with
  | [] => None
  | (k', v) :: kw' => if decide (k = k') then Some v else keyword k kw'
  end.

Definition keyword_filepath (kw : list (string * PyValue)) : string :=
  match keyword "filepath" kw with
  | Some (PyStr p) => p
  | _ => ""
  end.

(** What the add-on takes from the host besides the operators whose
    effect is written out in [host_effect]. *)
Class Host := mkHost {
  (** [bpy.path.clean_name], [bpy.path.abspath] and [os.path.join] *)
  clean_name : string -> string;
  abspath : string -> string;
  path_join : string -> string -> string;
  (** Whether the host makes a call fail in a state (a failed poll, a
      read-only disk, ...). *)
  host_raises : HostCall -> State -> bool;
  (** The effect on the objects of
      [bpy.ops.object.transform_apply(rotation=True, scale=True)] (the
      operator's third argument, [location], keeps its default) and of
      [bpy.ops.object.origin_set(type='ORIGIN_CURSOR', center='MEDIAN')],
      the latter for a position of the 3D cursor. *)
  transform_apply : gmap string Object -> gmap string Object;
  origin_set : Vector -> gmap string Object -> gmap string Object;
}.

Inductive OperatorResult := FINISHED | CANCELLED.

(** The argument of [set_origin_to_custom]: a list (or tuple) of objects,
    or one object. *)
Inductive Objects :=
  | ObjectList (l : list string)
  | SingleObject (obj : string).

(** The three dictionaries of [execute] (lines 219-221). *)
Record Snapshot := mkSnapshot {
  original_matrices : gmap string Matrix;
  original_vertices : gmap string (list Vector);
  original_empty_transforms : gmap string Matrix;
}.

Section AddOn.

Context `{!Host}.

(** What a host call does when it succeeds.  An exporter writes the
    current selection to its [filepath]; [exported] records every such
    write, also a second one to the same path. *)
Definition host_effect (c : HostCall) (s : State) : State :=
  match c with
  | wm_save_as_mainfile _ => s
  | object_select_all_DESELECT =>
      set_objects (set_select false <$> objects s) s
  | object_mode_set_OBJECT =>
      match active s with
      | Some a => set_objects (alter (set_mode OBJECT) a (objects s)) s
      | None => s
      end
  | object_transform_apply_rotation_scale =>
      set_objects (transform_apply (objects s)) s
  | object_origin_set_CURSOR_MEDIAN =>
      set_objects (origin_set (cursor_location s) (objects s)) s
  | export_scene_fbx kw | wm_obj_export kw =>
      add_exported (keyword_filepath kw, context_selected_objects (objects s)) s
  | view3d_snap_cursor_to_center => set_cursor_location zero_vector s
  | os_makedirs p => add_directory p s
  end.

(** A call into the host: keywords the operator does not know are
    refused with [TypeError] before the operator runs. *)
Definition host_call (c : HostCall) : Py unit := λ s,
  let s1 := add_call c s in
  match unrecognized_keyword c with
  | Some k => (Raise (TypeError k), s1)
  | None =>
      if host_raises c s then (Raise (RuntimeError c), s1)
      else (Return tt, host_effect c s1)
  end.

(** ** The add-on *)

(** [obj.data.transform(m)]: empties have no data, lights and cameras
    no [transform]. *)
Definition data_transform (obj : string) (m : Matrix) : Py unit :=
  o <- read_object obj ;;
  match type o with
  | EMPTY | LIGHT | CAMERA => raise (AttributeError "transform")
  | _ => write_object obj (λ o, set_vertices (map (transform_point m) (vertices o)) o)
  end.

(** The local point [set_origin_at_bottom] moves the origin to
    (lines 105-107): the sums and quotients are Python floats, and
    [mathutils.Vector] stores its components in single precision. *)
Definition bottom_centroid (o : Object) : Vector :=
  let bb := bound_box o in
  let min_z := py_min (map (λ point, vindex point 2) bb) in
  mkVector (float32 (py_div (py_add (bb_at bb 0 0) (bb_at bb 6 0)) 2))
           (float32 (py_div (py_add (bb_at bb 0 1) (bb_at bb 2 1)) 2))
           (float32 min_z).

Definition set_origin_at_bottom (obj : string) : Py Vector :=
  o <- read_object obj ;;
  (if decide (mode o ≠ OBJECT) then host_call object_mode_set_OBJECT else ret tt) ;;
  host_call object_transform_apply_rotation_scale ;;
  o <- read_object obj ;;
  let centroid := bottom_centroid o in
  let world_new_origin := matmul_vec (matrix_world o) centroid in
  data_transform obj (Translation (vneg centroid)) ;;
  ret world_new_origin.

(** [context.scene.selected_empty] *)
Definition selected_empty (scene : Scene) : Result string :=
  match other_properties scene !! "selected_empty" with
  | Some v => Return v
  | None => Raise (AttributeError "selected_empty")
  end.

(** The generator of lines 121-125, consumed by [next(..., None)]. *)
Fixpoint find_custom_empty (scene : Scene) (objs : gmap string Object)
    (cs : list string) : Result (option string) :=
  match cs with
  | [] => Return None
  | child :: cs' =>
      if decide (type <$> objs !! child = Some EMPTY) then
        match selected_empty scene with
        | Raise e => Raise e
        | Return name =>
            if decide (name = "") then Return (Some child)
            else if decide (child = name) then Return (Some child)
            else find_custom_empty scene objs cs'
        end
      else find_custom_empty scene objs cs'
  end.

Definition process_obj (scene : Scene) (obj : string) : Py unit :=
  o <- read_object obj ;;
  if decide (type o ≠ MESH) then ret tt
  else
    objs <- gets objects ;;
    match find_custom_empty scene objs (children objs obj) with
    | Raise e => raise e
    | Return None => ret tt
    | Return (Some custom_empty) =>
        ce <- read_object custom_empty ;;
        modify (set_cursor_location (translation (matrix_world ce))) ;;
        host_call object_select_all_DESELECT ;;
        write_object obj (set_select true) ;;
        modify (set_active (Some obj)) ;;
        host_call object_origin_set_CURSOR_MEDIAN
    end.

Definition process_objects (scene : Scene) (selected_objects : Objects) : Py unit :=
  match selected_objects with
  | ObjectList l => for_each l (process_obj scene)
  | SingleObject obj => process_obj scene obj
  end.

Definition set_origin_to_custom (selected_objects : Objects) (scene : Scene) : Py unit :=
  process_objects scene selected_objects ;;
  process_objects scene selected_objects.

(** [manipulate_origin] (lines 154-173).  It chooses the policy by
    [origin_at_bottom] and by the truth value of [scene.selected_empty],
    and hands [set_origin_to_custom] one object, not a list. *)
Definition manipulate_origin (selected_objects : list string) (scene : Scene) : Py unit :=
  host_call object_select_all_DESELECT ;;
  for_each selected_objects (λ obj,
    write_object obj (set_select true) ;;
    modify (set_active (Some obj)) ;;
    (if origin_at_bottom scene then
       (set_origin_at_bottom obj ;; ret tt)
     else
       match selected_empty scene with
       | Raise e => raise e
       | Return name =>
           if decide (name ≠ "") then
             set_origin_to_custom (SingleObject obj) scene
           else
             (o <- read_object obj ;;
              modify (set_cursor_location (location o)) ;;
              host_call object_origin_set_CURSOR_MEDIAN)
       end) ;;
    write_object obj (set_location zero_vector) ;;
    write_object obj (set_select false)).

(** The keyword arguments of the FBX exporter (lines 188-194 and
    274-280, the same in both). *)
Definition fbx_kwargs (filepath : string) (use_modifiers use_triangulation : bool)
    (use_vertex_colors : ColorsType) : list (string * PyValue) :=
  [ ("filepath", PyStr filepath);
    ("use_selection", PyBool true);
    ("use_mesh_modifiers", PyBool use_modifiers);
    ("use_triangles", PyBool use_triangulation);
    ("colors_type", PyEnum use_vertex_colors) ].

(** The keyword arguments of the OBJ exporter in [export_objects]
    (lines 196-201) and in the single-file branch of [execute]
    (lines 282-287). *)
Definition batch_obj_kwargs (filepath : string) : list (string * PyValue) :=
  [ ("filepath", PyStr filepath);
    ("export_selected_objects", PyBool true);
    ("apply_modifiers", PyBool true);
    ("export_triangulated_mesh", PyBool true) ].

Definition single_obj_kwargs (filepath : string) : list (string * PyValue) :=
  [ ("filepath", PyStr filepath);
    ("export_selected_objects", PyBool true);
    ("apply_modifiers", PyBool true);
    ("export_trianguled_mesh", PyBool true) ].

Definition export_objects (selected_objects : list string) (format : ExportType)
    (directory : string) (use_modifiers use_triangulation : bool)
    (use_vertex_colors : ColorsType) : Py unit :=
  for_each selected_objects (λ selected_obj,
    modify (set_active (Some selected_obj)) ;;
    host_call object_select_all_DESELECT ;;
    write_object selected_obj (set_select true) ;;
    let object_file_name :=
      clean_name selected_obj +:+ "." +:+ lower (export_format format) in
    let object_filepath := path_join directory object_file_name in
    match format with
    | FBX =>
        host_call (export_scene_fbx
          (fbx_kwargs object_filepath use_modifiers use_triangulation use_vertex_colors))
    | OBJ => host_call (wm_obj_export (batch_obj_kwargs object_filepath))
    end).

(** *** [execute]: the snapshot (lines 218-229) *)

Definition store_empty (objs : gmap string Object) (snap : Snapshot)
    (child : string) : Snapshot :=
  match objs !! child with
  | Some c =>
      if decide (type c = EMPTY) then
        mkSnapshot (original_matrices snap) (original_vertices snap)
                   (<[child := matrix_world c]> (original_empty_transforms snap))
      else snap
  | None => snap
  end.

Definition store_object (objs : gmap string Object) (snap : Snapshot)
    (obj : string) : Snapshot :=
  match objs !! obj with
  | Some o =>
      let snap1 :=
        if decide (type o = MESH) then
          mkSnapshot (<[obj := matrix_world o]> (original_matrices snap))
                     (<[obj := vertices o]> (original_vertices snap))
                     (original_empty_transforms snap)
        else snap in
      foldl (store_empty objs) snap1 (children objs obj)
  | None => snap
  end.

Definition store_original_state (objs : gmap string Object)
    (selected_objects : list string) : Snapshot :=
  foldl (store_object objs) (mkSnapshot ∅ ∅ ∅) selected_objects.

(** *** [execute]: the body of the [try] (lines 232-287) *)

(** Lines 240-244: the body of the loop of the default branch. *)
Definition origin_to_object_location (obj : string) : Py unit :=
  o <- read_object obj ;;
  modify (set_cursor_location (location o)) ;;
  host_call object_select_all_DESELECT ;;
  write_object obj (set_select true) ;;
  modify (set_active (Some obj)) ;;
  host_call object_origin_set_CURSOR_MEDIAN.

Definition origin_handling (scene : Scene) (selected_objects : list string) : Py unit :=
  if custom_origin scene then
    set_origin_to_custom (ObjectList selected_objects) scene
  else if origin_at_bottom scene then
    for_each selected_objects (λ obj, set_origin_at_bottom obj ;; ret tt)
  else
    for_each selected_objects origin_to_object_location.

Definition move_objects_to_zero (selected_objects : list string) : Py unit :=
  for_each selected_objects (λ obj, write_object obj (set_location zero_vector)).

Definition export_process (scene : Scene) (selected_objects : list string) : Py unit :=
  let use_modifiers := include_modifiers_fbx (scene_ExportOptions scene) in
  let use_triangulation := use_triangles_fbx (scene_ExportOptions scene) in
  let use_vertex_colors := use_vertex_colors_fbx (scene_ExportOptions scene) in
  let format := export_types scene in
  let directory := abspath (mesh_directory_path scene) in
  dirs <- gets directories ;;
  (if decide (directory ∈ dirs) then ret tt else host_call (os_makedirs directory)) ;;
  if batch_export scene then
    export_objects selected_objects format directory
      use_modifiers use_triangulation use_vertex_colors
  else
    host_call object_select_all_DESELECT ;;
    for_each selected_objects (λ obj, write_object obj (set_select true)) ;;
    active_object <- gets active ;;
    file_base_name <-
      (if decide (set_file_name scene ≠ "") then ret (clean_name (set_file_name scene))
       else match active_object with
            | Some a => ret (clean_name a)
            | None => raise (AttributeError "name")
            end) ;;
    let file_name := file_base_name +:+ "." +:+ lower (export_format format) in
    let filepath := path_join directory file_name in
    match format with
    | FBX =>
        host_call (export_scene_fbx
          (fbx_kwargs filepath use_modifiers use_triangulation use_vertex_colors))
    | OBJ => host_call (wm_obj_export (single_obj_kwargs filepath))
    end.

Definition try_body (scene : Scene) (selected_objects : list string) : Py unit :=
  origin_handling scene selected_objects ;;
  move_objects_to_zero selected_objects ;;
  export_process scene selected_objects.

(** *** [execute]: the [finally] block (lines 289-304) *)

(** [for i, v in enumerate(vertices): v.co = original[i]]: the vertices
    written so far, and whether the loop ended without [IndexError]. *)
Fixpoint assign_vertices (current original : list Vector) : list Vector * bool :=
  match current, original with
  | [], _ => ([], true)
  | _ :: _, [] => (current, false)
  | _ :: current', co :: original' =>
      let '(vs, ok) := assign_vertices current' original' in (co :: vs, ok)
  end.

Definition restore_object (snap : Snapshot) (obj : string) : Py unit :=
  o <- read_object obj ;;
  (if decide (type o = MESH) then
     match original_vertices snap !! obj with
     | Some original =>
         let '(vs, ok) := assign_vertices (vertices o) original in
         write_object obj (set_vertices vs) ;;
         if ok then ret tt else raise IndexError
     | None => ret tt
     end
   else ret tt) ;;
  match original_matrices snap !! obj with
  | Some m => write_object obj (set_matrix_world m)
  | None => ret tt
  end.

(** [bpy.data.objects.get(empty_name)] and the assignment under it *)
Definition restore_empty (item : string * Matrix) : Py unit :=
  objs <- gets objects ;;
  match objs !! item.1 with
  | Some _ => write_object item.1 (set_matrix_world item.2)
  | None => ret tt
  end.

(** The second loop walks the items of a dictionary; its iterations
    write to distinct objects and cannot raise, so the order of the items
    is not observable. *)
Definition restore_original_state (snap : Snapshot)
    (selected_objects : list string) : Py unit :=
  for_each selected_objects (restore_object snap) ;;
  for_each (map_to_list (original_empty_transforms snap)) restore_empty ;;
  host_call view3d_snap_cursor_to_center.

(** *** [OBJECT_OT_ExportOperator.execute] *)

(** Line 213: the selection without the empties. *)
Definition filter_selection (objs : gmap string Object) : list string :=
  filter (λ obj, type <$> objs !! obj ≠ Some EMPTY) (context_selected_objects objs).

Definition execute (scene : Scene) (blend_filepath : string) : Py OperatorResult :=
  host_call (wm_save_as_mainfile blend_filepath) ;;
  objs <- gets objects ;;
  let selected_objects := filter_selection objs in
  match selected_objects with
  | [] =>
      modify (add_report ("ERROR", "No valid mesh objects to export.")) ;;
      ret CANCELLED
  | _ :: _ =>
      let snap := store_original_state objs selected_objects in
      try_finally (try_body scene selected_objects)
                  (restore_original_state snap selected_objects) ;;
      ret FINISHED
  end.

(** *** Conditions on the host *)

(** The two geometry operators neither create, delete, re-parent or
    retype objects nor change the number of vertices of a mesh. *)
Class HostFrame : Prop := {
  transform_apply_shape objs : shape <$> transform_apply objs = shape <$> objs;
  origin_set_shape c objs : shape <$> origin_set c objs = shape <$> objs;
}.

(** What the host documents for the cursor-anchored origin-set: the
    origins of the selected meshes move to the cursor, objects that are
    not selected (children included) stay where they are in world space,
    the selection is kept, and an origin that is at the cursor stays
    there. *)
Class OriginSetContract : Prop := {
  origin_set_at_cursor c objs k o :
    objs !! k = Some o → select_get o = true → type o = MESH →
    ∃ o', origin_set c objs !! k = Some o' ∧ translation (matrix_world o') = c;
  origin_set_unselected c objs k o :
    objs !! k = Some o → select_get o = false →
    ∃ o', origin_set c objs !! k = Some o' ∧ matrix_world o' = matrix_world o;
  origin_set_select c objs :
    select_get <$> origin_set c objs = select_get <$> objs;
  origin_set_idempotent c objs :
    origin_set c (origin_set c objs) = origin_set c objs;
}.

(** The host never makes a call fail. *)
Definition host_never_raises : Prop := ∀ c s, host_raises c s = false.

End AddOn.

(** ** The panel ([View3D_PT_Export_Utility.draw], lines 315-348) *)

(** The object a property is drawn from: [context.scene] or
    [scene.ExportOptions]. *)
Inductive PropertyOwner := OnScene | OnExportOptions.

#[global] Instance PropertyOwner_eq_dec : EqDecision PropertyOwner.
Proof. solve_decision. Defined.

(** The annotations of the class [ExportOptions] (lines 34-65). *)
Definition ExportOptions_properties : list string :=
  [ "include_modifiers_fbx"; "use_triangles_fbx"; "use_vertex_colors_fbx";
    "include_modifiers_obj"; "use_triangles_obj" ].

Definition properties_of (owner : PropertyOwner) : list string :=
  match owner with
  | OnScene => registered_scene_properties
  | OnExportOptions => ExportOptions_properties
  end.

(** One call of [layout.prop]. *)
Record UIProp := mkUIProp {
  prop_owner : PropertyOwner;
  prop_name : string;
  prop_icon : option string;
  prop_text : option string;
  prop_expand : bool;
}.

#[global] Instance UIProp_eq_dec : EqDecision UIProp.
Proof. solve_decision. Defined.

Inductive UIItem :=
  | ui_label (icon text : string)
  | ui_prop (p : UIProp)
  | ui_row (align : bool) (ps : list UIProp)
  | ui_separator (type : string)
  | ui_operator (idname text icon : string).

(** [OBJECT_OT_ExportOperator.bl_idname] (line 204) *)
Definition bl_idname : string := "object.basic_export".

(** The boxes of the panel, in the order they are drawn. *)
Definition draw (scene : Scene) : list (list UIItem) :=
  [ [ ui_label "FILE_FOLDER" "Path";
      ui_prop (mkUIProp OnScene "mesh_directory_path" None (Some "Folder") false) ]
    ++ (if batch_export scene then []
        else [ ui_prop (mkUIProp OnScene "set_file_name" None (Some "File Name") false) ]);
    [ ui_label "OPTIONS" "Options";
      ui_row true [ mkUIProp OnScene "export_types" None None true ];
      ui_prop (mkUIProp OnScene "batch_export" (Some "FILE_VOLUME")
                 (Some "Batch Export") false);
      ui_prop (mkUIProp OnScene "origin_at_bottom" (Some "OBJECT_ORIGIN")
                 (Some "Origin At Bottom") false);
      ui_prop (mkUIProp OnScene "custom_origin" (Some "TRANSFORM_ORIGINS")
                 (Some "Custom Origin") false);
      ui_separator "LINE" ]
    ++ match export_types scene with
       | FBX =>
           [ ui_prop (mkUIProp OnExportOptions "include_modifiers_fbx" (Some "MODIFIER")
                        (Some "Export With Modifiers") false);
             ui_prop (mkUIProp OnExportOptions "use_triangles_fbx" (Some "MOD_TRIANGULATE")
                        (Some "Triangulation") false);
             ui_prop (mkUIProp OnExportOptions "use_vertex_colors_fbx" (Some "UV_VERTEXSEL")
                        (Some "Vertex Col.") false) ]
       | OBJ =>
           [ ui_prop (mkUIProp OnExportOptions "include_modifiers_obj" (Some "MODIFIER")
                        (Some "Include Modifiers") false);
             ui_prop (mkUIProp OnExportOptions "use_triangles_obj" (Some "MOD_TRIANGULATE")
                        (Some "Triangulation") false) ]
       end;
    [ ui_operator "object.basic_export" "Export" "EXPORT" ] ].

Definition item_props (item : UIItem) : list UIProp :=
  match item with
  | ui_prop p => [p]
  | ui_row _ ps => ps
  | _ => []
  end.

Definition item_operators (item : UIItem) : list string :=
  match item with
  | ui_operator idname _ _ => [idname]
  | _ => []
  end.

(** The properties and the operators a panel shows. *)
Definition panel_props (boxes : list (list UIItem)) : list UIProp :=
  concat boxes ≫= item_props.

Definition panel_operators (boxes : list (list UIItem)) : list string :=
  concat boxes ≫= item_operators.

(** ** Loading, [register] and [unregister] (lines 15-98 and 350-364) *)

(** The attributes of [bpy.types.Scene] and the classes registered with
    the host. *)
Record Registry := mkRegistry {
  Scene_attributes : gset string;
  registered_classes : list string;
}.

Definition set_Scene_attribute (name : string) (r : Registry) : Registry :=
  mkRegistry ({[ name ]} ∪ Scene_attributes r) (registered_classes r).

(** The assignments to [scene.<name>] that run when the module is loaded:
    the one in the body of the class [ExportOptions] (line 24) and those
    at the top level (lines 67-98). *)
Definition module_body (r : Registry) : Registry :=
  set_Scene_attribute "custom_origin"
    (set_Scene_attribute "origin_at_bottom"
      (set_Scene_attribute "set_file_name"
        (set_Scene_attribute "mesh_directory_path"
          (set_Scene_attribute "batch_export"
            (set_Scene_attribute "export_types" r))))).

Definition classes : list string :=
  [ "View3D_PT_Export_Utility"; "OBJECT_OT_ExportOperator"; "ExportOptions" ].

(** [bpy.utils.register_class] refuses a class that is registered and
    [bpy.utils.unregister_class] one that is not; [None] stands for the
    exception. *)
Definition register_class (cls : string) (r : Registry) : option Registry :=
  if decide (cls ∈ registered_classes r) then None
  else Some (mkRegistry (Scene_attributes r) (registered_classes r ++ [cls])).

Definition unregister_class (cls : string) (r : Registry) : option Registry :=
  if decide (cls ∈ registered_classes r) then
    Some (mkRegistry (Scene_attributes r) (filter (λ c, c ≠ cls) (registered_classes r)))
  else None.

(** [for cls in l: f(cls)] *)
Fixpoint for_classes (f : string → Registry → option Registry) (l : list string)
    (r : Registry) : option Registry :=
  match l with
  | [] => Some r
  | cls :: l' => r' ← f cls r; for_classes f l' r'
  end.

Definition register (r : Registry) : option Registry :=
  r' ← for_classes register_class classes r;
  Some (set_Scene_attribute "ExportOptions" r').

(** [del bpy.types.Scene.ExportOptions] raises when the attribute is not
    there. *)
Definition unregister (r : Registry) : option Registry :=
  r' ← for_classes unregister_class classes r;
  if decide ("ExportOptions" ∈ Scene_attributes r') then
    Some (mkRegistry (Scene_attributes r' ∖ {[ "ExportOptions" ]}) (registered_classes r'))
  else None.

(** ** Invariants of Python statements *)

(** [c] keeps [I], whether it ends normally or raises. *)
Definition preserves {A} (I : State → Prop) (c : Py A) : Prop :=
  ∀ s, I s → I (c s).2.

(** The objects of [s] are those of [objs0], up to the attributes an
    export run may change. *)
Definition same_shape (objs0 : gmap string Object) (s : State) : Prop :=
  shape <$> objects s = shape <$> objs0.

(** Every entry of the snapshot holds the value the object of that name
    has in [objs0]. *)
Definition snapshot_sound (objs0 : gmap string Object) (snap : Snapshot) : Prop :=
  (∀ k m, original_matrices snap !! k = Some m →
     ∃ o, objs0 !! k = Some o ∧ type o = MESH ∧ m = matrix_world o) ∧
  (∀ k vs, original_vertices snap !! k = Some vs →
     ∃ o, objs0 !! k = Some o ∧ type o = MESH ∧ vs = vertices o) ∧
  (∀ k m, original_empty_transforms snap !! k = Some m →
     ∃ o, objs0 !! k = Some o ∧ type o = EMPTY ∧ m = matrix_world o).

Definition snapshot_le (a b : Snapshot) : Prop :=
  original_matrices a ⊆ original_matrices b ∧
  original_vertices a ⊆ original_vertices b ∧
  original_empty_transforms a ⊆ original_empty_transforms b.

(** The mesh [obj] has the vertex positions and the world matrix it has
    in [objs0]. *)
Definition mesh_restored (objs0 : gmap string Object) (obj : string) (s : State) : Prop :=
  ∀ o0, objs0 !! obj = Some o0 → type o0 = MESH →
    ∃ o, objects s !! obj = Some o ∧
         vertices o = vertices o0 ∧ matrix_world o = matrix_world o0.

(** The empty [child] has the world matrix it has in [objs0]. *)
Definition empty_restored (objs0 : gmap string Object) (child : string) (s : State) : Prop :=
  ∀ c0, objs0 !! child = Some c0 → type c0 = EMPTY →
    ∃ c, objects s !! child = Some c ∧ matrix_world c = matrix_world c0.

(** From [s] to [s'] nothing happened to the objects except that vertex
    positions or world matrices were set to their values in [objs0]. *)
Definition resets (objs0 : gmap string Object) (s s' : State) : Prop :=
  ∀ k, objects s' !! k = objects s !! k ∨
       ∃ o o' o0, objects s !! k = Some o ∧ objects s' !! k = Some o' ∧
                  objs0 !! k = Some o0 ∧
                  (vertices o' = vertices o ∨ vertices o' = vertices o0) ∧
                  (matrix_world o' = matrix_world o ∨
                   matrix_world o' = matrix_world o0).

(** A mesh that has a child of type EMPTY. *)
Definition mesh_with_empty_child (objs : gmap string Object) (obj : string) : Prop :=
  type <$> objs !! obj = Some MESH ∧
  Exists (λ child, type <$> objs !! child = Some EMPTY) (children objs obj).

#[global] Instance mesh_with_empty_child_dec objs obj :
  Decision (mesh_with_empty_child objs obj).
Proof. unfold mesh_with_empty_child. apply _. Defined.

(** The scene with other values of the two OBJ option flags. *)
Definition with_obj_flags (include_modifiers use_triangles : bool) (scene : Scene) : Scene :=
  let opts := scene_ExportOptions scene in
  mkScene (export_types scene) (batch_export scene) (mesh_directory_path scene)
    (set_file_name scene) (origin_at_bottom scene) (custom_origin scene)
    (mkExportOptions (include_modifiers_fbx opts) (use_triangles_fbx opts)
       (use_vertex_colors_fbx opts) include_modifiers use_triangles)
    (other_properties scene).

(** A host call other than the save of the document. *)
Definition inner_call (c : HostCall) : Prop :=
  match c with
  | wm_save_as_mainfile _ => False
  | _ => True
  end.

(** Since the state [s0] the host was called with operators of the set
    [allowed] only. *)
Definition issued_since (s0 : State) (allowed : HostCall → Prop) (st : State) : Prop :=
  ∃ issued, calls st = calls s0 ++ issued ∧ Forall allowed issued.

(** The scene with other values of all the option flags. *)
Definition with_options (opts : ExportOptions) (scene : Scene) : Scene :=
  mkScene (export_types scene) (batch_export scene) (mesh_directory_path scene)
    (set_file_name scene) (origin_at_bottom scene) (custom_origin scene)
    opts (other_properties scene).

(** The coordinates of a mesh are single-precision floats. *)
Definition is_float32 (q : Q) : Prop := (float32 q == q)%Q.

Definition float_vector (v : Vector) : Prop :=
  is_float32 (vx v) ∧ is_float32 (vy v) ∧ is_float32 (vz v).

(** [x] is the least, the greatest number of the list [l]. *)
Definition least (l : list Q) (x : Q) : Prop :=
  Exists (Qeq x) l ∧ Forall (Qle x) l.

Definition greatest (l : list Q) (x : Q) : Prop :=
  Exists (Qeq x) l ∧ Forall (λ y, y <= x)%Q l.

(** How far from 0 the centre of an interval [lo, hi] can be after its
    ends were moved by [- c] in single precision, [c] being the centre
    as [set_origin_at_bottom] computes it: the rounding of the centre, at
    most [2^-23] of its size, and the rounding of the moved ends, at most
    [2^-24] of their distance from [c]; [2^-148] is four times the
    largest error of a rounding below the normal range. *)
Definition centre_tolerance (lo hi c : Q) : Q :=
  ((1 # 8388608) * Qabs ((lo + hi) / 2)
   + (1 # 16777216) * Qmax (Qabs (lo - c)) (Qabs (hi - c))
   + 2 ^ (-148))%Q.

(** [c] raises from every state. *)
Definition never_returns {A} (c : Py A) : Prop := ∀ s a, (c s).1 ≠ Return a.

(** The object [obj], if it exists, sits at the world origin. *)
Definition zeroed (obj : string) (s : State) : Prop :=
  ∀ o, objects s !! obj = Some o → location o = zero_vector.

(** ** A small host and document to run the add-on on

    Objects of this host carry neither rotation nor scale: applying the
    transforms of a selected mesh moves its location into its vertices,
    and moving an origin is a translation. *)

Definition is_alnum (c : ascii) : bool :=
  let n := nat_of_ascii c in
  ((48 <=? n)%nat && (n <=? 57)%nat) || ((65 <=? n)%nat && (n <=? 90)%nat)
  || ((97 <=? n)%nat && (n <=? 122)%nat).

(** [bpy.path.clean_name] keeps letters, digits and the hyphen. *)
Fixpoint simple_clean_name (s : string) : string :=
  match s with
  | EmptyString => EmptyString
  | String c s' =>
      String (if is_alnum c || Ascii.eqb c "-" then c else "_"%char)
             (simple_clean_name s')
  end.

Definition set_origin_translation (c : Vector) (m : Matrix) : Matrix :=
  mkMatrix (fst (row0 m), vx c) (fst (row1 m), vy c) (fst (row2 m), vz c) (row3 m).

Definition vshift (d v : Vector) : Vector :=
  mkVector (Qred (vx v - vx d)) (Qred (vy v - vy d)) (Qred (vz v - vz d)).

Definition simple_origin_set (cursor : Vector) (objs : gmap string Object)
    : gmap string Object :=
  (λ o, if select_get o then
          let d := vshift (translation (matrix_world o)) cursor in
          mkObject (type o) (mode o) (parent o) cursor
                   (set_origin_translation cursor (matrix_world o))
                   (map (vshift d) (vertices o)) (select_get o)
        else o) <$> objs.

(** [v + d] in single precision. *)
Definition vmove (d v : Vector) : Vector :=
  mkVector (float32 (vx v + vx d)) (float32 (vy v + vy d)) (float32 (vz v + vz d)).

Definition simple_transform_apply (objs : gmap string Object) : gmap string Object :=
  (λ o, if select_get o && bool_decide (type o = MESH) then
          mkObject (type o) (mode o) (parent o) zero_vector
                   (set_origin_translation
                      (vmove (vneg (location o)) (translation (matrix_world o)))
                      (matrix_world o))
                   (map (vmove (location o)) (vertices o)) (select_get o)
        else o) <$> objs.

Definition simple_host (fails : HostCall -> State -> bool) : Host :=
  mkHost simple_clean_name (λ p, p) (λ d f, d +:+ "/" +:+ f) fails
         simple_transform_apply simple_origin_set.

Definition at_point (x y z : Q) : Matrix := Translation (mkVector x y z).

Definition demo_objects : gmap string Object :=
  <["Cube.001" := mkObject MESH OBJECT None (mkVector 1 2 3) (at_point 1 2 3)
                    [mkVector 0 0 0; mkVector 2 4 6] true]>
  (<["Anchor" := mkObject EMPTY OBJECT (Some "Cube.001") (mkVector 1 0 0) (at_point 2 2 3)
                    [] false]>
  (<["Path" := mkObject CURVE OBJECT None (mkVector 5 5 5) (at_point 5 5 5) [] false]> ∅)).

Definition demo_state : State :=
  mkState demo_objects (Some "Cube.001") (mkVector 7 7 7) [] [] [] [].

(** The same document with the curve selected as well, with only the
    empty selected, and without the empty. *)
Definition demo_state_with_curve : State :=
  mkState (alter (set_select true) "Path" demo_objects)
          (Some "Cube.001") (mkVector 7 7 7) [] [] [] [].

Definition demo_state_only_marker : State :=
  mkState (alter (set_select true) "Anchor" (alter (set_select false) "Cube.001" demo_objects))
          (Some "Anchor") (mkVector 7 7 7) [] [] [] [].

Definition demo_state_no_marker : State :=
  mkState (delete "Anchor" demo_objects) (Some "Cube.001") (mkVector 7 7 7) [] [] [] [].

(** A mesh at the world origin whose two vertices are the floats nearest
    to (0.1, 0.2, 0.3) and (0.7, 0.9, 1.1). *)
Definition demo_state_decimal : State :=
  mkState {["Plane" := mkObject MESH OBJECT None zero_vector (at_point 0 0 0)
                         [mkVector (float32 (1 # 10)) (float32 (2 # 10)) (float32 (3 # 10));
                          mkVector (float32 (7 # 10)) (float32 (9 # 10)) (float32 (11 # 10))]
                         true]}
          (Some "Plane") zero_vector [] [] [] [].

Definition demo_options : ExportOptions := mkExportOptions false false NONE false false.

(** FBX into one file, origin at the object (the defaults of the add-on). *)
Definition demo_scene : Scene :=
  mkScene FBX false "/tmp/out" "" false false demo_options ∅.

(** OBJ into one file. *)
Definition demo_scene_obj : Scene :=
  mkScene OBJ false "/tmp/out" "" false false demo_options ∅.

(** The custom-origin flag set, on the scene as the add-on registers it
    and on a scene where other code defined [selected_empty]. *)
Definition demo_scene_custom : Scene :=
  mkScene FBX false "/tmp/out" "" false true demo_options ∅.

Definition demo_scene_custom_defined : Scene :=
  mkScene FBX false "/tmp/out" "" false true demo_options {["selected_empty" := "Anchor"]}.

(** Both origin flags set, on a scene that has [selected_empty]. *)
Definition demo_scene_both_flags : Scene :=
  mkScene FBX false "/tmp/out" "" true true demo_options {["selected_empty" := "Anchor"]}.

Definition never_fails : HostCall → State → bool := λ _ _, false.

Definition demo_host : Host := simple_host never_fails.

Definition demo_blend : string := "/tmp/scene.blend".

(** A host that refuses to set an origin. *)
Definition fails_on_origin_set : HostCall → State → bool := λ c _,
  match c with object_origin_set_CURSOR_MEDIAN => true | _ => false end.

(** A host that refuses every FBX export. *)
Definition fails_on_export : HostCall → State → bool := λ c _,
  match c with export_scene_fbx _ => true | _ => false end.

(** OBJ into one file per object, and the origin at the bottom centre. *)
Definition demo_scene_batch_obj : Scene :=
  mkScene OBJ true "/tmp/out" "" false false demo_options ∅.

Definition demo_scene_bottom : Scene :=
  mkScene FBX false "/tmp/out" "" true false demo_options ∅.

Definition demo_options_all : ExportOptions := mkExportOptions true true LINEAR true true.

(** The snapshot of the cube, and the document after an operator has
    given the cube a third vertex. *)
Definition demo_snapshot : Snapshot := store_original_state demo_objects ["Cube.001"].

Definition demo_state_grown : State :=
  mkState (alter (set_vertices [mkVector 0 0 0; mkVector 2 4 6; mkVector 9 9 9])
             "Cube.001" demo_objects)
          (Some "Cube.001") (mkVector 7 7 7) [] [] [] [].

(** A host session in which nothing of the add-on is loaded. *)
Definition demo_registry : Registry := mkRegistry ∅ [].

(** The document with the cube selected and no active object. *)
Definition demo_state_no_active : State :=
  mkState demo_objects None (mkVector 7 7 7) [] [] [] [].

(** FBX into one file per object, with all the FBX options set. *)
Definition demo_scene_batch_fbx : Scene :=
  mkScene FBX true "/tmp/out" "" false false demo_options_all ∅.


(** * Verification *)

(** ** The store *)

Lemma shape_set_select b o : shape (set_select b o) = shape o.
Proof. reflexivity. Qed.

Lemma shape_set_mode md o : shape (set_mode md o) = shape o.
Proof. reflexivity. Qed.

Lemma shape_set_location v o : shape (set_location v o) = shape o.
Proof. reflexivity. Qed.

Lemma shape_set_matrix_world m o : shape (set_matrix_world m o) = shape o.
Proof. reflexivity. Qed.

Lemma shape_set_vertices vs o :
  length vs = length (vertices o) → shape (set_vertices vs o) = shape o.
Proof. intros Hlen. unfold shape. simpl. by rewrite Hlen. Qed.

Lemma shape_fmap_alter (f : Object → Object) k (m : gmap string Object) :
  (∀ o, m !! k = Some o → shape (f o) = shape o) →
  shape <$> alter f k m = shape <$> m.
Proof.
  intros Hf. apply map_eq. intros i. rewrite !lookup_fmap, lookup_alter.
  case_decide as Hik; [|done]. subst i.
  destruct (m !! k) as [o|] eqn:Hk; simpl; [|done].
  by rewrite (Hf o).
Qed.

Lemma shape_fmap_fmap (f : Object → Object) (m : gmap string Object) :
  (∀ o, shape (f o) = shape o) → shape <$> (f <$> m) = shape <$> m.
Proof.
  intros Hf. apply map_eq. intros i. rewrite !lookup_fmap.
  destruct (m !! i) as [o|]; simpl; [|done]. by rewrite Hf.
Qed.

Lemma shape_lookup (m m' : gmap string Object) k :
  shape <$> m' = shape <$> m → shape <$> (m' !! k) = shape <$> (m !! k).
Proof. intros H. by rewrite <- !lookup_fmap, H. Qed.

Lemma shape_lookup_Some (m m' : gmap string Object) k o :
  shape <$> m' = shape <$> m → m !! k = Some o →
  ∃ o', m' !! k = Some o' ∧ shape o' = shape o.
Proof.
  intros H Hk. pose proof (shape_lookup m m' k H) as Hs. rewrite Hk in Hs.
  destruct (m' !! k) as [o'|]; simpl in Hs; [|done].
  exists o'. split; [done|]. congruence.
Qed.

Lemma shape_type o o' : shape o' = shape o → type o' = type o.
Proof. unfold shape. congruence. Qed.

Lemma shape_length o o' :
  shape o' = shape o → length (vertices o') = length (vertices o).
Proof. unfold shape. congruence. Qed.

Lemma shape_lookup_type (m m' : gmap string Object) k :
  shape <$> m' = shape <$> m → type <$> (m' !! k) = type <$> (m !! k).
Proof.
  intros H. pose proof (shape_lookup m m' k H) as Hs.
  destruct (m' !! k) as [o'|], (m !! k) as [o|]; simpl in *; try done.
  f_equal. apply shape_type. congruence.
Qed.

Lemma filter_fst_prod_map {A B} (g : A → B) (P : B → Prop) `{!∀ b, Decision (P b)}
    (l : list (string * A)) :
  (filter (λ kv, P (g kv.2)) l).*1 = (filter (λ kv, P kv.2) (prod_map id g <$> l)).*1.
Proof.
  induction l as [|[k a] l IH]; [done|].
  rewrite fmap_cons. rewrite !filter_cons. cbn [snd prod_map].
  destruct (decide (P (g a))); [|done].
  rewrite !fmap_cons. by rewrite IH.
Qed.

Lemma children_shape (m m' : gmap string Object) obj :
  shape <$> m' = shape <$> m → children m' obj = children m obj.
Proof.
  intros H. unfold children.
  pose proof (filter_fst_prod_map shape (λ sh, sh.1.2 = Some obj)) as Hf.
  etrans; [exact (Hf (map_to_list m'))|].
  etrans; [|symmetry; exact (Hf (map_to_list m))].
  by rewrite <- !map_to_list_fmap, H.
Qed.

Lemma elem_of_children (m : gmap string Object) obj child :
  child ∈ children m obj ↔ ∃ c, m !! child = Some c ∧ parent c = Some obj.
Proof.
  unfold children. rewrite list_elem_of_fmap. split.
  - intros [[k c] [-> Hin]]. apply list_elem_of_filter in Hin as [Hp Hin].
    apply elem_of_map_to_list in Hin. eauto.
  - intros [c [Hc Hp]]. exists (child, c). split; [done|].
    apply list_elem_of_filter. split; [done|]. by apply elem_of_map_to_list.
Qed.

Lemma elem_of_context_selected_objects (m : gmap string Object) obj :
  obj ∈ context_selected_objects m ↔ ∃ o, m !! obj = Some o ∧ select_get o = true.
Proof.
  unfold context_selected_objects. rewrite list_elem_of_fmap. split.
  - intros [[k c] [-> Hin]]. apply list_elem_of_filter in Hin as [Hp Hin].
    apply elem_of_map_to_list in Hin. eauto.
  - intros [c [Hc Hp]]. exists (obj, c). split; [done|].
    apply list_elem_of_filter. split; [done|]. by apply elem_of_map_to_list.
Qed.

(** ** Rules for invariants *)

Section Rules.

Context {A B : Type} (I : State → Prop).

Lemma preserves_ret (a : A) : preserves I (ret a).
Proof. by intros s Hs. Qed.

Lemma preserves_raise e : preserves I (@raise A e).
Proof. by intros s Hs. Qed.

Lemma preserves_gets (f : State → A) : preserves I (gets f).
Proof. by intros s Hs. Qed.

Lemma preserves_modify f : (∀ s, I s → I (f s)) → preserves I (modify f).
Proof. intros Hf s Hs. by apply Hf. Qed.

Lemma preserves_bind (c : Py A) (k : A → Py B) :
  preserves I c → (∀ a, preserves I (k a)) → preserves I (bind c k).
Proof.
  intros Hc Hk s Hs. unfold bind. specialize (Hc s Hs).
  destruct (c s) as [[a|e] s1]; simpl in *; [by apply Hk | done].
Qed.

Lemma preserves_try_finally (c : Py A) (cleanup : Py unit) :
  preserves I c → preserves I cleanup → preserves I (try_finally c cleanup).
Proof.
  intros Hc Hf s Hs. unfold try_finally. specialize (Hc s Hs).
  destruct (c s) as [r s1]; simpl in *. specialize (Hf s1 Hc).
  by destruct (cleanup s1) as [[[]|e] s2].
Qed.

Lemma preserves_read_object obj : preserves I (read_object obj).
Proof. intros s Hs. unfold read_object. by destruct (objects s !! obj). Qed.

End Rules.

Lemma preserves_for_each {A} (I : State → Prop) (l : list A) (body : A → Py unit) :
  (∀ x, x ∈ l → preserves I (body x)) → preserves I (for_each l body).
Proof.
  induction l as [|x l IH]; intros Hbody; simpl.
  - apply preserves_ret.
  - apply preserves_bind.
    + apply Hbody. apply list_elem_of_here.
    + intros _. apply IH. intros y Hy. apply Hbody. by apply list_elem_of_further.
Qed.

(** A loop whose body always ends normally: it establishes [Q x] for
    every element, provided later iterations keep what earlier ones
    established. *)
Lemma returns_for_each {A} (I : State → Prop) (Q : A → State → Prop)
    (l : list A) (body : A → Py unit) :
  (∀ x s, x ∈ l → I s →
     ∃ s', body x s = (Return tt, s') ∧ I s' ∧ Q x s' ∧ ∀ y, Q y s → Q y s') →
  ∀ s, I s →
    ∃ s', for_each l body s = (Return tt, s') ∧ I s' ∧
          (∀ x, x ∈ l → Q x s') ∧ (∀ y, Q y s → Q y s').
Proof.
  induction l as [|x l IH]; intros Hbody s Hs; simpl.
  - exists s. split_and!; [done|done| |done]. intros x Hx. by apply elem_of_nil in Hx.
  - destruct (Hbody x s) as (s1 & Hrun & HI1 & HQ1 & Hkeep1);
      [apply list_elem_of_here | done |].
    destruct (IH (λ y s Hy, Hbody y s (list_elem_of_further _ _ _ Hy)) s1 HI1)
      as (s2 & Hrun2 & HI2 & HQ2 & Hkeep2).
    exists s2. unfold bind. rewrite Hrun. split_and!; [done|done| |].
    + intros y Hy. apply elem_of_cons in Hy as [->|Hy]; [by apply Hkeep2 | by apply HQ2].
    + intros y Hy. by apply Hkeep2, Hkeep1.
Qed.

Section Shape.

Context `{!Host} `{!HostFrame}.
Variable objs0 : gmap string Object.

Lemma same_shape_set_objects objs s :
  shape <$> objs = shape <$> objects s →
  same_shape objs0 s → same_shape objs0 (set_objects objs s).
Proof. unfold same_shape. simpl. congruence. Qed.

Lemma same_shape_host_effect c s :
  same_shape objs0 s → same_shape objs0 (host_effect c s).
Proof.
  intros Hs. destruct c; simpl; try done.
  - apply same_shape_set_objects; [|done]. by apply shape_fmap_fmap.
  - destruct (active s); [|done].
    apply same_shape_set_objects; [|done]. by apply shape_fmap_alter.
  - apply same_shape_set_objects; [|done]. apply transform_apply_shape.
  - apply same_shape_set_objects; [|done]. apply origin_set_shape.
Qed.

Lemma preserves_shape_host_call c : preserves (same_shape objs0) (host_call c).
Proof.
  intros s Hs. unfold host_call.
  destruct (unrecognized_keyword c); [done|].
  destruct (host_raises c s); [done|]. simpl.
  by apply same_shape_host_effect.
Qed.

Lemma preserves_shape_write_object obj f :
  (∀ o, shape (f o) = shape o) → preserves (same_shape objs0) (write_object obj f).
Proof.
  intros Hf. apply preserves_modify. intros s Hs.
  apply same_shape_set_objects; [|done]. apply shape_fmap_alter. auto.
Qed.

Lemma preserves_shape_set_active a : preserves (same_shape objs0) (modify (set_active a)).
Proof. by apply preserves_modify. Qed.

Lemma preserves_shape_set_cursor_location v :
  preserves (same_shape objs0) (modify (set_cursor_location v)).
Proof. by apply preserves_modify. Qed.

Lemma preserves_shape_data_transform obj m :
  preserves (same_shape objs0) (data_transform obj m).
Proof.
  apply preserves_bind; [apply preserves_read_object|]. intros o.
  destruct (type o); try apply preserves_raise;
    (apply preserves_shape_write_object; intros o'; apply shape_set_vertices;
     apply length_map).
Qed.

Lemma preserves_shape_set_origin_at_bottom obj :
  preserves (same_shape objs0) (set_origin_at_bottom obj).
Proof.
  apply preserves_bind; [apply preserves_read_object|]. intros o.
  apply preserves_bind.
  { case_decide; [apply preserves_shape_host_call | apply preserves_ret]. }
  intros _. apply preserves_bind; [apply preserves_shape_host_call|]. intros _.
  apply preserves_bind; [apply preserves_read_object|]. intros o1.
  apply preserves_bind; [apply preserves_shape_data_transform|]. intros _.
  apply preserves_ret.
Qed.

Lemma preserves_shape_process_obj scene obj :
  preserves (same_shape objs0) (process_obj scene obj).
Proof.
  apply preserves_bind; [apply preserves_read_object|]. intros o.
  case_decide; [apply preserves_ret|].
  apply preserves_bind; [apply preserves_gets|]. intros objs.
  destruct (find_custom_empty scene objs (children objs obj)) as [[ce|]|e];
    [|apply preserves_ret|apply preserves_raise].
  apply preserves_bind; [apply preserves_read_object|]. intros c.
  apply preserves_bind; [apply preserves_shape_set_cursor_location|]. intros _.
  apply preserves_bind; [apply preserves_shape_host_call|]. intros _.
  apply preserves_bind; [by apply preserves_shape_write_object|]. intros _.
  apply preserves_bind; [apply preserves_shape_set_active|]. intros _.
  apply preserves_shape_host_call.
Qed.

Lemma preserves_shape_origin_handling scene sel :
  preserves (same_shape objs0) (origin_handling scene sel).
Proof.
  unfold origin_handling. destruct (custom_origin scene).
  - apply preserves_bind; [|intros _];
      apply preserves_for_each; intros; apply preserves_shape_process_obj.
  - destruct (origin_at_bottom scene); apply preserves_for_each; intros obj _.
    + apply preserves_bind; [apply preserves_shape_set_origin_at_bottom|].
      intros _. apply preserves_ret.
    + apply preserves_bind; [apply preserves_read_object|]. intros o.
      apply preserves_bind; [apply preserves_shape_set_cursor_location|]. intros _.
      apply preserves_bind; [apply preserves_shape_host_call|]. intros _.
      apply preserves_bind; [by apply preserves_shape_write_object|]. intros _.
      apply preserves_bind; [apply preserves_shape_set_active|]. intros _.
      apply preserves_shape_host_call.
Qed.

Lemma preserves_shape_export_objects sel format directory um ut uc :
  preserves (same_shape objs0) (export_objects sel format directory um ut uc).
Proof.
  apply preserves_for_each. intros obj _.
  apply preserves_bind; [apply preserves_shape_set_active|]. intros _.
  apply preserves_bind; [apply preserves_shape_host_call|]. intros _.
  apply preserves_bind; [by apply preserves_shape_write_object|]. intros _.
  destruct format; apply preserves_shape_host_call.
Qed.

Lemma preserves_shape_export_process scene sel :
  preserves (same_shape objs0) (export_process scene sel).
Proof.
  unfold export_process.
  apply preserves_bind; [apply preserves_gets|]. intros dirs.
  apply preserves_bind.
  { case_decide; [apply preserves_ret | apply preserves_shape_host_call]. }
  intros _. destruct (batch_export scene); [apply preserves_shape_export_objects|].
  apply preserves_bind; [apply preserves_shape_host_call|]. intros _.
  apply preserves_bind.
  { apply preserves_for_each. intros obj _. by apply preserves_shape_write_object. }
  intros _. apply preserves_bind; [apply preserves_gets|]. intros a.
  apply preserves_bind.
  { case_decide; [apply preserves_ret|].
    destruct a; [apply preserves_ret | apply preserves_raise]. }
  intros base. destruct (export_types scene); apply preserves_shape_host_call.
Qed.

Lemma preserves_shape_try_body scene sel :
  preserves (same_shape objs0) (try_body scene sel).
Proof.
  apply preserves_bind; [apply preserves_shape_origin_handling|]. intros _.
  apply preserves_bind; [|intros _; apply preserves_shape_export_process].
  apply preserves_for_each. intros obj _. by apply preserves_shape_write_object.
Qed.

End Shape.

(** ** The snapshot *)

Section SnapshotFacts.

Context `{!Host}.
Variable objs0 : gmap string Object.

Lemma snapshot_le_refl snap : snapshot_le snap snap.
Proof. by unfold snapshot_le. Qed.

Lemma snapshot_le_trans a b c : snapshot_le a b → snapshot_le b c → snapshot_le a c.
Proof.
  intros (?&?&?) (?&?&?). unfold snapshot_le. split_and!; by etrans.
Qed.

Lemma insert_subseteq_same {V} (m : gmap string V) k v :
  (∀ v', m !! k = Some v' → v' = v) → m ⊆ <[k:=v]> m.
Proof.
  intros Hsame. apply map_subseteq_spec. intros i x Hi.
  destruct (decide (k = i)) as [->|Hne].
  - rewrite lookup_insert_eq. f_equal. symmetry. by apply Hsame.
  - by rewrite lookup_insert_ne.
Qed.

Lemma store_empty_spec snap child :
  snapshot_sound objs0 snap →
  snapshot_sound objs0 (store_empty objs0 snap child) ∧
  snapshot_le snap (store_empty objs0 snap child) ∧
  (∀ c, objs0 !! child = Some c → type c = EMPTY →
     original_empty_transforms (store_empty objs0 snap child) !! child
       = Some (matrix_world c)).
Proof.
  intros (Hm & Hv & He). unfold store_empty.
  destruct (objs0 !! child) as [c|] eqn:Hc; [|by split_and!; [|apply snapshot_le_refl|]].
  case_decide as Hty; [|split_and!; [done|apply snapshot_le_refl|congruence]].
  split_and!.
  - split_and!; simpl; [done|done|]. intros k m Hk.
    destruct (decide (child = k)) as [->|Hne].
    + rewrite lookup_insert_eq in Hk. simplify_eq. eauto.
    + rewrite lookup_insert_ne in Hk by done. eauto.
  - split_and!; simpl; [done|done|]. apply insert_subseteq_same.
    intros v' Hv'. destruct (He _ _ Hv') as (o & Ho & _ & ->). congruence.
  - intros c' Hc' _. simpl. rewrite lookup_insert_eq. congruence.
Qed.

Lemma store_empties_spec cs snap :
  snapshot_sound objs0 snap →
  snapshot_sound objs0 (foldl (store_empty objs0) snap cs) ∧
  snapshot_le snap (foldl (store_empty objs0) snap cs) ∧
  (∀ child c, child ∈ cs → objs0 !! child = Some c → type c = EMPTY →
     original_empty_transforms (foldl (store_empty objs0) snap cs) !! child
       = Some (matrix_world c)).
Proof.
  revert snap. induction cs as [|x cs IH]; intros snap Hsound; simpl.
  - split_and!; [done|apply snapshot_le_refl|]. intros ?? Hin. by apply elem_of_nil in Hin.
  - destruct (store_empty_spec snap x Hsound) as (Hs1 & Hle1 & Hx).
    destruct (IH _ Hs1) as (Hs2 & Hle2 & Hcs).
    split_and!; [done|by eapply snapshot_le_trans|].
    intros child c Hin Hc Hty. apply elem_of_cons in Hin as [->|Hin]; [|by eauto].
    destruct Hle2 as (_ & _ & Hsub).
    eapply lookup_weaken; [|exact Hsub]. by apply Hx.
Qed.

Lemma store_object_spec snap obj :
  snapshot_sound objs0 snap →
  snapshot_sound objs0 (store_object objs0 snap obj) ∧
  snapshot_le snap (store_object objs0 snap obj) ∧
  (∀ o, objs0 !! obj = Some o → type o = MESH →
     original_matrices (store_object objs0 snap obj) !! obj = Some (matrix_world o) ∧
     original_vertices (store_object objs0 snap obj) !! obj = Some (vertices o)) ∧
  (∀ child c, is_Some (objs0 !! obj) → child ∈ children objs0 obj →
     objs0 !! child = Some c → type c = EMPTY →
     original_empty_transforms (store_object objs0 snap obj) !! child
       = Some (matrix_world c)).
Proof.
  intros Hsound. unfold store_object.
  destruct (objs0 !! obj) as [o|] eqn:Ho.
  2:{ split_and!; [done|apply snapshot_le_refl|done|]. by intros ?? []. }
  set (snap1 := if decide (type o = MESH) then _ else snap).
  assert (snapshot_sound objs0 snap1 ∧ snapshot_le snap snap1 ∧
          (type o = MESH →
             original_matrices snap1 !! obj = Some (matrix_world o) ∧
             original_vertices snap1 !! obj = Some (vertices o)))
    as (Hs1 & Hle1 & Hobj).
  { subst snap1. destruct Hsound as (Hm & Hv & He).
    case_decide as Hty; [|split_and!; [done|apply snapshot_le_refl|done]].
    split_and!.
    - split_and!; simpl; [| |done]; intros k m Hk;
        (destruct (decide (obj = k)) as [->|Hne];
         [rewrite lookup_insert_eq in Hk; simplify_eq; eauto
         |rewrite lookup_insert_ne in Hk by done; eauto]).
    - split_and!; simpl; [| |done]; apply insert_subseteq_same; intros v' Hv'.
      + destruct (Hm _ _ Hv') as (o' & Ho' & _ & ->). congruence.
      + destruct (Hv _ _ Hv') as (o' & Ho' & _ & ->). congruence.
    - intros _. simpl. by rewrite !lookup_insert_eq. }
  destruct (store_empties_spec (children objs0 obj) snap1 Hs1) as (Hs2 & Hle2 & Hcs).
  split_and!; [done|by eapply snapshot_le_trans| |].
  - intros o' Ho' Hty. simplify_eq. destruct (Hobj Hty) as [Hom Hov].
    destruct Hle2 as (Hsub1 & Hsub2 & _).
    split; (eapply lookup_weaken; [eassumption|done]).
  - intros child c _ Hin Hc Hty. by eapply Hcs.
Qed.

Lemma store_objects_spec sel snap :
  snapshot_sound objs0 snap →
  snapshot_sound objs0 (foldl (store_object objs0) snap sel) ∧
  snapshot_le snap (foldl (store_object objs0) snap sel) ∧
  (∀ obj o, obj ∈ sel → objs0 !! obj = Some o → type o = MESH →
     original_matrices (foldl (store_object objs0) snap sel) !! obj
       = Some (matrix_world o) ∧
     original_vertices (foldl (store_object objs0) snap sel) !! obj
       = Some (vertices o)) ∧
  (∀ obj child c, obj ∈ sel → is_Some (objs0 !! obj) → child ∈ children objs0 obj →
     objs0 !! child = Some c → type c = EMPTY →
     original_empty_transforms (foldl (store_object objs0) snap sel) !! child
       = Some (matrix_world c)).
Proof.
  revert snap. induction sel as [|x sel IH]; intros snap Hsound; simpl.
  - split_and!; [done|apply snapshot_le_refl| |].
    + intros ?? Hin. by apply elem_of_nil in Hin.
    + intros ??? Hin. by apply elem_of_nil in Hin.
  - destruct (store_object_spec snap x Hsound) as (Hs1 & Hle1 & Hx & Hxc).
    destruct (IH _ Hs1) as (Hs2 & Hle2 & Hsel & Hselc).
    destruct Hle2 as (Hsub1 & Hsub2 & Hsub3).
    split_and!; [done|by eapply snapshot_le_trans| |].
    + intros obj o Hin Ho Hty. apply elem_of_cons in Hin as [->|Hin]; [|by eauto].
      destruct (Hx o Ho Hty) as [Hom Hov].
      split; (eapply lookup_weaken; [eassumption|done]).
    + intros obj child c Hin Hobj Hch Hc Hty.
      apply elem_of_cons in Hin as [->|Hin]; [|by eauto].
      eapply lookup_weaken; [|exact Hsub3]. by eapply Hxc.
Qed.

Lemma store_original_state_sound sel :
  snapshot_sound objs0 (store_original_state objs0 sel).
Proof.
  apply store_objects_spec. split_and!; intros k m Hk; simpl in Hk;
    by rewrite lookup_empty in Hk.
Qed.

(** Every selected mesh and every child empty of a selected object is in
    the snapshot, with its values in [objs0]. *)
Lemma snapshot_covers_selection sel :
  let snap := store_original_state objs0 sel in
  (∀ obj o, obj ∈ sel → objs0 !! obj = Some o → type o = MESH →
     original_matrices snap !! obj = Some (matrix_world o) ∧
     original_vertices snap !! obj = Some (vertices o)) ∧
  (∀ obj child c, obj ∈ sel → is_Some (objs0 !! obj) → child ∈ children objs0 obj →
     objs0 !! child = Some c → type c = EMPTY →
     original_empty_transforms snap !! child = Some (matrix_world c)).
Proof.
  intros snap.
  destruct (store_objects_spec sel (mkSnapshot ∅ ∅ ∅)) as (_ & _ & Hmesh & Hempty).
  - split_and!; intros k m Hk; simpl in Hk; by rewrite lookup_empty in Hk.
  - by split.
Qed.

End SnapshotFacts.

(** ** The restore phase *)

Lemma assign_vertices_same_length current original :
  length current = length original →
  assign_vertices current original = (original, true).
Proof.
  revert original. induction current as [|v current IH]; intros [|co original] Hlen;
    simplify_eq/=; [done|]. by rewrite IH.
Qed.

Lemma assign_vertices_length current original :
  length (assign_vertices current original).1 = length current.
Proof.
  revert original. induction current as [|v current IH]; intros [|co original];
    simpl; try done.
  specialize (IH original). destruct (assign_vertices current original). simpl in *.
  by rewrite IH.
Qed.

Section Restore.

Context `{!Host}.
Variable objs0 : gmap string Object.

Lemma resets_refl s : resets objs0 s s.
Proof. intros k. by left. Qed.

Lemma resets_trans s1 s2 s3 :
  resets objs0 s1 s2 → resets objs0 s2 s3 → resets objs0 s1 s3.
Proof.
  intros H12 H23 k. destruct (H12 k) as [E12|(o&o'&o0&Ho&Ho'&Ho0&Hv&Hm)].
  - rewrite <- E12. apply H23.
  - destruct (H23 k) as [E23|(p&p'&p0&Hp&Hp'&Hp0&Hv'&Hm')].
    + right. exists o, o', o0. rewrite E23. by split_and!.
    + simplify_eq. right. exists o, p', o0.
      split_and!; [done|done|done| |]; intuition congruence.
Qed.

Lemma resets_write s obj f o0 :
  objs0 !! obj = Some o0 →
  (∀ o, vertices (f o) = vertices o ∨ vertices (f o) = vertices o0) →
  (∀ o, matrix_world (f o) = matrix_world o ∨ matrix_world (f o) = matrix_world o0) →
  resets objs0 s (set_objects (alter f obj (objects s)) s).
Proof.
  intros Ho0 Hv Hm k. simpl. destruct (decide (obj = k)) as [->|Hne].
  - rewrite lookup_alter_eq. destruct (objects s !! k) as [o|] eqn:Ho; [|by left].
    right. exists o, (f o), o0. by split_and!.
  - left. by rewrite lookup_alter_ne.
Qed.

Lemma resets_mesh_restored s s' obj :
  resets objs0 s s' → mesh_restored objs0 obj s → mesh_restored objs0 obj s'.
Proof.
  intros Hr Hobj o0 Ho0 Hty. destruct (Hobj o0 Ho0 Hty) as (o & Ho & Hv & Hm).
  destruct (Hr obj) as [E|(p&p'&p0&Hp&Hp'&Hp0&Hv'&Hm')].
  - exists o. by rewrite E.
  - simplify_eq. exists p'. split_and!; [done| |]; intuition congruence.
Qed.

Lemma resets_empty_restored s s' child :
  resets objs0 s s' → empty_restored objs0 child s → empty_restored objs0 child s'.
Proof.
  intros Hr Hobj c0 Hc0 Hty. destruct (Hobj c0 Hc0 Hty) as (c & Hc & Hm).
  destruct (Hr child) as [E|(p&p'&p0&Hp&Hp'&Hp0&Hv'&Hm')].
  - exists c. by rewrite E.
  - simplify_eq. exists p'. split; [done|]. intuition congruence.
Qed.

Lemma same_shape_write s obj f :
  (∀ o, objects s !! obj = Some o → shape (f o) = shape o) →
  same_shape objs0 s → same_shape objs0 (set_objects (alter f obj (objects s)) s).
Proof.
  intros Hf Hs. unfold same_shape in *. simpl. by rewrite shape_fmap_alter.
Qed.

(** One iteration of the first loop of the [finally] block. *)
Lemma restore_object_spec snap obj s :
  snapshot_sound objs0 snap → same_shape objs0 s → is_Some (objs0 !! obj) →
  ∃ s', restore_object snap obj s = (Return tt, s') ∧
        same_shape objs0 s' ∧ resets objs0 s s' ∧
        (∀ o0, objs0 !! obj = Some o0 →
           original_vertices snap !! obj = Some (vertices o0) →
           original_matrices snap !! obj = Some (matrix_world o0) →
           mesh_restored objs0 obj s').
Proof.
  intros (Hm & Hv & _) Hshape [o0 Ho0].
  destruct (shape_lookup_Some _ _ _ _ Hshape Ho0) as (o & Ho & Hsh).
  pose proof (shape_type _ _ Hsh) as Hty.
  pose proof (shape_length _ _ Hsh) as Hlen.
  unfold restore_object. unfold bind at 1. unfold read_object. rewrite Ho.
  set (restore_vertices := if decide (type o = MESH) then _ else _).
  assert (∃ s1, restore_vertices s = (Return tt, s1) ∧ same_shape objs0 s1 ∧
                resets objs0 s s1 ∧
                (original_vertices snap !! obj = Some (vertices o0) →
                 type o0 = MESH →
                 ∃ o1, objects s1 !! obj = Some o1 ∧ vertices o1 = vertices o0))
    as (s1 & Hrun1 & Hshape1 & Hres1 & Hdone1).
  { subst restore_vertices. case_decide as Hmesh.
    2:{ exists s. split_and!; [done|done|apply resets_refl|]. congruence. }
    destruct (original_vertices snap !! obj) as [original|] eqn:Hov.
    2:{ exists s. split_and!; [done|done|apply resets_refl|done]. }
    destruct (Hv _ _ Hov) as (o0' & Ho0' & _ & ->). simplify_eq.
    rewrite assign_vertices_same_length by done.
    eexists. split_and!; [done| | |].
    - apply same_shape_write; [|done]. intros o' Ho'. simplify_eq.
      by apply shape_set_vertices.
    - eapply resets_write; [done| |]; intros; simpl; auto.
    - intros _ _. simpl. rewrite lookup_alter_eq, Ho. simpl. eauto. }
  unfold bind. rewrite Hrun1.
  destruct (shape_lookup_Some _ _ _ _ Hshape1 Ho0) as (o1 & Ho1 & Hsh1).
  destruct (original_matrices snap !! obj) as [m|] eqn:Hom.
  - destruct (Hm _ _ Hom) as (o0' & Ho0' & _ & ->). simplify_eq.
    eexists. split_and!; [done| | |].
    + by apply same_shape_write.
    + eapply resets_trans; [exact Hres1|].
      eapply resets_write; [done| |]; intros; simpl; auto.
    + intros o0' Ho0' Hov _ p0 Hp0 Hmesh. simplify_eq.
      destruct (Hdone1 Hov Hmesh) as (o1' & Ho1' & Hverts). simplify_eq.
      simpl. rewrite lookup_alter_eq, Ho1. simpl. eauto.
  - exists s1. split_and!; [done|done|done|]. intros o0' _ _ Hom'. congruence.
Qed.

(** One iteration of the second loop of the [finally] block. *)
Lemma restore_empty_spec snap item s :
  snapshot_sound objs0 snap → same_shape objs0 s →
  original_empty_transforms snap !! item.1 = Some item.2 →
  ∃ s', restore_empty item s = (Return tt, s') ∧
        same_shape objs0 s' ∧ resets objs0 s s' ∧
        empty_restored objs0 item.1 s'.
Proof.
  intros (_ & _ & He) Hshape Hitem.
  destruct (He _ _ Hitem) as (c0 & Hc0 & Hty & Hmat).
  destruct (shape_lookup_Some _ _ _ _ Hshape Hc0) as (c & Hc & Hsh).
  unfold restore_empty, bind, gets. rewrite Hc.
  eexists. split_and!; [done| | |].
  - by apply same_shape_write.
  - eapply resets_write; [done| |]; intros; simpl; auto.
  - intros c0' Hc0' _. simplify_eq. simpl. rewrite lookup_alter_eq, Hc. simpl.
    eexists. split; [done|]. simpl. congruence.
Qed.

End Restore.

Section RestorePhase.

Context `{!Host}.
Variable objs0 : gmap string Object.

Lemma store_empties_keeps_meshes cs snap :
  original_matrices (foldl (store_empty objs0) snap cs) = original_matrices snap ∧
  original_vertices (foldl (store_empty objs0) snap cs) = original_vertices snap.
Proof.
  revert snap. induction cs as [|c cs IH]; intros snap; simpl; [done|].
  destruct (IH (store_empty objs0 snap c)) as [-> ->]. unfold store_empty.
  destruct (objs0 !! c); [|done]. by case_decide.
Qed.

Lemma store_objects_keys sel snap k :
  is_Some (original_vertices (foldl (store_object objs0) snap sel) !! k) ∨
  is_Some (original_matrices (foldl (store_object objs0) snap sel) !! k) →
  k ∈ sel ∨ is_Some (original_vertices snap !! k) ∨ is_Some (original_matrices snap !! k).
Proof.
  revert snap. induction sel as [|x sel IH]; intros snap; simpl; [tauto|].
  intros Hk. destruct (IH _ Hk) as [Hin|Hx]; [left; by apply list_elem_of_further|].
  unfold store_object in Hx. destruct (objs0 !! x) as [o|]; [|tauto].
  destruct (store_empties_keeps_meshes (children objs0 x)
    (if decide (type o = MESH)
     then mkSnapshot (<[x:=matrix_world o]> (original_matrices snap))
            (<[x:=vertices o]> (original_vertices snap))
            (original_empty_transforms snap)
     else snap)) as [Em Ev].
  rewrite Em, Ev in Hx. case_decide; [|tauto]. simpl in Hx.
  destruct (decide (x = k)) as [->|Hne]; [left; apply list_elem_of_here|].
  rewrite !lookup_insert_ne in Hx by done. tauto.
Qed.

Lemma mesh_restored_objects obj s s' :
  objects s' = objects s → mesh_restored objs0 obj s → mesh_restored objs0 obj s'.
Proof. unfold mesh_restored. by intros ->. Qed.

Lemma empty_restored_objects child s s' :
  objects s' = objects s → empty_restored objs0 child s → empty_restored objs0 child s'.
Proof. unfold empty_restored. by intros ->. Qed.

Lemma host_call_objects_kept c s :
  (∀ st, objects (host_effect c st) = objects st) →
  objects (host_call c s).2 = objects s.
Proof.
  intros Hc. unfold host_call. destruct (unrecognized_keyword c); [done|].
  destruct (host_raises c s); [done|]. simpl. by rewrite Hc.
Qed.

Lemma host_call_last c s : last (calls (host_call c s).2) = Some c.
Proof.
  unfold host_call.
  assert (∀ st, calls (host_effect c st) = calls st) as Hcalls.
  { intros st. destruct c; simpl; try done. by destruct (active st). }
  destruct (unrecognized_keyword c); [apply last_snoc|].
  destruct (host_raises c s); simpl; [apply last_snoc|].
  rewrite Hcalls. apply last_snoc.
Qed.

Lemma host_call_calls c s : calls (host_call c s).2 = calls s ++ [c].
Proof.
  unfold host_call.
  assert (∀ st, calls (host_effect c st) = calls st) as Hcalls.
  { intros st. destruct c; simpl; try done. by destruct (active st). }
  destruct (unrecognized_keyword c); [done|].
  destruct (host_raises c s); simpl; [done|]. by rewrite Hcalls.
Qed.

Lemma preserves_calls_write_object cs obj f :
  preserves (λ st, calls st = cs) (write_object obj f).
Proof. by apply preserves_modify. Qed.

Lemma preserves_calls_restore_object cs snap obj :
  preserves (λ st, calls st = cs) (restore_object snap obj).
Proof.
  apply preserves_bind; [apply preserves_read_object|]. intros o.
  apply preserves_bind.
  - case_decide; [|apply preserves_ret].
    destruct (original_vertices snap !! obj) as [original|]; [|apply preserves_ret].
    destruct (assign_vertices (vertices o) original) as [vs ok].
    apply preserves_bind; [apply preserves_calls_write_object|]. intros _.
    destruct ok; [apply preserves_ret | apply preserves_raise].
  - intros _. destruct (original_matrices snap !! obj);
      [apply preserves_calls_write_object | apply preserves_ret].
Qed.

Lemma preserves_calls_restore_empty cs item :
  preserves (λ st, calls st = cs) (restore_empty item).
Proof.
  apply preserves_bind; [apply preserves_gets|]. intros objs.
  destruct (objs !! item.1); [apply preserves_calls_write_object | apply preserves_ret].
Qed.

(** The [finally] block, run on any state an export run can reach. *)
Lemma restore_original_state_spec sel s :
  let snap := store_original_state objs0 sel in
  let out := restore_original_state snap sel s in
  same_shape objs0 s → (∀ obj, obj ∈ sel → is_Some (objs0 !! obj)) →
  (∀ obj, obj ∈ sel → mesh_restored objs0 obj out.2) ∧
  (∀ child m, original_empty_transforms snap !! child = Some m →
     empty_restored objs0 child out.2) ∧
  calls out.2 = calls s ++ [view3d_snap_cursor_to_center] ∧
  (out.1 = Return tt ∨ out.1 = Raise (RuntimeError view3d_snap_cursor_to_center)) ∧
  (out.1 = Return tt → cursor_location out.2 = zero_vector) ∧
  (host_raises view3d_snap_cursor_to_center = (λ _, false) → out.1 = Return tt).
Proof.
  intros snap out Hshape Hsel.
  pose proof (store_original_state_sound objs0 sel) as Hsound. fold snap in Hsound.
  destruct (store_objects_spec objs0 sel (mkSnapshot ∅ ∅ ∅)) as (_ & _ & Hmesh & _).
  { split_and!; intros k m Hk; simpl in Hk; by rewrite lookup_empty in Hk. }
  fold (store_original_state objs0 sel) in Hmesh. fold snap in Hmesh.
  (* first loop *)
  destruct (returns_for_each (same_shape objs0) (mesh_restored objs0) sel
              (restore_object snap)) with (s := s)
    as (s1 & Hrun1 & Hshape1 & Hdone1 & _); [|done|].
  { intros x st Hx Hst.
    destruct (restore_object_spec objs0 snap x st Hsound Hst (Hsel x Hx))
      as (st' & Hrun & Hst' & Hres & Hdone).
    exists st'. split_and!; [done|done| |].
    - intros o0 Ho0 Hty. destruct (Hmesh x o0 Hx Ho0 Hty) as [Hom Hov].
      by apply (Hdone o0).
    - intros y. by apply resets_mesh_restored. }
  (* second loop *)
  destruct (returns_for_each
              (λ st, same_shape objs0 st ∧ ∀ obj, obj ∈ sel → mesh_restored objs0 obj st)
              (λ item, empty_restored objs0 item.1)
              (map_to_list (original_empty_transforms snap)) restore_empty)
    with (s := s1) as (s2 & Hrun2 & [Hshape2 Hkeep2] & Hdone2 & _); [|done|].
  { intros item st Hitem [Hst Hmeshes].
    apply elem_of_map_to_list' in Hitem.
    destruct (restore_empty_spec objs0 snap item st Hsound Hst Hitem)
      as (st' & Hrun & Hst' & Hres & Hdone).
    exists st'. split_and!; [done|done| |done|].
    - intros obj Hobj. eapply resets_mesh_restored; [done|]. by apply Hmeshes.
    - intros y. by apply resets_empty_restored. }
  (* the cursor *)
  subst out. unfold restore_original_state, bind. rewrite Hrun1, Hrun2.
  pose proof (host_call_objects_kept view3d_snap_cursor_to_center s2 (λ _, eq_refl))
    as Hobjs.
  pose proof (host_call_calls view3d_snap_cursor_to_center s2) as Hlast.
  assert (calls s2 = calls s) as Hcalls.
  { pose proof (preserves_for_each (λ st, calls st = calls s) sel (restore_object snap)
      (λ x _, preserves_calls_restore_object _ snap x) s eq_refl) as H1.
    rewrite Hrun1 in H1. simpl in H1.
    pose proof (preserves_for_each (λ st, calls st = calls s)
      (map_to_list (original_empty_transforms snap)) restore_empty
      (λ x _, preserves_calls_restore_empty _ x) s1 H1) as H2.
    by rewrite Hrun2 in H2. }
  rewrite Hcalls in Hlast.
  split_and!.
  - intros obj Hobj. eapply mesh_restored_objects; [done|]. by apply Hkeep2.
  - intros child m Hchild. eapply empty_restored_objects; [done|].
    apply (Hdone2 (child, m)). by apply elem_of_map_to_list.
  - done.
  - unfold host_call. simpl.
    destruct (host_raises view3d_snap_cursor_to_center s2); simpl; auto.
  - unfold host_call. simpl.
    destruct (host_raises view3d_snap_cursor_to_center s2); simpl; [done|auto].
  - intros Hok. unfold host_call. simpl. by rewrite Hok.
Qed.

End RestorePhase.

(** ** [execute] *)

Lemma try_finally_state {A} (c : Py A) (cleanup : Py unit) s :
  (try_finally c cleanup s).2 = (cleanup (c s).2).2.
Proof.
  unfold try_finally. destruct (c s) as [r s1]. simpl.
  by destruct (cleanup s1) as [[[]|e] s2].
Qed.

Lemma bind_ret_state {A B} (c : Py A) (b : B) s :
  (bind c (λ _, ret b) s).2 = (c s).2.
Proof. unfold bind. by destruct (c s) as [[a|e] s1]. Qed.

Lemma bind_ret_result {A B} (c : Py A) (b : B) s :
  (bind c (λ _, ret b) s).1 = Return b ∨ ∃ e, (bind c (λ _, ret b) s).1 = Raise e.
Proof. unfold bind. destruct (c s) as [[a|e] s1]; simpl; eauto. Qed.

Lemma elem_of_filter_selection (objs : gmap string Object) obj :
  obj ∈ filter_selection objs ↔
  ∃ o, objs !! obj = Some o ∧ select_get o = true ∧ type o ≠ EMPTY.
Proof.
  unfold filter_selection. rewrite list_elem_of_filter, elem_of_context_selected_objects.
  split.
  - intros [Hty (o & Ho & Hsel)]. exists o. rewrite Ho in Hty. simpl in Hty.
    split_and!; [done|done|congruence].
  - intros (o & Ho & Hsel & Hty). split; [|eauto]. rewrite Ho. simpl. congruence.
Qed.

(** The state in which the [try] block is entered, when the document
    could be saved and some object is left after filtering. *)
Lemma execute_reaches_try `{!Host} scene blend s0 :
  host_raises (wm_save_as_mainfile blend) s0 = false →
  filter_selection (objects s0) ≠ [] →
  execute scene blend s0 =
    bind (try_finally
            (try_body scene (filter_selection (objects s0)))
            (restore_original_state
               (store_original_state (objects s0) (filter_selection (objects s0)))
               (filter_selection (objects s0))))
         (λ _, ret FINISHED)
         (add_call (wm_save_as_mainfile blend) s0).
Proof.
  intros Hsave Hsel. unfold execute. unfold bind at 1. unfold host_call. simpl.
  rewrite Hsave. unfold bind at 1. unfold gets. simpl.
  by destruct (filter_selection (objects s0)).
Qed.

(** C1, for the runs that get past the save and the check of the
    selection: whatever happens in the [try] block, at the end of
    [execute] every mesh and every empty of the snapshot has the vertex
    positions and the world matrix stored for it, the last host call was
    the one that recentres the 3D cursor, and the cursor is at the world
    origin unless that call itself failed. *)
Theorem execute_restores_snapshot `{!Host} `{!HostFrame} scene blend s0 :
  host_raises (wm_save_as_mainfile blend) s0 = false →
  filter_selection (objects s0) ≠ [] →
  let snap := store_original_state (objects s0) (filter_selection (objects s0)) in
  let out := execute scene blend s0 in
  (∀ k vs, original_vertices snap !! k = Some vs →
     ∃ o, objects out.2 !! k = Some o ∧ vertices o = vs) ∧
  (∀ k m, original_matrices snap !! k = Some m →
     ∃ o, objects out.2 !! k = Some o ∧ matrix_world o = m) ∧
  (∀ k m, original_empty_transforms snap !! k = Some m →
     ∃ o, objects out.2 !! k = Some o ∧ matrix_world o = m) ∧
  last (calls out.2) = Some view3d_snap_cursor_to_center ∧
  (host_raises view3d_snap_cursor_to_center = (λ _, false) →
     cursor_location out.2 = zero_vector) ∧
  (out.1 = Return FINISHED ∨ ∃ e, out.1 = Raise e).
Proof.
  intros Hsave Hsel snap out. subst out.
  rewrite (execute_reaches_try scene blend s0 Hsave Hsel).
  set (sel := filter_selection (objects s0)) in *.
  set (s1 := add_call (wm_save_as_mainfile blend) s0).
  set (s2 := (try_body scene sel s1).2).
  assert (same_shape (objects s0) s2) as Hshape.
  { apply preserves_shape_try_body. done. }
  assert (∀ obj, obj ∈ sel → is_Some (objects s0 !! obj)) as Hin.
  { intros obj Hobj. apply elem_of_filter_selection in Hobj as (o & -> & _). eauto. }
  destruct (restore_original_state_spec (objects s0) sel s2 Hshape Hin)
    as (Hmeshes & Hempties & Hlast & Hres & Hcursor & Hok).
  fold snap in Hmeshes, Hempties, Hlast, Hres, Hcursor, Hok.
  apply (f_equal last) in Hlast. rewrite last_snoc in Hlast.
  pose proof (store_original_state_sound (objects s0) sel) as (Hm & Hv & He).
  fold snap in Hm, Hv, He.
  assert (∀ k, is_Some (original_vertices snap !! k) ∨
               is_Some (original_matrices snap !! k) → k ∈ sel) as Hkeys.
  { intros k Hk. apply store_objects_keys in Hk as [Hk|[Hk|Hk]]; [done| |];
      simpl in Hk; rewrite lookup_empty in Hk; by destruct Hk. }
  rewrite bind_ret_state, try_finally_state. fold s2.
  split_and!.
  - intros k vs Hk. destruct (Hv _ _ Hk) as (o0 & Ho0 & Hty & ->).
    destruct (Hmeshes k (Hkeys k (or_introl (mk_is_Some _ _ Hk))) o0 Ho0 Hty)
      as (o & Ho & Hverts & _). eauto.
  - intros k m Hk. destruct (Hm _ _ Hk) as (o0 & Ho0 & Hty & ->).
    destruct (Hmeshes k (Hkeys k (or_intror (mk_is_Some _ _ Hk))) o0 Ho0 Hty)
      as (o & Ho & _ & Hmat). eauto.
  - intros k m Hk. destruct (He _ _ Hk) as (c0 & Hc0 & Hty & ->).
    destruct (Hempties k _ Hk c0 Hc0 Hty) as (c & Hc & Hmat). eauto.
  - done.
  - intros Hnofail. apply Hcursor. by apply Hok.
  - apply bind_ret_result.
Qed.

(** C3: when nothing is left of the selection once the empties are
    filtered out, [execute] reports "No valid mesh objects to export." and
    returns CANCELLED; no object, the cursor, the active object, the
    directories and the exported files are untouched, and the only host
    call is the initial save of the document. *)
Theorem execute_no_valid_objects `{!Host} scene blend s0 :
  host_raises (wm_save_as_mainfile blend) s0 = false →
  filter_selection (objects s0) = [] →
  let out := execute scene blend s0 in
  out.1 = Return CANCELLED ∧
  reports out.2 = reports s0 ++ [("ERROR", "No valid mesh objects to export.")] ∧
  objects out.2 = objects s0 ∧
  active out.2 = active s0 ∧
  cursor_location out.2 = cursor_location s0 ∧
  directories out.2 = directories s0 ∧
  exported out.2 = exported s0 ∧
  calls out.2 = calls s0 ++ [wm_save_as_mainfile blend].
Proof.
  intros Hsave Hsel out.
  assert (out = (Return CANCELLED,
                 add_report ("ERROR", "No valid mesh objects to export.")
                   (add_call (wm_save_as_mainfile blend) s0))) as ->.
  { subst out. unfold execute. unfold bind at 1. unfold host_call. simpl.
    rewrite Hsave. unfold bind at 1. unfold gets. simpl. by rewrite Hsel. }
  simpl. by split_and!.
Qed.

(** ** The move to the world origin *)

Lemma move_objects_to_zero_spec `{!Host} sel s :
  ∃ s', move_objects_to_zero sel s = (Return tt, s') ∧
        (∀ obj o, obj ∈ sel → objects s' !! obj = Some o → location o = zero_vector) ∧
        (∀ obj, is_Some (objects s' !! obj) ↔ is_Some (objects s !! obj)).
Proof.
  unfold move_objects_to_zero.
  destruct (returns_for_each (λ st, ∀ obj, is_Some (objects st !! obj) ↔ is_Some (objects s !! obj))
              (λ obj st, ∀ o, objects st !! obj = Some o → location o = zero_vector)
              sel (λ obj, write_object obj (set_location zero_vector)))
    with (s := s) as (s' & Hrun & Hdom & Hdone & _); [|done|].
  - intros x st _ Hst. eexists. split_and!; [done| | |].
    + intros obj. simpl. rewrite <- Hst. rewrite lookup_alter.
      case_decide; [subst|done]. by rewrite !is_Some_alt; destruct (objects st !! obj).
    + intros o. simpl. rewrite lookup_alter_eq.
      destruct (objects st !! x); intros; simplify_eq/=; done.
    + intros y Hy o. simpl. rewrite lookup_alter. case_decide; [subst|by auto].
      destruct (objects st !! y); intros; simplify_eq/=; done.
  - exists s'. split_and!; [done| |done]. intros obj o Hobj. by apply Hdone.
Qed.

(** ** Rounding to a float *)

(** The single-precision and double-precision values of 0.1, a tie (to
    the even significand), and a number below the normal range. *)
Example round_values :
  round binary32 (1 # 10) = (13421773 # 134217728)%Q ∧
  round binary64 (1 # 10) = (3602879701896397 # 36028797018963968)%Q ∧
  round binary32 16777217 = 16777216%Q ∧
  round binary32 16777219 = 16777220%Q ∧
  round binary32 (- (1 # 3)) = (- (11184811 # 33554432))%Q ∧
  round binary32 (3 * 2 ^ (-150)) = (2 ^ (-148))%Q.
Proof. by vm_compute. Qed.

Lemma nearest_even_error x : (Qabs (inject_Z (nearest_even x) - x) <= 1 # 2)%Q.
Proof.
  unfold nearest_even. pose proof (Qfloor_le x) as Hlo. pose proof (Qlt_floor x) as Hhi.
  rewrite inject_Z_plus in Hhi. change (inject_Z 1) with 1%Q in Hhi.
  apply Qabs_Qle_condition.
  destruct (x - inject_Z (Qfloor x) ?= 1 # 2)%Q eqn:Hc.
  - apply Qeq_alt in Hc. destruct (Z.even (Qfloor x)).
    + split; lra.
    + rewrite inject_Z_plus. change (inject_Z 1) with 1%Q. split; lra.
  - apply Qlt_alt in Hc. split; lra.
  - apply Qgt_alt in Hc. rewrite inject_Z_plus. change (inject_Z 1) with 1%Q. split; lra.
Qed.

Lemma nearest_even_nonneg x : (0 <= x)%Q → (0 ≤ nearest_even x)%Z.
Proof.
  intros Hx. pose proof (Qfloor_resp_le _ _ Hx) as Hf. change (Qfloor 0) with 0%Z in Hf.
  unfold nearest_even. destruct (_ ?= _)%Q; [destruct (Z.even _)|..]; lia.
Qed.

Lemma pow2_pos (z : Z) : (0 < 2 ^ z)%Q.
Proof. by apply Qpower_0_lt. Qed.

Lemma pow2_plus (n m : Z) : (2 ^ (n + m) == 2 ^ n * 2 ^ m)%Q.
Proof. by apply Qpower_plus. Qed.

Lemma pow2_cancel (e : Z) : (2 ^ (- e) * 2 ^ e == 1)%Q.
Proof. rewrite <- pow2_plus. by replace (- e + e)%Z with 0%Z by lia. Qed.

Lemma inject_Z_pos (z : Z) : (0 < z)%Z → (0 < inject_Z z)%Q.
Proof. intros Hz. unfold Qlt. simpl. lia. Qed.

(** A positive rational is at least two to the difference of the binary
    logarithms of its numerator and denominator, less one. *)
Lemma log2_lower (a : Q) :
  (0 < Qnum a)%Z →
  (2 ^ (Z.log2 (Qnum a) - Z.log2 (Zpos (Qden a)) - 1) <= a)%Q.
Proof.
  intros Hn. destruct a as [n d]. cbn [Qnum Qden] in *.
  pose proof (Z.log2_spec n Hn) as [Hn1 _].
  pose proof (Z.log2_spec (Zpos d) (Pos2Z.is_pos d)) as [_ Hd2].
  pose proof (Z.log2_nonneg n) as Ha. pose proof (Z.log2_nonneg (Zpos d)) as Hb.
  set (α := Z.log2 n) in *. set (β := Z.log2 (Zpos d)) in *.
  replace (α - β - 1)%Z with (α + - (Z.succ β))%Z by lia.
  rewrite pow2_plus, Qpower_opp.
  rewrite <- (Zpower_Qpower 2 α), <- (Zpower_Qpower 2 (Z.succ β)) by lia.
  assert (0 < 2 ^ Z.succ β)%Z as Hpos by (apply Z.pow_pos_nonneg; lia).
  rewrite (Qmake_Qdiv n d).
  apply Qle_shift_div_l; [by apply inject_Z_pos|].
  unfold Qdiv. rewrite <- Qmult_assoc, (Qmult_comm (/ _)), Qmult_assoc.
  apply Qle_shift_div_r; [by apply inject_Z_pos|].
  rewrite <- !inject_Z_mult, <- Zle_Qle. nia.
Qed.

Lemma exponent_spec fmt (a : Q) :
  (0 < Qnum a)%Z →
  let e := exponent fmt a in
  (2 ^ (precision fmt - 1) * 2 ^ e <= a)%Q ∨ e = emin fmt.
Proof.
  intros Hn. unfold exponent.
  set (p := precision fmt).
  set (e0 := (Z.log2 (Qnum a) - Z.log2 (Zpos (Qden a)) - p)%Z).
  set (e1 := if Qle_bool (2 ^ p) (a * 2 ^ (- e0)) then (e0 + 1)%Z else e0).
  assert (2 ^ (p - 1) * 2 ^ e1 <= a)%Q as Hnormal.
  { subst e1. destruct (Qle_bool (2 ^ p) (a * 2 ^ (- e0))) eqn:Htest.
    - apply Qle_bool_iff in Htest.
      rewrite <- pow2_plus. replace (p - 1 + (e0 + 1))%Z with (p + e0)%Z by lia.
      rewrite pow2_plus.
      apply (Qmult_le_compat_r _ _ (2 ^ e0)) in Htest; [|apply Qlt_le_weak, pow2_pos].
      rewrite <- Qmult_assoc, pow2_cancel, Qmult_1_r in Htest. exact Htest.
    - rewrite <- pow2_plus.
      replace (p - 1 + e0)%Z
        with (Z.log2 (Qnum a) - Z.log2 (Zpos (Qden a)) - 1)%Z by (subst e0; lia).
      by apply log2_lower. }
  destruct (Z.max_spec e1 (emin fmt)) as [[_ ->]|[_ ->]]; [by right|by left].
Qed.

(** The float nearest to a positive rational: relative error at most
    the unit roundoff in the normal range, absolute error at most half
    the least positive float below it. *)
Lemma round_magnitude_error fmt (a : Q) :
  (0 < Qnum a)%Z →
  let e := exponent fmt a in
  let r := (inject_Z (nearest_even (a * 2 ^ (- e))) * 2 ^ e)%Q in
  (0 <= r)%Q ∧ (Qabs (r - a) <= unit_roundoff fmt * a + underflow_unit fmt)%Q.
Proof.
  intros Hn e r.
  assert (0 < a)%Q as Ha.
  { destruct a as [n d]. unfold Qlt. simpl in *. lia. }
  pose proof (pow2_pos e) as He. pose proof (pow2_pos (- e)) as He'.
  set (X := (a * 2 ^ (- e))%Q) in *.
  assert (0 <= X)%Q as HX.
  { subst X. apply Qmult_le_0_compat; by apply Qlt_le_weak. }
  split.
  { subst r. apply Qmult_le_0_compat; [|by apply Qlt_le_weak].
    pose proof (nearest_even_nonneg X HX) as Hm.
    by rewrite Zle_Qle in Hm. }
  assert (a == X * 2 ^ e)%Q as HaX.
  { subst X. by rewrite <- Qmult_assoc, pow2_cancel, Qmult_1_r. }
  pose proof (nearest_even_error X) as Hm.
  pose proof (exponent_spec fmt a Hn) as Hexp. fold e in Hexp.
  clearbody X.
  assert (Qabs (r - a) <= (1 # 2) * 2 ^ e)%Q as Herr.
  { assert (r - a == (inject_Z (nearest_even X) - X) * 2 ^ e)%Q as ->.
    { subst r. rewrite HaX at 1. ring. }
    rewrite Qabs_Qmult, (Qabs_pos (2 ^ e)) by (by apply Qlt_le_weak).
    apply Qmult_le_compat_r; [done|by apply Qlt_le_weak]. }
  assert (0 < unit_roundoff fmt)%Q as Hu by apply pow2_pos.
  assert (0 < underflow_unit fmt)%Q as Hη by apply pow2_pos.
  destruct Hexp as [Hnormal|Hsub].
  - assert (unit_roundoff fmt * (2 ^ (precision fmt - 1) * 2 ^ e) == (1 # 2) * 2 ^ e)%Q
      as Hhalf.
    { unfold unit_roundoff. rewrite Qmult_assoc, <- pow2_plus.
      by replace (- precision fmt + (precision fmt - 1))%Z with (-1)%Z by lia. }
    apply (Qmult_le_l _ _ _ Hu) in Hnormal. lra.
  - assert (underflow_unit fmt == (1 # 2) * 2 ^ e)%Q as Hhalf.
    { unfold underflow_unit. rewrite Hsub.
      replace (emin fmt - 1)%Z with (-1 + emin fmt)%Z by lia. by rewrite pow2_plus. }
    assert (0 <= unit_roundoff fmt * a)%Q
      by (apply Qmult_le_0_compat; by apply Qlt_le_weak).
    lra.
Qed.

Lemma Qred_abs_zero (q : Q) : (Qnum (Qred (Qabs q)) =? 0)%Z = true → q == 0.
Proof.
  intros Hz%Z.eqb_eq.
  assert (Qred (Qabs q) == 0)%Q as H0.
  { destruct (Qred (Qabs q)) as [n d]. simpl in Hz. subst n. reflexivity. }
  rewrite Qred_correct in H0.
  pose proof (Qabs_Qle_condition q 0) as [Hc _].
  destruct Hc as [H1 H2]; [by rewrite H0|]. lra.
Qed.

(** Rationals that are equal as numbers round to the same float. *)
Lemma round_Qeq fmt (q q' : Q) : q == q' → round fmt q = round fmt q'.
Proof.
  intros Heq. unfold round.
  assert (Qred (Qabs q) = Qred (Qabs q')) as -> by (apply Qred_complete; by rewrite Heq).
  assert (Qle_bool 0 q = Qle_bool 0 q') as ->; [|done].
  destruct (Qle_bool 0 q') eqn:H'.
  - apply Qle_bool_iff. apply Qle_bool_iff in H'. by rewrite Heq.
  - destruct (Qle_bool 0 q) eqn:H; [|done].
    apply Qle_bool_iff in H. rewrite Heq in H. apply Qle_bool_iff in H. congruence.
Qed.

Lemma round_0 fmt : round fmt 0 = 0%Q.
Proof. reflexivity. Qed.

Lemma Qred_abs_pos (q : Q) :
  (Qnum (Qred (Qabs q)) =? 0)%Z = false → (0 < Qnum (Qred (Qabs q)))%Z.
Proof.
  intros Hz%Z.eqb_neq.
  pose proof (Qabs_nonneg q) as Hq. rewrite <- (Qred_correct (Qabs q)) in Hq.
  destruct (Qred (Qabs q)) as [n d]. unfold Qle in Hq. simpl in *. lia.
Qed.

(** The error of a rounding. *)
Lemma round_error fmt (q : Q) :
  (Qabs (round fmt q - q) <= unit_roundoff fmt * Qabs q + underflow_unit fmt)%Q.
Proof.
  assert (0 < unit_roundoff fmt)%Q as Hu by apply pow2_pos.
  assert (0 < underflow_unit fmt)%Q as Hη by apply pow2_pos.
  unfold round. destruct (Qnum (Qred (Qabs q)) =? 0)%Z eqn:Hz.
  - apply Qred_abs_zero in Hz. rewrite Hz. change (Qabs (0 - 0)) with 0%Q.
    change (Qabs 0) with 0%Q. lra.
  - apply Qred_abs_pos in Hz.
    destruct (round_magnitude_error fmt _ Hz) as [_ Herr].
    set (a := Qred (Qabs q)) in *.
    set (r := (inject_Z (nearest_even (a * 2 ^ (- exponent fmt a))) *
               2 ^ exponent fmt a)%Q) in *.
    assert (a == Qabs q)%Q as Ha by apply Qred_correct.
    rewrite Qred_correct. rewrite Ha in Herr.
    destruct (Qle_bool 0 q) eqn:Hs.
    + apply Qle_bool_iff in Hs. rewrite (Qabs_pos q Hs) in Herr at 1. exact Herr.
    + assert (q <= 0)%Q as Hneg.
      { destruct (Qlt_le_dec 0 q) as [Hlt|Hle]; [|done].
        apply Qlt_le_weak, Qle_bool_iff in Hlt. congruence. }
      rewrite (Qabs_neg q Hneg) in Herr at 1.
      assert (- r - q == - (r - - q))%Q as -> by ring. by rewrite Qabs_opp.
Qed.

Lemma round_nonneg fmt (q : Q) : (0 <= q)%Q → (0 <= round fmt q)%Q.
Proof.
  intros Hq. unfold round. destruct (Qnum (Qred (Qabs q)) =? 0)%Z eqn:Hz; [done|].
  apply Qred_abs_pos in Hz. destruct (round_magnitude_error fmt _ Hz) as [Hr _].
  rewrite Qred_correct. apply Qle_bool_iff in Hq. by rewrite Hq.
Qed.

Lemma float32_Qeq (q q' : Q) : (q == q')%Q → float32 q = float32 q'.
Proof. apply round_Qeq. Qed.

Lemma py_add_Qeq (a a' b b' : Q) :
  (a == a')%Q → (b == b')%Q → py_add a b = py_add a' b'.
Proof. intros Ha Hb. apply round_Qeq. by rewrite Ha, Hb. Qed.

Lemma unit_roundoff_binary32 : (unit_roundoff binary32 == 1 # 16777216)%Q.
Proof. reflexivity. Qed.

Lemma unit_roundoff_binary64 : (unit_roundoff binary64 == 1 # 9007199254740992)%Q.
Proof. reflexivity. Qed.

Lemma underflow_unit_le : (underflow_unit binary64 <= (1 # 8) * underflow_unit binary32)%Q.
Proof. by vm_compute. Qed.

Lemma underflow_unit_tolerance : (4 * underflow_unit binary32 == 2 ^ (-148))%Q.
Proof. by vm_compute. Qed.

Lemma Qabs_ge (x : Q) : (x <= Qabs x ∧ - x <= Qabs x)%Q.
Proof.
  split; [apply Qle_Qabs|]. rewrite <- Qabs_opp. apply Qle_Qabs.
Qed.

(** The centre as Python and [mathutils] compute it is the midpoint up
    to three roundings. *)
Lemma centre_error (lo hi : Q) :
  (Qabs (float32 (py_div (py_add lo hi) 2) - (lo + hi) / 2)
   <= (1 # 8388608) * Qabs ((lo + hi) / 2) + 2 * underflow_unit binary32)%Q.
Proof.
  unfold float32, py_div, py_add.
  set (s := (lo + hi)%Q).
  set (y1 := round binary64 s).
  set (y2 := round binary64 (y1 / 2)).
  set (c := round binary32 y2).
  pose proof (round_error binary64 s) as H1. fold y1 in H1.
  pose proof (round_error binary64 (y1 / 2)) as H2. fold y2 in H2.
  pose proof (round_error binary32 y2) as H3. fold c in H3.
  rewrite unit_roundoff_binary64 in H1, H2. rewrite unit_roundoff_binary32 in H3.
  pose proof underflow_unit_le as He.
  assert (0 < underflow_unit binary64)%Q as He0 by apply pow2_pos.
  set (E32 := underflow_unit binary32) in *. set (E64 := underflow_unit binary64) in *.
  clearbody E32 E64 c y2 y1 s.
  assert (Qabs (s / 2) == (1 # 2) * Qabs s)%Q as Hhalf.
  { unfold Qdiv. rewrite Qabs_Qmult. change (Qabs (/ 2)) with (1 # 2)%Q. ring. }
  assert (Qabs (y1 / 2) == (1 # 2) * Qabs y1)%Q as Hhalf1.
  { unfold Qdiv. rewrite Qabs_Qmult. change (Qabs (/ 2)) with (1 # 2)%Q. ring. }
  rewrite Hhalf. rewrite Hhalf1 in H2.
  apply Qabs_Qle_condition in H1, H2, H3.
  unfold Qdiv in *. change (/ 2)%Q with (1 # 2)%Q in *.
  pose proof (Qabs_ge s) as [Hs1 Hs2].
  pose proof (Qabs_ge y1) as [Hy1 Hy1'].
  pose proof (Qabs_ge y2) as [Hy2 Hy2'].
  assert (Qabs y1 <= Qabs s + ((1 # 9007199254740992) * Qabs s + E64))%Q as HA1.
  { apply Qabs_Qle_condition. split; lra. }
  assert (Qabs y2 <= (1 # 2) * Qabs y1 + ((1 # 9007199254740992) * ((1 # 2) * Qabs y1) + E64))%Q
    as HA2.
  { apply Qabs_Qle_condition. split; lra. }
  pose proof (Qabs_nonneg s) as Hs0.
  apply Qabs_Qle_condition. split; lra.
Qed.

(** ** The bounding box *)

Lemma qmin_list_le_qmax_list a b l :
  (a <= b)%Q → (qmin_list a l <= qmax_list b l)%Q.
Proof.
  revert a b. induction l as [|y l IH]; intros a b Hab; simpl; [done|].
  apply IH. eapply Qle_trans; [apply Q.le_min_r | apply Q.le_max_r].
Qed.

Lemma bounds_ordered vs :
  (vx (bounds vs).1 <= vx (bounds vs).2)%Q ∧
  (vy (bounds vs).1 <= vy (bounds vs).2)%Q ∧
  (vz (bounds vs).1 <= vz (bounds vs).2)%Q.
Proof.
  destruct vs as [|v vs]; simpl.
  - split_and!; apply Qle_refl.
  - split_and!; apply qmin_list_le_qmax_list, Qle_refl.
Qed.

Lemma py_min_first_least x l :
  Forall (λ y, (x <= y)%Q) l → py_min (x :: l) = x.
Proof.
  unfold py_min. induction 1 as [|y l Hy _ IH]; simpl; [done|].
  destruct (Qlt_le_dec y x) as [Hlt|_]; [|done].
  exfalso. by apply Qlt_not_le in Hlt.
Qed.

Lemma py_min_corners lo hi :
  (vz lo <= vz hi)%Q → py_min (map (λ point, vindex point 2) (corners lo hi)) = vz lo.
Proof.
  intros Hle. unfold corners. cbn [map vindex vz]. apply py_min_first_least.
  repeat constructor; first [done | apply Qle_refl].
Qed.

Lemma qmin_list_least x l : least (x :: l) (qmin_list x l).
Proof.
  revert x. induction l as [|y l IH]; intros x; simpl.
  - split; [by apply Exists_cons_hd|]. repeat constructor. apply Qle_refl.
  - destruct (IH (Qmin x y)) as [Hex Hall]. split.
    + apply Exists_cons in Hex as [Hex|Hex]; [|by do 2 apply Exists_cons_tl].
      destruct (Q.min_spec x y) as [[_ Hm]|[_ Hm]].
      * apply Exists_cons_hd. by rewrite Hex.
      * apply Exists_cons_tl, Exists_cons_hd. by rewrite Hex.
    + apply Forall_cons in Hall as [Hm Hall].
      repeat apply Forall_cons_2; [| |done].
      * eapply Qle_trans; [exact Hm|apply Q.le_min_l].
      * eapply Qle_trans; [exact Hm|apply Q.le_min_r].
Qed.

Lemma qmax_list_greatest x l : greatest (x :: l) (qmax_list x l).
Proof.
  revert x. induction l as [|y l IH]; intros x; simpl.
  - split; [by apply Exists_cons_hd|]. repeat constructor. apply Qle_refl.
  - destruct (IH (Qmax x y)) as [Hex Hall]. split.
    + apply Exists_cons in Hex as [Hex|Hex]; [|by do 2 apply Exists_cons_tl].
      destruct (Q.max_spec x y) as [[_ Hm]|[_ Hm]].
      * apply Exists_cons_tl, Exists_cons_hd. by rewrite Hex.
      * apply Exists_cons_hd. by rewrite Hex.
    + apply Forall_cons in Hall as [Hm Hall].
      repeat apply Forall_cons_2; [| |done].
      * eapply Qle_trans; [apply Q.le_max_l|exact Hm].
      * eapply Qle_trans; [apply Q.le_max_r|exact Hm].
Qed.

Lemma Exists_Qeq_le (P : Q → Prop) (l : list Q) x :
  Exists (Qeq x) l → Forall P l → ∃ y, y ∈ l ∧ (x == y)%Q ∧ P y.
Proof.
  intros (y & Hy & Hxy)%Exists_exists Hall. rewrite Forall_forall in Hall. eauto.
Qed.

Lemma least_unique l a b : least l a → least l b → (a == b)%Q.
Proof.
  intros [Ha1 Ha2] [Hb1 Hb2].
  destruct (Exists_Qeq_le _ _ _ Ha1 Hb2) as (y & _ & Hy & Hby).
  destruct (Exists_Qeq_le _ _ _ Hb1 Ha2) as (z & _ & Hz & Haz).
  apply Qle_antisym; [by rewrite Hz|by rewrite Hy].
Qed.

Lemma greatest_unique l a b : greatest l a → greatest l b → (a == b)%Q.
Proof.
  intros [Ha1 Ha2] [Hb1 Hb2].
  destruct (Exists_Qeq_le _ _ _ Ha1 Hb2) as (y & _ & Hy & Hby).
  destruct (Exists_Qeq_le _ _ _ Hb1 Ha2) as (z & _ & Hz & Haz).
  apply Qle_antisym; [by rewrite Hy|by rewrite Hz].
Qed.

(** A coordinate between [lo] and [hi], moved by [- c] in single
    precision. *)
Lemma shifted_error (x lo hi c : Q) :
  (lo <= x)%Q → (x <= hi)%Q →
  (Qabs (float32 (x - c) - (x - c))
   <= (1 # 16777216) * Qmax (Qabs (lo - c)) (Qabs (hi - c)) + underflow_unit binary32)%Q.
Proof.
  intros Hlo Hhi. pose proof (round_error binary32 (x - c)) as Herr.
  rewrite unit_roundoff_binary32 in Herr. fold (float32 (x - c)) in Herr.
  pose proof (Q.le_max_l (Qabs (lo - c)) (Qabs (hi - c))) as Hl.
  pose proof (Q.le_max_r (Qabs (lo - c)) (Qabs (hi - c))) as Hh.
  pose proof (Qabs_ge (lo - c)) as [_ Hl'].
  pose proof (Qabs_ge (hi - c)) as [Hh' _].
  assert (Qabs (x - c) <= Qmax (Qabs (lo - c)) (Qabs (hi - c)))%Q as Hx.
  { apply Qabs_Qle_condition. split; lra. }
  lra.
Qed.

(** The centre of the box around coordinates moved by [- c]. *)
Lemma shifted_centre (xs : list Q) (lo hi c lo' hi' : Q) :
  least xs lo → greatest xs hi →
  least (map (λ x, float32 (x - c)) xs) lo' →
  greatest (map (λ x, float32 (x - c)) xs) hi' →
  (Qabs ((lo' + hi') / 2 - ((lo + hi) / 2 - c))
   <= (1 # 16777216) * Qmax (Qabs (lo - c)) (Qabs (hi - c)) + underflow_unit binary32)%Q.
Proof.
  intros [Hlo_in Hlo] [Hhi_in Hhi] [Hlo'_in Hlo'] [Hhi'_in Hhi'].
  rewrite Forall_forall in Hlo, Hhi. rewrite Forall_fmap, Forall_forall in Hlo', Hhi'.
  apply Exists_exists in Hlo_in as (xl & Hxl & Hlo_eq).
  apply Exists_exists in Hhi_in as (xh & Hxh & Hhi_eq).
  apply Exists_exists in Hlo'_in as (? & (xj & -> & Hxj)%list_elem_of_fmap & Hlo'_eq).
  apply Exists_exists in Hhi'_in as (? & (xk & -> & Hxk)%list_elem_of_fmap & Hhi'_eq).
  pose proof (Hlo' xl Hxl) as Hl1. pose proof (Hhi' xh Hxh) as Hh1.
  unfold compose in Hl1, Hh1. cbn beta in Hl1, Hh1.
  pose proof (shifted_error xl lo hi c (Hlo _ Hxl) (Hhi _ Hxl)) as El.
  pose proof (shifted_error xh lo hi c (Hlo _ Hxh) (Hhi _ Hxh)) as Eh.
  pose proof (shifted_error xj lo hi c (Hlo _ Hxj) (Hhi _ Hxj)) as Ej.
  pose proof (shifted_error xk lo hi c (Hlo _ Hxk) (Hhi _ Hxk)) as Ek.
  pose proof (Hlo _ Hxj) as Hj. pose proof (Hhi _ Hxk) as Hk.
  set (R := Qmax (Qabs (lo - c)) (Qabs (hi - c))) in *.
  set (E := underflow_unit binary32) in *. clearbody R E.
  apply Qabs_Qle_condition in El, Eh, Ej, Ek.
  unfold Qdiv. change (/ 2)%Q with (1 # 2)%Q.
  apply Qabs_Qle_condition. split; lra.
Qed.

(** The box centre after the move, against the local origin. *)
Lemma centre_after_move (xs : list Q) (lo hi lo' hi' : Q) :
  let c := float32 (py_div (py_add lo hi) 2) in
  least xs lo → greatest xs hi →
  least (map (λ x, float32 (x - c)) xs) lo' →
  greatest (map (λ x, float32 (x - c)) xs) hi' →
  (Qabs ((lo' + hi') / 2) <= centre_tolerance lo hi c)%Q.
Proof.
  intros c Hlo Hhi Hlo' Hhi'.
  pose proof (shifted_centre xs lo hi c lo' hi' Hlo Hhi Hlo' Hhi') as Hs.
  pose proof (centre_error lo hi) as Hc. fold c in Hc.
  unfold centre_tolerance. rewrite <- underflow_unit_tolerance.
  assert (0 < underflow_unit binary32)%Q as He by apply pow2_pos.
  set (R := Qmax (Qabs (lo - c)) (Qabs (hi - c))) in *.
  set (M := Qabs ((lo + hi) / 2)) in *.
  set (E := underflow_unit binary32) in *. clearbody R E M.
  apply Qabs_Qle_condition in Hs, Hc.
  unfold Qdiv in *. change (/ 2)%Q with (1 # 2)%Q in *.
  apply Qabs_Qle_condition. split; lra.
Qed.

(** The least coordinate is moved to exactly 0. *)
Lemma least_after_move (zs : list Q) (lo : Q) :
  least zs lo → Forall is_float32 zs →
  least (map (λ z, float32 (z - float32 lo)) zs) 0.
Proof.
  intros [Hin Hlo] Hfl.
  assert (float32 lo == lo)%Q as Hc.
  { destruct (Exists_Qeq_le _ _ _ Hin Hfl) as (z & _ & Hz & Hzf).
    unfold float32. rewrite (round_Qeq _ _ _ Hz). by rewrite Hz. }
  split.
  - apply Exists_exists in Hin as (z & Hz & Heq).
    apply Exists_exists. exists (float32 (z - float32 lo)).
    split; [apply list_elem_of_fmap; by exists z|].
    unfold float32 at 1. rewrite (round_Qeq _ _ 0); [done|]. rewrite Hc, Heq. ring.
  - apply Forall_fmap. eapply Forall_impl; [exact Hlo|]. intros z Hz. simpl.
    apply round_nonneg. rewrite Hc. lra.
Qed.

Lemma bottom_centroid_bounds o :
  bottom_centroid o =
    mkVector
      (float32 (py_div (py_add (vx (bounds (vertices o)).1) (vx (bounds (vertices o)).2)) 2))
      (float32 (py_div (py_add (vy (bounds (vertices o)).1) (vy (bounds (vertices o)).2)) 2))
      (float32 (vz (bounds (vertices o)).1)).
Proof.
  unfold bottom_centroid, bound_box.
  pose proof (bounds_ordered (vertices o)) as (_ & _ & Hz).
  destruct (bounds (vertices o)) as [lo hi]. cbn [fst snd] in *.
  by rewrite py_min_corners.
Qed.

(** The corners of the box are the least and the greatest coordinates of
    the vertices. *)
Lemma bounds_extremes vs :
  vs ≠ [] →
  least (map vx vs) (vx (bounds vs).1) ∧ greatest (map vx vs) (vx (bounds vs).2) ∧
  least (map vy vs) (vy (bounds vs).1) ∧ greatest (map vy vs) (vy (bounds vs).2) ∧
  least (map vz vs) (vz (bounds vs).1) ∧ greatest (map vz vs) (vz (bounds vs).2).
Proof.
  destruct vs as [|v vs]; [done|]. intros _. cbn [bounds fst snd vx vy vz map].
  split_and!; first [apply qmin_list_least | apply qmax_list_greatest].
Qed.

(** ** [Mesh.transform] with a translation *)

Lemma row_transform_x (d : Q) v :
  is_float32 (vx v) → row_transform (1, 0, 0, d)%Q v = float32 (vx v + d).
Proof.
  intros Hx. unfold is_float32 in Hx. unfold row_transform.
  rewrite (float32_Qeq (vx v * 1) (vx v)) by ring.
  rewrite (float32_Qeq (0 + float32 (vx v)) (vx v)) by (rewrite Hx; ring).
  rewrite (float32_Qeq (vy v * 0) 0) by ring. change (float32 0) with 0%Q.
  rewrite (float32_Qeq (float32 (vx v) + 0) (vx v)) by (rewrite Hx; ring).
  rewrite (float32_Qeq (vz v * 0) 0) by ring. change (float32 0) with 0%Q.
  rewrite (float32_Qeq (float32 (vx v) + 0) (vx v)) by (rewrite Hx; ring).
  apply float32_Qeq. by rewrite Hx.
Qed.

Lemma row_transform_y (d : Q) v :
  is_float32 (vy v) → row_transform (0, 1, 0, d)%Q v = float32 (vy v + d).
Proof.
  intros Hy. unfold is_float32 in Hy. unfold row_transform.
  rewrite (float32_Qeq (vx v * 0) 0) by ring. change (float32 0) with 0%Q.
  change (float32 (0 + 0)) with 0%Q.
  rewrite (float32_Qeq (vy v * 1) (vy v)) by ring.
  rewrite (float32_Qeq (0 + float32 (vy v)) (vy v)) by (rewrite Hy; ring).
  rewrite (float32_Qeq (vz v * 0) 0) by ring. change (float32 0) with 0%Q.
  rewrite (float32_Qeq (float32 (vy v) + 0) (vy v)) by (rewrite Hy; ring).
  apply float32_Qeq. by rewrite Hy.
Qed.

Lemma row_transform_z (d : Q) v :
  is_float32 (vz v) → row_transform (0, 0, 1, d)%Q v = float32 (vz v + d).
Proof.
  intros Hz. unfold is_float32 in Hz. unfold row_transform.
  rewrite (float32_Qeq (vx v * 0) 0) by ring. change (float32 0) with 0%Q.
  change (float32 (0 + 0)) with 0%Q.
  rewrite (float32_Qeq (vy v * 0) 0) by ring. change (float32 0) with 0%Q.
  change (float32 (0 + 0)) with 0%Q.
  rewrite (float32_Qeq (vz v * 1) (vz v)) by ring.
  rewrite (float32_Qeq (0 + float32 (vz v)) (vz v)) by (rewrite Hz; ring).
  apply float32_Qeq. by rewrite Hz.
Qed.

(** On floats, the host's evaluation of a translation is one rounded
    addition per coordinate. *)
Lemma transform_point_Translation t v :
  float_vector v →
  transform_point (Translation (vneg t)) v =
    mkVector (float32 (vx v - vx t)) (float32 (vy v - vy t)) (float32 (vz v - vz t)).
Proof.
  intros (Hx & Hy & Hz). unfold transform_point, Translation. cbn [row0 row1 row2 vneg vx vy vz].
  by rewrite row_transform_x, row_transform_y, row_transform_z.
Qed.

(** ** [set_origin_at_bottom] *)

Lemma host_call_ok `{!Host} c s :
  host_raises c s = false → unrecognized_keyword c = None →
  host_call c s = (Return tt, host_effect c (add_call c s)).
Proof. intros Hok Hkw. unfold host_call. by rewrite Hkw, Hok. Qed.

(** C5: for a mesh, once the host has applied the transforms (giving the
    object [o1]), [set_origin_at_bottom] returns the point [c] mapped
    through the world matrix, which it leaves alone.  [c] is the point
    (centre x, centre y, least z) of the box around the vertices,
    computed in floats: the centre is the rounded half of the rounded sum
    of the least and the greatest coordinate.  On a mesh whose
    coordinates are floats, every vertex is moved by [- c], one rounded
    subtraction per coordinate; afterwards the least z of the vertices is
    exactly 0, and the centre of the box in x and in y is 0 up to
    [centre_tolerance]. *)
Theorem set_origin_at_bottom_spec `{!Host} `{!HostFrame} obj s o :
  host_never_raises →
  objects s !! obj = Some o → type o = MESH →
  let pre := if decide (mode o ≠ OBJECT)
             then host_effect object_mode_set_OBJECT s else s in
  let objs1 := transform_apply (objects pre) in
  ∃ o1 o2 s' c,
    objs1 !! obj = Some o1 ∧
    set_origin_at_bottom obj s = (Return (matmul_vec (matrix_world o1) c), s') ∧
    objects s' !! obj = Some o2 ∧
    (∀ k, k ≠ obj → objects s' !! k = objs1 !! k) ∧
    matrix_world o2 = matrix_world o1 ∧
    (vertices o1 = [] → c = zero_vector) ∧
    (∀ lox hix loy hiy loz,
       least (map vx (vertices o1)) lox → greatest (map vx (vertices o1)) hix →
       least (map vy (vertices o1)) loy → greatest (map vy (vertices o1)) hiy →
       least (map vz (vertices o1)) loz →
       c = mkVector (float32 (py_div (py_add lox hix) 2))
                    (float32 (py_div (py_add loy hiy) 2))
                    (float32 loz)) ∧
    (Forall float_vector (vertices o1) →
       vertices o2 =
         map (λ v, mkVector (float32 (vx v - vx c)) (float32 (vy v - vy c))
                            (float32 (vz v - vz c))) (vertices o1) ∧
       (vertices o1 ≠ [] → least (map vz (vertices o2)) 0) ∧
       (∀ lo hi lo' hi',
          least (map vx (vertices o1)) lo → greatest (map vx (vertices o1)) hi →
          least (map vx (vertices o2)) lo' → greatest (map vx (vertices o2)) hi' →
          (Qabs ((lo' + hi') / 2) <= centre_tolerance lo hi (vx c))%Q) ∧
       (∀ lo hi lo' hi',
          least (map vy (vertices o1)) lo → greatest (map vy (vertices o1)) hi →
          least (map vy (vertices o2)) lo' → greatest (map vy (vertices o2)) hi' →
          (Qabs ((lo' + hi') / 2) <= centre_tolerance lo hi (vy c))%Q)).
Proof.
  intros Hnever Ho Hty pre objs1.
  set (s_pre := if decide (mode o ≠ OBJECT)
                then host_effect object_mode_set_OBJECT (add_call object_mode_set_OBJECT s)
                else s).
  assert (objects s_pre = objects pre) as Hpre.
  { subst s_pre pre. case_decide; [|done]. simpl. by destruct (active s). }
  assert ((if decide (mode o ≠ OBJECT) then host_call object_mode_set_OBJECT else ret tt) s
          = (Return tt, s_pre)) as Hmode.
  { subst s_pre. case_decide; [|done]. by apply host_call_ok. }
  assert (∃ o', objects pre !! obj = Some o' ∧ type o' = MESH) as (o' & Ho' & Hty').
  { subst pre. case_decide; [|by eauto]. simpl. destruct (active s) as [a|]; [|by eauto].
    simpl. rewrite lookup_alter. case_decide; [subst|by eauto]. rewrite Ho. simpl. eauto. }
  clearbody s_pre pre.
  destruct (shape_lookup_Some (objects pre) objs1 obj o' (transform_apply_shape _) Ho')
    as (o1 & Ho1 & Hsh1).
  pose proof (shape_type _ _ Hsh1) as Hty1. rewrite Hty' in Hty1.
  set (c := bottom_centroid o1).
  set (moved := map (transform_point (Translation (vneg c))) (vertices o1)).
  assert (objects (host_effect object_transform_apply_rotation_scale
                     (add_call object_transform_apply_rotation_scale s_pre)) = objs1)
    as Hobjs1.
  { simpl. by rewrite Hpre. }
  remember (host_effect object_transform_apply_rotation_scale
              (add_call object_transform_apply_rotation_scale s_pre)) as s1 eqn:Hs1.
  clearbody objs1.
  exists o1, (set_vertices moved o1),
    (set_objects (alter (set_vertices moved) obj (objects s1)) s1), c.
  split; [done|]. split.
  { unfold set_origin_at_bottom. unfold bind at 1. unfold read_object at 1. rewrite Ho.
    unfold bind at 1. rewrite Hmode. unfold bind at 1.
    rewrite host_call_ok by done. rewrite <- Hs1.
    unfold bind at 1. unfold read_object at 1. rewrite Hobjs1, Ho1.
    unfold bind at 1. unfold data_transform. unfold bind at 1.
    unfold read_object. rewrite Hobjs1, Ho1, Hty1.
    unfold write_object, modify, ret. simpl. rewrite Hobjs1. do 2 f_equal.
    apply alter_ext. intros o2 Ho2. by simplify_eq. }
  assert (∀ lox hix loy hiy loz,
            least (map vx (vertices o1)) lox → greatest (map vx (vertices o1)) hix →
            least (map vy (vertices o1)) loy → greatest (map vy (vertices o1)) hiy →
            least (map vz (vertices o1)) loz →
            c = mkVector (float32 (py_div (py_add lox hix) 2))
                         (float32 (py_div (py_add loy hiy) 2))
                         (float32 loz)) as Hc.
  { intros lox hix loy hiy loz Hlox Hhix Hloy Hhiy Hloz.
    assert (vertices o1 ≠ []) as Hne.
    { intros Hnil. rewrite Hnil in Hlox. destruct Hlox as [Hex _]. by apply Exists_nil in Hex. }
    destruct (bounds_extremes _ Hne) as (Bx1 & Bx2 & By1 & By2 & Bz1 & _).
    subst c. rewrite bottom_centroid_bounds.
    rewrite (py_add_Qeq _ lox _ hix (least_unique _ _ _ Bx1 Hlox)
               (greatest_unique _ _ _ Bx2 Hhix)).
    rewrite (py_add_Qeq _ loy _ hiy (least_unique _ _ _ By1 Hloy)
               (greatest_unique _ _ _ By2 Hhiy)).
    by rewrite (float32_Qeq _ loz (least_unique _ _ _ Bz1 Hloz)). }
  assert (vertices o1 = [] → c = zero_vector) as Hempty.
  { intros Hnil. subst c. rewrite bottom_centroid_bounds, Hnil. reflexivity. }
  assert (vz c = float32 (vz (bounds (vertices o1)).1)) as Hcz.
  { subst c. by rewrite bottom_centroid_bounds. }
  assert (Forall float_vector (vertices o1) →
          moved = map (λ v, mkVector (float32 (vx v - vx c)) (float32 (vy v - vy c))
                                     (float32 (vz v - vz c))) (vertices o1)) as Hmoved.
  { intros Hfloat. subst moved. apply map_ext_Forall. eapply Forall_impl; [exact Hfloat|].
    intros v Hv. by apply transform_point_Translation. }
  assert (∀ l x, least l x → l ≠ []) as Hleast.
  { intros l x [Hex _] ->. by apply Exists_nil in Hex. }
  clearbody c moved.
  cbn [objects set_objects vertices set_vertices matrix_world].
  split_and!; [|intros k Hk|done|exact Hempty|exact Hc|].
  - by rewrite Hobjs1, lookup_alter_eq, Ho1.
  - by rewrite Hobjs1, lookup_alter_ne.
  - intros Hfloat. split; [by apply Hmoved|]. rewrite (Hmoved Hfloat). clear Hmoved.
    split_and!.
    + intros Hne. destruct (bounds_extremes _ Hne) as (_ & _ & _ & _ & Bz1 & _).
      rewrite map_map. cbn [vz]. rewrite Hcz.
      rewrite <- (map_map vz (λ z, float32 (z - float32 (vz (bounds (vertices o1)).1)))).
      apply least_after_move; [done|].
      apply Forall_fmap. eapply Forall_impl; [exact Hfloat|]. by intros v (_ & _ & ?).
    + intros lo hi lo' hi' Hlo Hhi. rewrite map_map. cbn [vx].
      rewrite <- (map_map vx (λ x, float32 (x - vx c))).
      assert (vx c = float32 (py_div (py_add lo hi) 2)) as ->; [|by apply centre_after_move].
      assert (vertices o1 ≠ []) as Hne.
      { intros Hnil. apply (Hleast _ _ Hlo). by rewrite Hnil. }
      destruct (bounds_extremes _ Hne) as (_ & _ & By1 & By2 & Bz1 & _).
      by rewrite (Hc lo hi _ _ _ Hlo Hhi By1 By2 Bz1).
    + intros lo hi lo' hi' Hlo Hhi. rewrite map_map. cbn [vy].
      rewrite <- (map_map vy (λ y, float32 (y - vy c))).
      assert (vy c = float32 (py_div (py_add lo hi) 2)) as ->; [|by apply centre_after_move].
      assert (vertices o1 ≠ []) as Hne.
      { intros Hnil. apply (Hleast _ _ Hlo). by rewrite Hnil. }
      destruct (bounds_extremes _ Hne) as (Bx1 & Bx2 & _ & _ & Bz1 & _).
      by rewrite (Hc _ _ lo hi _ Bx1 Bx2 Hlo Hhi Bz1).
Qed.


(** ** [set_origin_to_custom] *)

Section CustomOrigin.

Context `{!Host}.

Lemma find_custom_empty_undefined scene objs cs :
  other_properties scene !! "selected_empty" = None →
  find_custom_empty scene objs cs =
    if decide (Exists (λ child, type <$> objs !! child = Some EMPTY) cs)
    then Raise (AttributeError "selected_empty") else Return None.
Proof.
  intros Hundef. induction cs as [|child cs IH]; cbn [find_custom_empty].
  - rewrite decide_False; [done|]. by intros ?%Exists_nil.
  - unfold selected_empty. rewrite Hundef.
    destruct (decide (type <$> objs !! child = Some EMPTY)) as [Hty|Hty].
    + rewrite decide_True; [done|]. by apply Exists_cons_hd.
    + rewrite IH.
      destruct (decide (Exists (λ child, type <$> objs !! child = Some EMPTY) cs))
        as [Hex|Hex].
      * rewrite decide_True; [done|]. by apply Exists_cons_tl.
      * rewrite decide_False; [done|]. intros [?|?]%Exists_cons; done.
Qed.

(** Without [selected_empty] on the scene, [process_obj] changes nothing:
    it fails on a mesh that has a child empty and does nothing on any
    other object. *)
Lemma process_obj_undefined scene obj s o :
  other_properties scene !! "selected_empty" = None →
  objects s !! obj = Some o →
  process_obj scene obj s =
    (if decide (mesh_with_empty_child (objects s) obj)
     then Raise (AttributeError "selected_empty") else Return tt, s).
Proof.
  intros Hundef Ho. unfold process_obj. unfold bind at 1. unfold read_object. rewrite Ho.
  assert (type <$> objects s !! obj = Some (type o)) as Hto by (by rewrite Ho).
  case_decide as Hty.
  - rewrite decide_False; [done|]. intros [? _]. congruence.
  - unfold bind at 1. unfold gets. cbn beta iota.
    rewrite (find_custom_empty_undefined _ _ _ Hundef).
    destruct (decide (Exists _ (children (objects s) obj))) as [Hex|Hex].
    + rewrite decide_True; [done|]. split; [congruence|done].
    + rewrite decide_False; [done|]. by intros [_ ?].
Qed.

Lemma process_obj_undefined_state scene obj s :
  other_properties scene !! "selected_empty" = None →
  (process_obj scene obj s).2 = s.
Proof.
  intros Hundef. destruct (objects s !! obj) as [o|] eqn:Ho.
  - by rewrite (process_obj_undefined scene obj s o).
  - unfold process_obj, bind, read_object. by rewrite Ho.
Qed.

Lemma for_each_state_unchanged {A} (l : list A) (body : A → Py unit) s :
  (∀ x, x ∈ l → (body x s).2 = s) → (for_each l body s).2 = s.
Proof.
  induction l as [|x l IH]; intros Hbody; simpl; [done|].
  unfold bind. pose proof (Hbody x (list_elem_of_here _ _)) as Hx.
  destruct (body x s) as [[[]|e] s1]; simpl in *; subst; [|done].
  apply IH. intros y Hy. apply Hbody. by apply list_elem_of_further.
Qed.

Lemma process_objects_undefined_state scene objs s :
  other_properties scene !! "selected_empty" = None →
  (process_objects scene objs s).2 = s.
Proof.
  intros Hundef. destruct objs as [l|obj]; simpl.
  - apply for_each_state_unchanged. intros. by apply process_obj_undefined_state.
  - by apply process_obj_undefined_state.
Qed.

Lemma process_objects_undefined scene sel s :
  other_properties scene !! "selected_empty" = None →
  (∀ obj, obj ∈ sel → is_Some (objects s !! obj)) →
  for_each sel (process_obj scene) s =
    (if decide (Exists (mesh_with_empty_child (objects s)) sel)
     then Raise (AttributeError "selected_empty") else Return tt, s).
Proof.
  intros Hundef. induction sel as [|obj sel IH]; intros Hin; cbn [for_each].
  - rewrite decide_False; [done|]. by intros ?%Exists_nil.
  - destruct (Hin obj (list_elem_of_here _ _)) as [o Ho].
    unfold bind. rewrite (process_obj_undefined scene obj s o Hundef Ho).
    destruct (decide (mesh_with_empty_child (objects s) obj)) as [Hobj|Hobj].
    + rewrite decide_True; [done|]. by apply Exists_cons_hd.
    + rewrite IH by (intros; apply Hin; by apply list_elem_of_further).
      destruct (decide (Exists (mesh_with_empty_child (objects s)) sel)) as [Hex|Hex].
      * rewrite decide_True; [done|]. by apply Exists_cons_tl.
      * rewrite decide_False; [done|]. intros [?|?]%Exists_cons; done.
Qed.

Lemma find_custom_empty_shape scene (m m' : gmap string Object) cs :
  shape <$> m' = shape <$> m →
  find_custom_empty scene m' cs = find_custom_empty scene m cs.
Proof.
  intros Hsh. induction cs as [|child cs IH]; cbn [find_custom_empty]; [done|].
  rewrite (shape_lookup_type m m' child Hsh), IH. done.
Qed.

Lemma find_custom_empty_Some scene objs cs ce :
  find_custom_empty scene objs cs = Return (Some ce) →
  ce ∈ cs ∧ type <$> objs !! ce = Some EMPTY ∧
  ∃ name, selected_empty scene = Return name ∧ (name = "" ∨ ce = name).
Proof.
  induction cs as [|child cs IH]; cbn [find_custom_empty]; [done|].
  destruct (decide (type <$> objs !! child = Some EMPTY)) as [Hty|Hty].
  - destruct (selected_empty scene) as [name|e] eqn:Hname; [|done].
    destruct (decide (name = "")) as [->|Hne].
    { intros [= <-]. split_and!; [apply list_elem_of_here|done|eauto]. }
    destruct (decide (child = name)) as [->|Hne'].
    { intros [= <-]. split_and!; [apply list_elem_of_here|done|eauto]. }
    intros Hfind. destruct (IH Hfind) as (Hin & Hty' & Hmatch).
    split_and!; [by apply list_elem_of_further|done|done].
  - intros Hfind. destruct (IH Hfind) as (Hin & Hty' & Hmatch).
    split_and!; [by apply list_elem_of_further|done|done].
Qed.

(** No child empty matches: the generator is exhausted. *)
Lemma find_custom_empty_no_match scene objs cs name :
  selected_empty scene = Return name →
  (∀ child, child ∈ cs → type <$> objs !! child = Some EMPTY →
     name ≠ "" ∧ child ≠ name) →
  find_custom_empty scene objs cs = Return None.
Proof.
  intros Hname. induction cs as [|child cs IH]; intros Hno; cbn [find_custom_empty];
    [done|].
  assert (find_custom_empty scene objs cs = Return None) as ->.
  { apply IH. intros c Hc. apply Hno. by apply list_elem_of_further. }
  destruct (decide (type <$> objs !! child = Some EMPTY)) as [Hty|Hty]; [|done].
  rewrite Hname. destruct (Hno child (list_elem_of_here _ _) Hty) as [Hne Hne'].
  by rewrite !decide_False.
Qed.

(** [process_obj] on a mesh without a matching child empty: nothing
    happens and nothing is raised. *)
Lemma process_obj_no_marker scene obj s o name :
  selected_empty scene = Return name →
  objects s !! obj = Some o →
  (∀ child, child ∈ children (objects s) obj →
     type <$> objects s !! child = Some EMPTY → name ≠ "" ∧ child ≠ name) →
  process_obj scene obj s = (Return tt, s).
Proof.
  intros Hname Ho Hno. unfold process_obj. unfold bind at 1. unfold read_object.
  rewrite Ho. case_decide; [done|]. unfold bind at 1. unfold gets. cbn beta iota.
  by rewrite (find_custom_empty_no_match _ _ _ name).
Qed.

(** [process_obj] on a mesh with a matching child empty [ce], step by
    step. *)
Lemma process_obj_marker_run scene obj s o ce c :
  objects s !! obj = Some o → type o = MESH →
  find_custom_empty scene (objects s) (children (objects s) obj) = Return (Some ce) →
  objects s !! ce = Some c →
  let t := translation (matrix_world c) in
  let selected := alter (set_select true) obj (set_select false <$> objects s) in
  let s1 := set_cursor_location t s in
  let s2 := set_active (Some obj)
              (set_objects selected (add_call object_select_all_DESELECT s1)) in
  process_obj scene obj s =
    if host_raises object_select_all_DESELECT s1 then
      (Raise (RuntimeError object_select_all_DESELECT),
       add_call object_select_all_DESELECT s1)
    else if host_raises object_origin_set_CURSOR_MEDIAN s2 then
      (Raise (RuntimeError object_origin_set_CURSOR_MEDIAN),
       add_call object_origin_set_CURSOR_MEDIAN s2)
    else
      (Return tt,
       set_objects (origin_set t selected) (add_call object_origin_set_CURSOR_MEDIAN s2)).
Proof.
  intros Ho Hty Hfind Hc t selected s1 s2.
  unfold process_obj. unfold bind at 1. unfold read_object at 1. rewrite Ho.
  rewrite decide_False by (intros ?; done).
  unfold bind at 1. unfold gets. cbn beta iota. rewrite Hfind.
  unfold bind at 1. unfold read_object. rewrite Hc.
  unfold bind at 1. unfold modify at 1. fold t. fold s1.
  unfold bind at 1. unfold host_call at 1. cbn [unrecognized_keyword].
  destruct (host_raises object_select_all_DESELECT s1); [done|].
  unfold bind at 1. unfold write_object, modify at 1.
  unfold bind at 1. unfold modify at 1.
  unfold host_call. cbn [unrecognized_keyword].
  change (set_active (Some obj) (set_objects _ _)) with s2.
  by destruct (host_raises object_origin_set_CURSOR_MEDIAN s2).
Qed.

(** [process_obj] on a mesh with a matching child empty [ce]: the cursor
    goes to the world translation of [ce], the mesh becomes the only
    selected and the active object, and the cursor-anchored origin-set
    runs on that selection. *)
Lemma process_obj_marker scene obj s o ce c :
  objects s !! obj = Some o → type o = MESH →
  find_custom_empty scene (objects s) (children (objects s) obj) = Return (Some ce) →
  objects s !! ce = Some c →
  let t := translation (matrix_world c) in
  let selected := alter (set_select true) obj (set_select false <$> objects s) in
  let out := process_obj scene obj s in
  cursor_location out.2 = t ∧
  (out.1 = Return tt ∧ objects out.2 = origin_set t selected ∧ active out.2 = Some obj ∨
   (∃ e, out.1 = Raise e) ∧
   (objects out.2 = objects s ∧ active out.2 = active s ∨
    objects out.2 = selected ∧ active out.2 = Some obj)) ∧
  (host_never_raises → out.1 = Return tt).
Proof.
  intros Ho Hty Hfind Hc t selected out. subst out.
  rewrite (process_obj_marker_run scene obj s o ce c Ho Hty Hfind Hc). fold t selected.
  destruct (host_raises object_select_all_DESELECT _) eqn:Hr1.
  { simpl. split_and!; [done|right; split; [eauto|by left]|].
    intros Hnever. by rewrite Hnever in Hr1. }
  destruct (host_raises object_origin_set_CURSOR_MEDIAN _) eqn:Hr2.
  { simpl. split_and!; [done|right; split; [eauto|by right]|].
    intros Hnever. by rewrite Hnever in Hr2. }
  simpl. split_and!; [done|by left|done].
Qed.

Lemma run_twice_unchanged {A} (c : Py A) s :
  (c s).2 = s → bind c (λ _, c) s = c s.
Proof.
  intros Hs. unfold bind. destruct (c s) as [[a|e] s1] eqn:Hc; simpl in *; subst; done.
Qed.

Lemma process_obj_state_or_marker scene obj s :
  (process_obj scene obj s).2 = s ∨
  ∃ o ce c, objects s !! obj = Some o ∧ type o = MESH ∧
    find_custom_empty scene (objects s) (children (objects s) obj) = Return (Some ce) ∧
    objects s !! ce = Some c ∧ type c = EMPTY.
Proof.
  unfold process_obj. unfold bind at 1. unfold read_object at 1.
  destruct (objects s !! obj) as [o|] eqn:Ho; [|by left].
  case_decide as Hty; [by left|].
  unfold bind at 1. unfold gets. cbn beta iota.
  destruct (find_custom_empty scene (objects s) (children (objects s) obj))
    as [[ce|]|e] eqn:Hfind; [|by left|by left].
  right. destruct (find_custom_empty_Some _ _ _ _ Hfind) as (_ & Hce & _).
  destruct (objects s !! ce) as [c|] eqn:Hc; [|done]. simpl in Hce.
  exists o, ce, c. split_and!; [done|done|done|done|congruence].
Qed.

(** C6, on the add-on as it registers its properties: a mesh with a
    child empty makes [process_obj] raise AttributeError when it reads
    [scene.selected_empty]; neither the cursor nor an origin moves. *)
Theorem process_obj_marker_raises scene obj s o child :
  other_properties scene !! "selected_empty" = None →
  objects s !! obj = Some o → type o = MESH →
  child ∈ children (objects s) obj →
  type <$> objects s !! child = Some EMPTY →
  process_obj scene obj s = (Raise (AttributeError "selected_empty"), s).
Proof.
  intros Hundef Ho Hty Hchild Hempty.
  rewrite (process_obj_undefined scene obj s o Hundef Ho).
  rewrite decide_True; [done|]. split; [by rewrite Ho; simpl; f_equal|].
  apply Exists_exists. eauto.
Qed.

End CustomOrigin.

(** ** The origin placement of an export run *)

Lemma bind_Return_inv {A B} (c : Py A) (k : A → Py B) s b s' :
  bind c k s = (Return b, s') →
  ∃ a s1, c s = (Return a, s1) ∧ k a s1 = (Return b, s').
Proof.
  unfold bind. destruct (c s) as [[a|e] s1]; [|done]. intros Hk. by exists a, s1.
Qed.

Section OriginCalls.

Context `{!Host}.
Variable s0 : State.
Variable allowed : HostCall → Prop.

Lemma issued_since_refl : issued_since s0 allowed s0.
Proof. exists []. by rewrite app_nil_r. Qed.

Lemma issued_host_call c : allowed c → preserves (issued_since s0 allowed) (host_call c).
Proof.
  intros Hc s (l & Hl & Hall). exists (l ++ [c]). rewrite host_call_calls, Hl.
  split; [by rewrite app_assoc|]. apply Forall_app. by split; [|apply Forall_singleton].
Qed.

Lemma issued_modify f :
  (∀ s, calls (f s) = calls s) → preserves (issued_since s0 allowed) (modify f).
Proof. intros Hf. apply preserves_modify. intros s (l & Hl & Hall). exists l. by rewrite Hf. Qed.

Lemma issued_select_origin obj :
  allowed object_select_all_DESELECT → allowed object_origin_set_CURSOR_MEDIAN →
  preserves (issued_since s0 allowed)
    (host_call object_select_all_DESELECT ;;
     write_object obj (set_select true) ;;
     modify (set_active (Some obj)) ;;
     host_call object_origin_set_CURSOR_MEDIAN).
Proof.
  intros Hd Ho.
  apply preserves_bind; [by apply issued_host_call|]. intros _.
  apply preserves_bind; [by apply issued_modify|]. intros _.
  apply preserves_bind; [by apply issued_modify|]. intros _.
  by apply issued_host_call.
Qed.

Lemma issued_process_obj scene obj :
  allowed object_select_all_DESELECT → allowed object_origin_set_CURSOR_MEDIAN →
  preserves (issued_since s0 allowed) (process_obj scene obj).
Proof.
  intros Hd Ho.
  apply preserves_bind; [apply preserves_read_object|]. intros o.
  case_decide; [apply preserves_ret|].
  apply preserves_bind; [apply preserves_gets|]. intros objs.
  destruct (find_custom_empty scene objs (children objs obj)) as [[ce|]|e];
    [|apply preserves_ret|apply preserves_raise].
  apply preserves_bind; [apply preserves_read_object|]. intros c.
  apply preserves_bind; [by apply issued_modify|]. intros _.
  by apply issued_select_origin.
Qed.

Lemma issued_set_origin_to_custom scene sel :
  allowed object_select_all_DESELECT → allowed object_origin_set_CURSOR_MEDIAN →
  preserves (issued_since s0 allowed) (set_origin_to_custom (ObjectList sel) scene).
Proof.
  intros Hd Ho.
  apply preserves_bind; [|intros _]; apply preserves_for_each; intros;
    by apply issued_process_obj.
Qed.

Lemma issued_set_origin_at_bottom obj :
  allowed object_mode_set_OBJECT → allowed object_transform_apply_rotation_scale →
  preserves (issued_since s0 allowed) (set_origin_at_bottom obj).
Proof.
  intros Hm Ht.
  apply preserves_bind; [apply preserves_read_object|]. intros o.
  apply preserves_bind.
  { case_decide; [by apply issued_host_call|apply preserves_ret]. }
  intros _. apply preserves_bind; [by apply issued_host_call|].
  intros _. apply preserves_bind; [apply preserves_read_object|]. intros o1.
  apply preserves_bind; [|intros _; apply preserves_ret].
  apply preserves_bind; [apply preserves_read_object|]. intros o2.
  destruct (type o2); try apply preserves_raise; by apply issued_modify.
Qed.

Lemma issued_origin_to_object_location obj :
  allowed object_select_all_DESELECT → allowed object_origin_set_CURSOR_MEDIAN →
  preserves (issued_since s0 allowed) (origin_to_object_location obj).
Proof.
  intros Hd Ho.
  apply preserves_bind; [apply preserves_read_object|]. intros o.
  apply preserves_bind; [by apply issued_modify|]. intros _.
  by apply issued_select_origin.
Qed.

End OriginCalls.

(** A pass of the default policy that ends normally has issued one
    deselect-all and one origin-set per object, in this order. *)
Lemma origin_to_object_location_calls `{!Host} obj s s' :
  origin_to_object_location obj s = (Return tt, s') →
  calls s' = calls s ++ [object_select_all_DESELECT; object_origin_set_CURSOR_MEDIAN].
Proof.
  unfold origin_to_object_location. intros Hrun.
  apply bind_Return_inv in Hrun as (o & s1 & Hread & Hrun).
  assert (s1 = s) as ->.
  { unfold read_object in Hread. destruct (objects s !! obj); by simplify_eq. }
  apply bind_Return_inv in Hrun as ([] & s2 & [= <-] & Hrun).
  apply bind_Return_inv in Hrun as ([] & s3 & Hdes & Hrun).
  apply bind_Return_inv in Hrun as ([] & s4 & [= <-] & Hrun).
  apply bind_Return_inv in Hrun as ([] & s5 & [= <-] & Hrun).
  pose proof (host_call_calls object_select_all_DESELECT
                (set_cursor_location (location o) s)) as H1.
  rewrite Hdes in H1. simpl in H1.
  match type of Hrun with host_call ?c ?st = _ =>
    pose proof (host_call_calls c st) as H2 end.
  rewrite Hrun in H2. simpl in H2. rewrite H2, H1. by rewrite <- app_assoc.
Qed.

Lemma default_policy_calls `{!Host} sel s s' :
  for_each sel origin_to_object_location s = (Return tt, s') →
  calls s' = calls s ++
    (sel ≫= λ _, [object_select_all_DESELECT; object_origin_set_CURSOR_MEDIAN]).
Proof.
  revert s. induction sel as [|obj sel IH]; intros s; cbn [for_each].
  - intros [= <-]. by rewrite app_nil_r.
  - intros Hrun. apply bind_Return_inv in Hrun as ([] & s1 & Hobj & Hrun).
    rewrite (IH _ Hrun), (origin_to_object_location_calls _ _ _ Hobj).
    by rewrite <- app_assoc.
Qed.

(** C8: which origin placement an export run makes, and the move to
    the world origin after it.  The operators the placement calls tell
    the three policies apart: with [custom_origin] set it only deselects
    and sets origins at the cursor, whatever [origin_at_bottom] says
    (and on the add-on as registered, which has no [selected_empty], it
    calls nothing at all); with [origin_at_bottom] alone it only
    switches to object mode and applies transforms; with neither flag it
    deselects and sets the origin once per selected object.  When the
    placement ends normally, every selected object has location (0,0,0)
    in the state the export starts from.  When it raises, the body of
    the [try] ends there and no location is set: this is what happens,
    with [AttributeError], for a selected mesh with a child empty under
    [custom_origin] on the add-on as registered. *)
Theorem one_origin_policy_then_zero `{!Host} `{!HostFrame} scene sel s :
  (∀ obj, obj ∈ sel → is_Some (objects s !! obj)) →
  let placed := origin_handling scene sel s in
  (∃ issued, calls placed.2 = calls s ++ issued ∧
     (custom_origin scene = true →
        Forall (λ c, c = object_select_all_DESELECT ∨
                     c = object_origin_set_CURSOR_MEDIAN) issued ∧
        (other_properties scene !! "selected_empty" = None → issued = [])) ∧
     (custom_origin scene = false → origin_at_bottom scene = true →
        Forall (λ c, c = object_mode_set_OBJECT ∨
                     c = object_transform_apply_rotation_scale) issued) ∧
     (custom_origin scene = false → origin_at_bottom scene = false →
        Forall (λ c, c = object_select_all_DESELECT ∨
                     c = object_origin_set_CURSOR_MEDIAN) issued ∧
        (placed.1 = Return tt →
           issued = sel ≫= λ _, [object_select_all_DESELECT;
                                 object_origin_set_CURSOR_MEDIAN]))) ∧
  (∀ s1, placed = (Return tt, s1) →
     ∃ s2, try_body scene sel s = export_process scene sel s2 ∧
           ∀ obj, obj ∈ sel →
             ∃ o, objects s2 !! obj = Some o ∧ location o = zero_vector) ∧
  (∀ e s1, placed = (Raise e, s1) → try_body scene sel s = (Raise e, s1)) ∧
  (custom_origin scene = true →
   other_properties scene !! "selected_empty" = None →
   Exists (mesh_with_empty_child (objects s)) sel →
   try_body scene sel s = (Raise (AttributeError "selected_empty"), s)).
Proof.
  intros Hin placed. split_and!.
  - assert (∀ allowed, preserves (issued_since s allowed) (origin_handling scene sel) →
              ∃ issued, calls placed.2 = calls s ++ issued ∧ Forall allowed issued)
      as Hissued.
    { intros allowed Hp. exact (Hp s (issued_since_refl s allowed)). }
    destruct (custom_origin scene) eqn:Hc; [|destruct (origin_at_bottom scene) eqn:Hb].
    + destruct (Hissued (λ c, c = object_select_all_DESELECT ∨
                              c = object_origin_set_CURSOR_MEDIAN))
        as (issued & Hcalls & Hall).
      { unfold origin_handling. rewrite Hc.
        apply issued_set_origin_to_custom; [by left | by right]. }
      exists issued. split_and!; [done| |done|done].
      intros _. split; [done|]. intros Hundef.
      assert (placed.2 = s) as Hs.
      { subst placed. unfold origin_handling. rewrite Hc.
        unfold set_origin_to_custom, bind.
        pose proof (process_objects_undefined_state scene (ObjectList sel) s Hundef) as H1.
        destruct (process_objects scene (ObjectList sel) s) as [[[]|e] s1];
          simpl in *; subst s1; [|done].
        apply (process_objects_undefined_state scene (ObjectList sel) s Hundef). }
      rewrite Hs in Hcalls. rewrite <- (app_nil_r (calls s)) in Hcalls at 1.
      by apply app_inv_head in Hcalls.
    + destruct (Hissued (λ c, c = object_mode_set_OBJECT ∨
                              c = object_transform_apply_rotation_scale))
        as (issued & Hcalls & Hall).
      { unfold origin_handling. rewrite Hc, Hb. apply preserves_for_each. intros obj _.
        apply preserves_bind; [|intros _; apply preserves_ret].
        apply issued_set_origin_at_bottom; [by left | by right]. }
      exists issued. by split_and!.
    + destruct (Hissued (λ c, c = object_select_all_DESELECT ∨
                              c = object_origin_set_CURSOR_MEDIAN))
        as (issued & Hcalls & Hall).
      { unfold origin_handling. rewrite Hc, Hb. apply preserves_for_each. intros obj _.
        apply issued_origin_to_object_location; [by left | by right]. }
      exists issued. split_and!; [done|done|done|].
      intros _ _. split; [done|]. intros Hret.
      assert (placed = (Return tt, placed.2)) as Hplaced.
      { destruct placed as [r s1]. simpl in *. by subst r. }
      unfold placed at 1 in Hplaced. unfold origin_handling in Hplaced.
      rewrite Hc, Hb in Hplaced. apply default_policy_calls in Hplaced.
      rewrite Hplaced in Hcalls. by apply app_inv_head in Hcalls.
  - intros s1 Hrun.
    assert (same_shape (objects s) s1) as Hshape.
    { pose proof (preserves_shape_origin_handling (objects s) scene sel s eq_refl) as Hp.
      fold placed in Hp. by rewrite Hrun in Hp. }
    destruct (move_objects_to_zero_spec sel s1) as (s2 & Hmove & Hzero & Hdom2).
    exists s2. split.
    + unfold try_body. unfold bind at 1. fold placed. rewrite Hrun.
      unfold bind at 1. by rewrite Hmove.
    + intros obj Hobj. destruct (Hin obj Hobj) as [o0 Ho0].
      destruct (shape_lookup_Some _ _ _ _ Hshape Ho0) as (o1 & Ho1 & _).
      assert (is_Some (objects s2 !! obj)) as [o Ho] by (apply Hdom2; eauto).
      exists o. split; [done|]. by eapply Hzero.
  - intros e s1 Hrun. unfold try_body. unfold bind at 1. fold placed. by rewrite Hrun.
  - intros Hc Hundef Hex. unfold try_body, origin_handling. rewrite Hc.
    unfold set_origin_to_custom. unfold bind at 1. unfold bind at 1.
    cbn [process_objects]. rewrite (process_objects_undefined scene sel s Hundef Hin).
    by rewrite decide_True.
Qed.

Section SecondPass.

Context `{!Host} `{!HostFrame} `{!OriginSetContract}.

Lemma deselect_select_fixpoint (m : gmap string Object) obj :
  (∀ k o, m !! k = Some o → select_get o = bool_decide (k = obj)) →
  alter (set_select true) obj (set_select false <$> m) = m.
Proof.
  intros Hsel. apply map_eq. intros k. destruct (decide (obj = k)) as [->|Hne].
  - rewrite lookup_alter_eq, lookup_fmap.
    destruct (m !! k) as [o|] eqn:Ho; [|done]. specialize (Hsel k o Ho).
    rewrite bool_decide_eq_true_2 in Hsel by done.
    destruct o. simpl in *. by subst.
  - rewrite lookup_alter_ne, lookup_fmap by done.
    destruct (m !! k) as [o|] eqn:Ho; [|done]. specialize (Hsel k o Ho).
    rewrite bool_decide_eq_false_2 in Hsel by congruence.
    destruct o. simpl in *. by subst.
Qed.

Lemma selected_only (m : gmap string Object) obj k o :
  alter (set_select true) obj (set_select false <$> m) !! k = Some o →
  select_get o = bool_decide (k = obj).
Proof.
  destruct (decide (obj = k)) as [->|Hne].
  - rewrite lookup_alter_eq, lookup_fmap. destruct (m !! k) as [o'|]; [|done].
    intros [= <-]. simpl. by rewrite bool_decide_eq_true_2.
  - rewrite lookup_alter_ne, lookup_fmap by done. destruct (m !! k) as [o'|]; [|done].
    intros [= <-]. simpl. by rewrite bool_decide_eq_false_2 by congruence.
Qed.

(** The mesh with a matching child empty: once the host has run the
    origin-set, the origin of the mesh is where the empty is. *)
Lemma process_obj_marker_origin scene obj s o ce c :
  host_never_raises →
  objects s !! obj = Some o → type o = MESH →
  find_custom_empty scene (objects s) (children (objects s) obj) = Return (Some ce) →
  objects s !! ce = Some c →
  let out := process_obj scene obj s in
  out.1 = Return tt ∧
  cursor_location out.2 = translation (matrix_world c) ∧
  ∃ o', objects out.2 !! obj = Some o' ∧
        translation (matrix_world o') = translation (matrix_world c).
Proof.
  intros Hnever Ho Hty Hfind Hc out.
  destruct (process_obj_marker scene obj s o ce c Ho Hty Hfind Hc)
    as (Hcur & Hcases & Hok).
  fold out in Hcur, Hcases, Hok. specialize (Hok Hnever).
  split_and!; [done|done|].
  destruct Hcases as [(_ & Hobjs & _)|[[e He] _]]; [|congruence].
  rewrite Hobjs. eapply origin_set_at_cursor.
  - rewrite lookup_alter_eq, lookup_fmap, Ho. done.
  - done.
  - done.
Qed.

Lemma origin_set_selected_only c (m : gmap string Object) obj k o :
  origin_set c (alter (set_select true) obj (set_select false <$> m)) !! k = Some o →
  select_get o = bool_decide (k = obj).
Proof.
  intros Hk.
  pose proof (origin_set_select c (alter (set_select true) obj (set_select false <$> m)))
    as Hsel.
  apply (f_equal (λ m', m' !! k)) in Hsel. rewrite !lookup_fmap, Hk in Hsel.
  destruct (alter (set_select true) obj (set_select false <$> m) !! k) as [o'|] eqn:Ho';
    [|done].
  simpl in Hsel. injection Hsel as ->. by eapply selected_only.
Qed.


End SecondPass.

(** ** The custom origin without [selected_empty] *)

Lemma selected_empty_not_registered : "selected_empty" ∉ registered_scene_properties.
Proof. apply (bool_decide_unpack _). by vm_compute. Qed.

(** C10, as the code has it: [selected_empty] is not among the properties
    the add-on registers, and [set_origin_to_custom] reads it only when it
    meets a child of type EMPTY under a mesh.  With the custom-origin flag
    set and no [selected_empty] on the scene, the origin handling changes
    nothing; it raises AttributeError exactly when some selected mesh has
    a child empty, and then the only host calls of the run are the save
    and, from the restore phase, the recentring of the cursor. *)
Theorem custom_origin_without_selected_empty `{!Host} scene blend s0 :
  custom_origin scene = true →
  other_properties scene !! "selected_empty" = None →
  host_raises (wm_save_as_mainfile blend) s0 = false →
  filter_selection (objects s0) ≠ [] →
  let sel := filter_selection (objects s0) in
  let s1 := add_call (wm_save_as_mainfile blend) s0 in
  ("selected_empty" ∉ registered_scene_properties) ∧
  origin_handling scene sel s1 =
    (if decide (Exists (mesh_with_empty_child (objects s0)) sel)
     then Raise (AttributeError "selected_empty") else Return tt, s1) ∧
  (Exists (mesh_with_empty_child (objects s0)) sel →
     let out := execute scene blend s0 in
     calls out.2 = calls s0 ++ [wm_save_as_mainfile blend; view3d_snap_cursor_to_center] ∧
     (host_raises view3d_snap_cursor_to_center = (λ _, false) →
        out.1 = Raise (AttributeError "selected_empty"))).
Proof.
  intros Hcustom Hundef Hsave Hsel sel s1.
  assert (∀ obj, obj ∈ sel → is_Some (objects s0 !! obj)) as Hin.
  { intros obj Hobj. apply elem_of_filter_selection in Hobj as (o & -> & _). eauto. }
  assert (origin_handling scene sel s1 =
    (if decide (Exists (mesh_with_empty_child (objects s0)) sel)
     then Raise (AttributeError "selected_empty") else Return tt, s1)) as Horigin.
  { unfold origin_handling. rewrite Hcustom. unfold set_origin_to_custom.
    rewrite run_twice_unchanged by (by apply process_objects_undefined_state).
    cbn [process_objects]. by rewrite process_objects_undefined. }
  split_and!; [apply selected_empty_not_registered|done|].
  intros Hex out. subst out.
  rewrite (execute_reaches_try scene blend s0 Hsave Hsel). fold sel s1.
  assert (try_body scene sel s1 = (Raise (AttributeError "selected_empty"), s1)) as Hbody.
  { unfold try_body. unfold bind at 1. rewrite Horigin. by rewrite decide_True. }
  destruct (restore_original_state_spec (objects s0) sel s1 eq_refl Hin)
    as (_ & _ & Hcalls & _ & _ & Hok).
  unfold bind, try_finally. rewrite Hbody.
  destruct (restore_original_state (store_original_state (objects s0) sel) sel s1)
    as [[[]|e] s2] eqn:Hrestore; simpl in *.
  - split; [|done]. rewrite Hcalls. by rewrite <- app_assoc.
  - split; [by rewrite Hcalls, <- app_assoc|]. intros Hnofail. by specialize (Hok Hnofail).
Qed.

(** ** The export phase *)

Lemma single_obj_kwargs_refused p :
  unrecognized_keyword (wm_obj_export (single_obj_kwargs p)) = Some "export_trianguled_mesh".
Proof. reflexivity. Qed.

Lemma batch_obj_kwargs_accepted p :
  unrecognized_keyword (wm_obj_export (batch_obj_kwargs p)) = None.
Proof. reflexivity. Qed.

Lemma fbx_kwargs_accepted `{!Host} p um ut uc :
  unrecognized_keyword (export_scene_fbx (fbx_kwargs p um ut uc)) = None.
Proof. reflexivity. Qed.

(** Both OBJ calls pass the modifier flag; only the one of
    [export_objects] passes the triangulation flag under its name. *)
Lemma obj_kwargs_flags p :
  keyword "apply_modifiers" (batch_obj_kwargs p) = Some (PyBool true) ∧
  keyword "export_triangulated_mesh" (batch_obj_kwargs p) = Some (PyBool true) ∧
  keyword "apply_modifiers" (single_obj_kwargs p) = Some (PyBool true) ∧
  keyword "export_triangulated_mesh" (single_obj_kwargs p) = None.
Proof. by split_and!. Qed.

Lemma bind_ext {A B} (c c' : Py A) (k k' : A → Py B) s :
  (∀ s, c s = c' s) → (∀ a s, k a s = k' a s) → bind c k s = bind c' k' s.
Proof. intros Hc Hk. unfold bind. rewrite Hc. destruct (c' s) as [[a|e] s1]; auto. Qed.

Lemma for_each_ext {A} (l : list A) (f g : A → Py unit) s :
  (∀ x s, f x s = g x s) → for_each l f s = for_each l g s.
Proof.
  intros Hfg. revert s. induction l as [|x l IH]; intros s; simpl; [done|].
  apply bind_ext; auto.
Qed.

Lemma find_custom_empty_obj_flags `{!Host} a b scene objs cs :
  find_custom_empty (with_obj_flags a b scene) objs cs = find_custom_empty scene objs cs.
Proof. induction cs as [|child cs IH]; cbn [find_custom_empty]; [done|]. by rewrite IH. Qed.

Lemma process_obj_obj_flags `{!Host} a b scene obj s :
  process_obj (with_obj_flags a b scene) obj s = process_obj scene obj s.
Proof.
  unfold process_obj. apply bind_ext; [done|]. intros o s1.
  case_decide; [done|]. apply bind_ext; [done|]. intros objs s2.
  by rewrite find_custom_empty_obj_flags.
Qed.

(** The two OBJ option flags of the configuration are never read. *)
Lemma obj_flags_unused `{!Host} scene blend include_modifiers use_triangles s :
  execute (with_obj_flags include_modifiers use_triangles scene) blend s
  = execute scene blend s.
Proof.
  unfold execute. apply bind_ext; [done|]. intros _ s1.
  apply bind_ext; [done|]. intros objs s2.
  destruct (filter_selection objs) as [|x l]; [done|].
  apply bind_ext; [|done]. intros s3. unfold try_finally.
  assert (try_body (with_obj_flags include_modifiers use_triangles scene) (x :: l) s3
          = try_body scene (x :: l) s3) as ->; [|done].
  unfold try_body. apply bind_ext; [|done]. intros s4.
  unfold origin_handling. cbn [with_obj_flags custom_origin origin_at_bottom].
  destruct (custom_origin scene); [|done].
  unfold set_origin_to_custom. cbn [process_objects].
  apply bind_ext; [|intros _]; intros s5; apply for_each_ext; intros;
    apply process_obj_obj_flags.
Qed.

Lemma select_all_objects `{!Host} sel s :
  ∃ s', for_each sel (λ obj, write_object obj (set_select true)) s = (Return tt, s') ∧
        active s' = active s ∧ exported s' = exported s ∧ calls s' = calls s ∧
        directories s' = directories s ∧ cursor_location s' = cursor_location s.
Proof.
  revert s. induction sel as [|obj sel IH]; intros s; cbn [for_each]; [by eexists|].
  unfold bind at 1. unfold write_object at 1, modify at 1.
  destruct (IH (set_objects (alter (set_select true) obj (objects s)) s))
    as (s' & Hrun & ? & ? & ? & ? & ?).
  exists s'. by rewrite Hrun.
Qed.

(** C4, the single-file branch: in a non-batch OBJ export the call of the
    OBJ exporter carries the keyword [export_trianguled_mesh]; it has no
    [export_triangulated_mesh], the host refuses it with TypeError, and
    no file is written. *)
Theorem single_obj_export_refused `{!Host} scene sel s :
  export_types scene = OBJ → batch_export scene = false →
  host_never_raises →
  set_file_name scene ≠ "" ∨ is_Some (active s) →
  let out := export_process scene sel s in
  ∃ filepath,
    out.1 = Raise (TypeError "export_trianguled_mesh") ∧
    last (calls out.2) = Some (wm_obj_export (single_obj_kwargs filepath)) ∧
    keyword "export_triangulated_mesh" (single_obj_kwargs filepath) = None ∧
    exported out.2 = exported s.
Proof.
  intros Hformat Hbatch Hnever Hname out.
  assert (∃ filepath s3,
    out = (Raise (TypeError "export_trianguled_mesh"),
           add_call (wm_obj_export (single_obj_kwargs filepath)) s3) ∧
    exported s3 = exported s) as (filepath & s3 & -> & Hexp).
  { subst out. unfold export_process. rewrite Hformat, Hbatch.
    unfold bind at 1. unfold gets at 1. cbn beta iota.
    set (directory := abspath (mesh_directory_path scene)).
    set (s1 := if decide (directory ∈ directories s) then s
               else host_effect (os_makedirs directory)
                      (add_call (os_makedirs directory) s)).
    assert ((if decide (directory ∈ directories s) then ret tt
             else host_call (os_makedirs directory)) s = (Return tt, s1)) as Hdir.
    { subst s1. case_decide; [done|]. by apply host_call_ok. }
    assert (active s1 = active s ∧ exported s1 = exported s) as [Hact1 Hexp1].
    { subst s1. by case_decide. }
    clearbody s1. unfold bind at 1. rewrite Hdir.
    unfold bind at 1. rewrite host_call_ok by done.
    set (s2 := host_effect object_select_all_DESELECT
                 (add_call object_select_all_DESELECT s1)).
    destruct (select_all_objects sel s2) as (s3 & Hsel & Hact3 & Hexp3 & Hcalls3 & _).
    unfold bind at 1. rewrite Hsel.
    unfold bind at 1. unfold gets at 1. cbn beta iota.
    assert (active s3 = active s) as Hact by (by rewrite Hact3).
    assert (exported s3 = exported s) as Hexp by (by rewrite Hexp3).
    assert (∃ base,
      (if decide (set_file_name scene ≠ "") then ret (clean_name (set_file_name scene))
       else match active s3 with
            | Some a => ret (clean_name a)
            | None => raise (AttributeError "name")
            end) s3 = (Return base, s3)) as [base Hbase].
    { destruct (decide (set_file_name scene ≠ "")) as [Hn|Hn]; [eexists; reflexivity|].
      destruct Hname as [?|[a Ha]]; [done|].
      rewrite Hact, Ha. eexists. reflexivity. }
    unfold bind at 1. rewrite Hbase.
    exists (path_join directory (base +:+ "." +:+ lower (export_format OBJ))), s3.
    split; [|done]. unfold host_call. set (call := wm_obj_export _).
    by assert (unrecognized_keyword call = Some "export_trianguled_mesh") as ->
      by reflexivity. }
  exists filepath. cbn [fst snd calls add_call exported]. split_and!; [done| |done|done].
  by rewrite last_snoc.
Qed.

(** *** Statements that write no export file *)

Section NoExport.

Context `{!Host}.
Variable ex : list (string * list string).

Lemma preserves_exported_host_call c :
  match c with
  | export_scene_fbx _ | wm_obj_export _ => is_Some (unrecognized_keyword c)
  | _ => True
  end →
  preserves (λ st, exported st = ex) (host_call c).
Proof.
  intros Hc st Hst. unfold host_call.
  destruct (unrecognized_keyword c) as [k|] eqn:Hkw; [done|].
  destruct (host_raises c st); [done|].
  destruct c; simpl; try done; try (by destruct Hc).
  by destruct (active st).
Qed.

Lemma preserves_exported_write_object obj f :
  preserves (λ st, exported st = ex) (write_object obj f).
Proof. by apply preserves_modify. Qed.

Lemma preserves_exported_select_origin obj :
  preserves (λ st, exported st = ex)
    (host_call object_select_all_DESELECT ;;
     write_object obj (set_select true) ;;
     modify (set_active (Some obj)) ;;
     host_call object_origin_set_CURSOR_MEDIAN).
Proof.
  apply preserves_bind; [by apply preserves_exported_host_call|]. intros _.
  apply preserves_bind; [apply preserves_exported_write_object|]. intros _.
  apply preserves_bind; [by apply preserves_modify|]. intros _.
  by apply preserves_exported_host_call.
Qed.

Lemma preserves_exported_origin_handling scene sel :
  preserves (λ st, exported st = ex) (origin_handling scene sel).
Proof.
  assert (∀ obj, preserves (λ st, exported st = ex) (process_obj scene obj)) as Hprocess.
  { intros obj. apply preserves_bind; [apply preserves_read_object|]. intros o.
    case_decide; [apply preserves_ret|].
    apply preserves_bind; [apply preserves_gets|]. intros objs.
    destruct (find_custom_empty scene objs (children objs obj)) as [[ce|]|e];
      [|apply preserves_ret|apply preserves_raise].
    apply preserves_bind; [apply preserves_read_object|]. intros c.
    apply preserves_bind; [by apply preserves_modify|]. intros _.
    apply preserves_exported_select_origin. }
  unfold origin_handling. destruct (custom_origin scene).
  - apply preserves_bind; [|intros _]; apply preserves_for_each; intros; apply Hprocess.
  - destruct (origin_at_bottom scene); apply preserves_for_each; intros obj _.
    + apply preserves_bind; [|intros _; apply preserves_ret].
      apply preserves_bind; [apply preserves_read_object|]. intros o.
      apply preserves_bind.
      { case_decide; [by apply preserves_exported_host_call|apply preserves_ret]. }
      intros _. apply preserves_bind; [by apply preserves_exported_host_call|].
      intros _. apply preserves_bind; [apply preserves_read_object|]. intros o1.
      apply preserves_bind; [|intros _; apply preserves_ret].
      apply preserves_bind; [apply preserves_read_object|]. intros o2.
      destruct (type o2); try apply preserves_raise; apply preserves_exported_write_object.
    + apply preserves_bind; [apply preserves_read_object|]. intros o.
      apply preserves_bind; [by apply preserves_modify|]. intros _.
      apply preserves_exported_select_origin.
Qed.

Lemma preserves_exported_restore snap sel :
  preserves (λ st, exported st = ex) (restore_original_state snap sel).
Proof.
  apply preserves_bind.
  { apply preserves_for_each. intros obj _.
    apply preserves_bind; [apply preserves_read_object|]. intros o.
    apply preserves_bind.
    - case_decide; [|apply preserves_ret].
      destruct (original_vertices snap !! obj) as [original|]; [|apply preserves_ret].
      destruct (assign_vertices (vertices o) original) as [vs ok].
      apply preserves_bind; [apply preserves_exported_write_object|]. intros _.
      destruct ok; [apply preserves_ret | apply preserves_raise].
    - intros _. destruct (original_matrices snap !! obj);
        [apply preserves_exported_write_object | apply preserves_ret]. }
  intros _. apply preserves_bind.
  { apply preserves_for_each. intros item _.
    apply preserves_bind; [apply preserves_gets|]. intros objs.
    destruct (objs !! item.1); [apply preserves_exported_write_object|apply preserves_ret]. }
  intros _. by apply preserves_exported_host_call.
Qed.

(** The export phase of a non-batch OBJ export. *)
Lemma preserves_exported_single_obj scene sel :
  export_types scene = OBJ → batch_export scene = false →
  preserves (λ st, exported st = ex) (export_process scene sel).
Proof.
  intros Hformat Hbatch. unfold export_process. rewrite Hformat, Hbatch.
  apply preserves_bind; [apply preserves_gets|]. intros dirs.
  apply preserves_bind.
  { case_decide; [apply preserves_ret|by apply preserves_exported_host_call]. }
  intros _. apply preserves_bind; [by apply preserves_exported_host_call|].
  intros _. apply preserves_bind.
  { apply preserves_for_each. intros obj _. apply preserves_exported_write_object. }
  intros _. apply preserves_bind; [apply preserves_gets|]. intros a.
  apply preserves_bind.
  { case_decide; [apply preserves_ret|].
    destruct a; [apply preserves_ret | apply preserves_raise]. }
  intros base. apply preserves_exported_host_call. by eexists.
Qed.

End NoExport.

Lemma never_returns_bind_r {A B} (c : Py A) (k : A → Py B) :
  (∀ a, never_returns (k a)) → never_returns (bind c k).
Proof.
  intros Hk s b. unfold bind. destruct (c s) as [[a|e] s1]; [apply Hk|done].
Qed.

Lemma never_returns_try_finally {A} (c : Py A) (cleanup : Py unit) :
  never_returns c → never_returns (try_finally c cleanup).
Proof.
  intros Hc s a. unfold try_finally. specialize (Hc s).
  destruct (c s) as [r s1]. destruct (cleanup s1) as [[[]|e] s2]; simpl in *; auto.
Qed.

Lemma never_returns_single_obj `{!Host} scene sel :
  export_types scene = OBJ → batch_export scene = false →
  never_returns (try_body scene sel).
Proof.
  intros Hformat Hbatch. unfold try_body, export_process. rewrite Hformat, Hbatch.
  do 8 (apply never_returns_bind_r; intros ?).
  intros st r. unfold host_call. by cbn [unrecognized_keyword].
Qed.

(** C7, the single-file branch with the OBJ format: the exporter call
    of that branch is refused by the host, so however the run goes,
    [execute] writes no export file and does not return FINISHED. *)
Theorem single_obj_export_writes_no_file `{!Host} scene blend s0 :
  export_types scene = OBJ → batch_export scene = false →
  let out := execute scene blend s0 in
  exported out.2 = exported s0 ∧ out.1 ≠ Return FINISHED.
Proof.
  intros Hformat Hbatch out. subst out. split.
  - apply (preserves_bind (λ st, exported st = exported s0)); [| |done].
    { by apply preserves_exported_host_call. }
    intros _. apply preserves_bind; [apply preserves_gets|]. intros objs.
    destruct (filter_selection objs) as [|x l].
    { apply preserves_bind; [by apply preserves_modify|]. intros _. apply preserves_ret. }
    apply preserves_bind; [|intros _; apply preserves_ret].
    apply preserves_try_finally; [|apply preserves_exported_restore].
    apply preserves_bind; [apply preserves_exported_origin_handling|]. intros _.
    apply preserves_bind; [|intros _; by apply preserves_exported_single_obj].
    apply preserves_for_each. intros obj _. apply preserves_exported_write_object.
  - unfold execute. unfold bind at 1.
    destruct (host_call (wm_save_as_mainfile blend) s0) as [[[]|e] s1]; [|done].
    unfold bind at 1. unfold gets. cbn beta iota.
    destruct (filter_selection (objects s1)) as [|x l]; [done|].
    pose proof (never_returns_try_finally _
      (restore_original_state (store_original_state (objects s1) (x :: l)) (x :: l))
      (never_returns_single_obj scene (x :: l) Hformat Hbatch) s1) as Hnever.
    unfold bind.
    destruct (try_finally _ _ s1) as [[a|e] s2]; [by destruct (Hnever a)|done].
Qed.

(** ** Objects the snapshot misses *)

Section Zeroed.

Context `{!Host}.
Variable obj : string.

Lemma zeroed_alter f k s :
  (∀ o, location (f o) = location o) →
  zeroed obj s → zeroed obj (set_objects (alter f k (objects s)) s).
Proof.
  intros Hf Hs o. simpl. rewrite lookup_alter. case_decide; [subst|by auto].
  destruct (objects s !! obj) as [o'|] eqn:Ho'; simpl; [|done].
  intros [= <-]. rewrite Hf. by apply Hs.
Qed.

Lemma preserves_zeroed_write_object k f :
  (∀ o, location (f o) = location o) → preserves (zeroed obj) (write_object k f).
Proof. intros Hf. apply preserves_modify. intros s. by apply zeroed_alter. Qed.

(** Every host call except the two geometry operators. *)
Lemma preserves_zeroed_host_call c :
  c ≠ object_transform_apply_rotation_scale → c ≠ object_origin_set_CURSOR_MEDIAN →
  preserves (zeroed obj) (host_call c).
Proof.
  intros Hc1 Hc2 s Hs. unfold host_call.
  destruct (unrecognized_keyword c); [done|]. destruct (host_raises c s); [done|].
  cbn [snd]. assert (zeroed obj (add_call c s)) as Hs1 by exact Hs.
  revert Hs1. generalize (add_call c s). clear s Hs. intros s Hs.
  destruct c; simpl; try done.
  - intros o. simpl. rewrite lookup_fmap.
    destruct (objects s !! obj) as [o'|] eqn:Ho'; simpl; [|done].
    intros [= <-]. simpl. by apply Hs.
  - destruct (active s) as [a|]; [|done]. by apply zeroed_alter.
Qed.

Lemma preserves_zeroed_export_process scene sel :
  preserves (zeroed obj) (export_process scene sel).
Proof.
  unfold export_process.
  apply preserves_bind; [apply preserves_gets|]. intros dirs.
  apply preserves_bind.
  { case_decide; [apply preserves_ret | by apply preserves_zeroed_host_call]. }
  intros _. destruct (batch_export scene).
  - apply preserves_for_each. intros x _.
    apply preserves_bind; [by apply preserves_modify|]. intros _.
    apply preserves_bind; [by apply preserves_zeroed_host_call|]. intros _.
    apply preserves_bind; [by apply preserves_zeroed_write_object|]. intros _.
    destruct (export_types scene); by apply preserves_zeroed_host_call.
  - apply preserves_bind; [by apply preserves_zeroed_host_call|]. intros _.
    apply preserves_bind.
    { apply preserves_for_each. intros x _. by apply preserves_zeroed_write_object. }
    intros _. apply preserves_bind; [apply preserves_gets|]. intros a.
    apply preserves_bind.
    { case_decide; [apply preserves_ret|].
      destruct a; [apply preserves_ret | apply preserves_raise]. }
    intros base. destruct (export_types scene); by apply preserves_zeroed_host_call.
Qed.

Lemma preserves_zeroed_restore snap sel :
  original_matrices snap !! obj = None →
  original_empty_transforms snap !! obj = None →
  preserves (zeroed obj) (restore_original_state snap sel).
Proof.
  intros Hm He. apply preserves_bind.
  { apply preserves_for_each. intros x _.
    apply preserves_bind; [apply preserves_read_object|]. intros o.
    apply preserves_bind.
    - case_decide; [|apply preserves_ret].
      destruct (original_vertices snap !! x) as [original|]; [|apply preserves_ret].
      destruct (assign_vertices (vertices o) original) as [vs ok].
      apply preserves_bind; [by apply preserves_zeroed_write_object|]. intros _.
      destruct ok; [apply preserves_ret | apply preserves_raise].
    - intros _. destruct (original_matrices snap !! x);
        [by apply preserves_zeroed_write_object | apply preserves_ret]. }
  intros _. apply preserves_bind.
  { apply preserves_for_each. intros item _.
    apply preserves_bind; [apply preserves_gets|]. intros objs.
    destruct (objs !! item.1); [by apply preserves_zeroed_write_object|apply preserves_ret]. }
  intros _. by apply preserves_zeroed_host_call.
Qed.

Lemma preserves_present_write_object k f :
  preserves (λ st, is_Some (objects st !! obj)) (write_object k f).
Proof.
  apply preserves_modify. intros s [o Ho]. simpl. rewrite lookup_alter.
  case_decide; [subst|by eauto]. rewrite Ho. simpl. eauto.
Qed.

Lemma preserves_present_restore snap sel :
  preserves (λ st, is_Some (objects st !! obj)) (restore_original_state snap sel).
Proof.
  apply preserves_bind.
  { apply preserves_for_each. intros x _.
    apply preserves_bind; [apply preserves_read_object|]. intros o.
    apply preserves_bind.
    - case_decide; [|apply preserves_ret].
      destruct (original_vertices snap !! x) as [original|]; [|apply preserves_ret].
      destruct (assign_vertices (vertices o) original) as [vs ok].
      apply preserves_bind; [by apply preserves_present_write_object|]. intros _.
      destruct ok; [apply preserves_ret | apply preserves_raise].
    - intros _. destruct (original_matrices snap !! x);
        [by apply preserves_present_write_object | apply preserves_ret]. }
  intros _. apply preserves_bind.
  { apply preserves_for_each. intros item _.
    apply preserves_bind; [apply preserves_gets|]. intros objs.
    destruct (objs !! item.1);
      [by apply preserves_present_write_object|apply preserves_ret]. }
  intros _. intros s Hs. by rewrite host_call_objects_kept.
Qed.

End Zeroed.

(** C2, the objects it misses: a selected object that is neither a mesh
    nor an empty has no entry in any dictionary of the snapshot, yet its
    location is set to (0,0,0) with the others; when [execute] returns
    FINISHED the object is still there. *)
Theorem selected_non_mesh_left_at_zero `{!Host} `{!HostFrame} scene blend s0 obj o :
  host_raises (wm_save_as_mainfile blend) s0 = false →
  obj ∈ filter_selection (objects s0) →
  objects s0 !! obj = Some o → type o ≠ MESH →
  let snap := store_original_state (objects s0) (filter_selection (objects s0)) in
  let out := execute scene blend s0 in
  original_matrices snap !! obj = None ∧
  original_vertices snap !! obj = None ∧
  original_empty_transforms snap !! obj = None ∧
  (out.1 = Return FINISHED →
     ∃ o', objects out.2 !! obj = Some o' ∧ location o' = zero_vector).
Proof.
  intros Hsave Hobj Ho Hty snap out.
  assert (type o ≠ EMPTY) as Hty'.
  { apply elem_of_filter_selection in Hobj as (o' & Ho' & _ & ?). by simplify_eq. }
  assert (filter_selection (objects s0) ≠ []) as Hsel.
  { intros Hnil. rewrite Hnil in Hobj. by apply elem_of_nil in Hobj. }
  pose proof (store_original_state_sound (objects s0) (filter_selection (objects s0)))
    as (Hm & Hv & He).
  fold snap in Hm, Hv, He.
  assert (original_matrices snap !! obj = None) as Hnm.
  { destruct (original_matrices snap !! obj) as [m|] eqn:Hk; [|done].
    destruct (Hm _ _ Hk) as (o' & Ho' & ? & _). by simplify_eq. }
  assert (original_vertices snap !! obj = None) as Hnv.
  { destruct (original_vertices snap !! obj) as [m|] eqn:Hk; [|done].
    destruct (Hv _ _ Hk) as (o' & Ho' & ? & _). by simplify_eq. }
  assert (original_empty_transforms snap !! obj = None) as Hne.
  { destruct (original_empty_transforms snap !! obj) as [m|] eqn:Hk; [|done].
    destruct (He _ _ Hk) as (o' & Ho' & ? & _). by simplify_eq. }
  split_and!; [done|done|done|].
  subst out. rewrite (execute_reaches_try scene blend s0 Hsave Hsel). fold snap.
  set (sel := filter_selection (objects s0)) in *.
  set (s1 := add_call (wm_save_as_mainfile blend) s0).
  unfold bind at 1 2. unfold try_finally.
  destruct (try_body scene sel s1) as [r s2] eqn:Hbody.
  pose proof (preserves_zeroed_restore obj snap sel Hnm Hne s2) as Hzero3.
  pose proof (preserves_present_restore obj snap sel s2) as Hpresent3.
  destruct (restore_original_state snap sel s2) as [[[]|e] s3]; [|done].
  destruct r as [[]|e]; [|done]. intros _. cbn [fst snd] in *.
  assert (same_shape (objects s0) s2) as Hshape2.
  { pose proof (preserves_shape_try_body (objects s0) scene sel s1 eq_refl) as Hp.
    by rewrite Hbody in Hp. }
  destruct (shape_lookup_Some _ _ _ _ Hshape2 Ho) as (o2 & Ho2 & _).
  destruct Hpresent3 as [o3 Ho3]; [by eauto|].
  exists o3. split; [done|]. apply Hzero3; [|done].
  (* the object is at the origin when the export phase ends *)
  unfold try_body in Hbody. unfold bind at 1 in Hbody.
  destruct (origin_handling scene sel s1) as [[[]|e] sa]; [|done].
  unfold bind at 1 in Hbody.
  destruct (move_objects_to_zero_spec sel sa) as (sb & Hmove & Hzero & _).
  rewrite Hmove in Hbody.
  pose proof (preserves_zeroed_export_process obj scene sel sb) as Hexport.
  rewrite Hbody in Hexport. apply Hexport. intros ob Hob. by eapply Hzero.
Qed.

(** *** What the two branches export when the host accepts the calls *)

Lemma NoDup_only {A} (l : list A) x :
  NoDup l → (∀ y, y ∈ l ↔ y = x) → l = [x].
Proof.
  intros Hnd Hin. destruct l as [|a l].
  - assert (x ∈ @nil A) as Hx by (by apply Hin). by apply elem_of_nil in Hx.
  - assert (a = x) as -> by (apply Hin, list_elem_of_here).
    destruct l as [|b l]; [done|].
    assert (b = x) as -> by (apply Hin, list_elem_of_further, list_elem_of_here).
    apply NoDup_cons in Hnd as [Hnot _]. destruct Hnot. apply list_elem_of_here.
Qed.

Lemma context_selected_objects_NoDup (m : gmap string Object) :
  NoDup (context_selected_objects m).
Proof.
  unfold context_selected_objects.
  eapply sublist_NoDup; [apply (NoDup_fst_map_to_list m)|].
  apply fmap_sublist, sublist_filter.
Qed.

(** After [select_all(action='DESELECT')] and [obj.select_set(True)] the
    selection is that object. *)
Lemma context_selected_objects_only (m : gmap string Object) obj :
  is_Some (m !! obj) →
  context_selected_objects (alter (set_select true) obj (set_select false <$> m)) = [obj].
Proof.
  intros [o Ho]. apply NoDup_only; [apply context_selected_objects_NoDup|].
  intros k. rewrite elem_of_context_selected_objects. split.
  - intros (o' & Ho' & Hsel). apply selected_only in Ho'. rewrite Hsel in Ho'.
    symmetry in Ho'. by apply bool_decide_eq_true in Ho'.
  - intros ->. exists (set_select true (set_select false o)).
    by rewrite lookup_alter_eq, lookup_fmap, Ho.
Qed.

(** The batch branch: one exporter call and one file per object, named
    after the sanitized object name and the lower-case format, holding
    that object alone. *)
Lemma export_objects_files `{!Host} sel format directory um ut uc s :
  host_never_raises →
  (∀ obj, obj ∈ sel → is_Some (objects s !! obj)) →
  ∃ s', export_objects sel format directory um ut uc s = (Return tt, s') ∧
        exported s' = exported s ++
          map (λ obj, (path_join directory
                         (clean_name obj +:+ "." +:+ lower (export_format format)),
                       [obj])) sel ∧
        calls s' = calls s ++
          flat_map (λ obj,
            let p := path_join directory
                       (clean_name obj +:+ "." +:+ lower (export_format format)) in
            [ object_select_all_DESELECT;
              match format with
              | FBX => export_scene_fbx (fbx_kwargs p um ut uc)
              | OBJ => wm_obj_export (batch_obj_kwargs p)
              end ]) sel.
Proof.
  intros Hnever. revert s. unfold export_objects.
  induction sel as [|obj sel IH]; intros s Hin; cbn [for_each map flat_map].
  { exists s. by rewrite !app_nil_r. }
  destruct (Hin obj (list_elem_of_here _ _)) as [o Ho].
  set (p := path_join directory (clean_name obj +:+ "." +:+ lower (export_format format))).
  set (call := match format with
               | FBX => export_scene_fbx (fbx_kwargs p um ut uc)
               | OBJ => wm_obj_export (batch_obj_kwargs p)
               end).
  set (s1 := set_objects (alter (set_select true) obj (set_select false <$> objects s))
               (add_call object_select_all_DESELECT (set_active (Some obj) s))).
  set (s2 := add_exported (p, [obj]) (add_call call s1)).
  assert (∀ k : unit → Py unit,
    bind (bind (modify (set_active (Some obj))) (λ _,
            bind (host_call object_select_all_DESELECT) (λ _,
              bind (write_object obj (set_select true)) (λ _,
                match format with
                | FBX => host_call (export_scene_fbx (fbx_kwargs p um ut uc))
                | OBJ => host_call (wm_obj_export (batch_obj_kwargs p))
                end)))) k s = k tt s2) as Hstep.
  { intros k. unfold bind at 1 2. unfold modify at 1.
    unfold bind at 1. rewrite host_call_ok by done.
    unfold bind at 1. unfold write_object, modify.
    change (set_objects _ _) with s1.
    assert (host_call call s1 = (Return tt, s2)) as Hcall.
    { rewrite host_call_ok; [|done|by subst call; destruct format].
      subst s2 call. destruct format; simpl;
        by rewrite (context_selected_objects_only (objects s) obj) by eauto. }
    subst call. by destruct format; rewrite Hcall. }
  rewrite Hstep.
  destruct (IH s2) as (s' & Hrun & Hexp & Hcalls).
  { intros k Hk. destruct (Hin k (list_elem_of_further _ _ _ Hk)) as [ok Hok].
    assert (objects s2 = alter (set_select true) obj (set_select false <$> objects s))
      as -> by done.
    destruct (decide (obj = k)) as [->|Hne].
    - rewrite lookup_alter_eq, lookup_fmap, Hok. simpl. eauto.
    - rewrite lookup_alter_ne, lookup_fmap, Hok by done. simpl. eauto. }
  exists s'. split; [done|]. rewrite Hexp, Hcalls. subst s2 s1. simpl.
  by rewrite <- !app_assoc.
Qed.

(** The single-file branch with the FBX format: one exporter call and
    one file, named after [set_file_name] or, when that is empty, after
    the active object, holding the whole selection. *)
Lemma export_process_single_fbx `{!Host} scene sel s a :
  export_types scene = FBX → batch_export scene = false →
  host_never_raises → active s = Some a →
  let base := clean_name (if decide (set_file_name scene ≠ "")
                          then set_file_name scene else a) in
  let p := path_join (abspath (mesh_directory_path scene)) (base +:+ "." +:+ "fbx") in
  ∃ s' selected,
    export_process scene sel s = (Return tt, s') ∧
    exported s' = exported s ++ [(p, selected)] ∧
    selected = context_selected_objects (objects s') ∧
    ∀ obj, obj ∈ sel → is_Some (objects s !! obj) → obj ∈ selected.
Proof.
  intros Hformat Hbatch Hnever Ha base p.
  unfold export_process. rewrite Hformat, Hbatch.
  unfold bind at 1. unfold gets at 1. cbn beta iota.
  set (directory := abspath (mesh_directory_path scene)) in *.
  set (s1 := if decide (directory ∈ directories s) then s
             else host_effect (os_makedirs directory) (add_call (os_makedirs directory) s)).
  assert ((if decide (directory ∈ directories s) then ret tt
           else host_call (os_makedirs directory)) s = (Return tt, s1)) as Hdir.
  { subst s1. case_decide; [done|]. by apply host_call_ok. }
  assert (active s1 = active s ∧ exported s1 = exported s ∧ objects s1 = objects s)
    as (Hact1 & Hexp1 & Hobjs1).
  { subst s1. by case_decide. }
  clearbody s1. unfold bind at 1. rewrite Hdir.
  unfold bind at 1. rewrite host_call_ok by done.
  set (s2 := host_effect object_select_all_DESELECT
               (add_call object_select_all_DESELECT s1)).
  destruct (returns_for_each (λ st, active st = active s ∧ exported st = exported s ∧
                                    ∀ k, is_Some (objects st !! k) ↔ is_Some (objects s !! k))
              (λ obj st, ∀ o, objects st !! obj = Some o → select_get o = true)
              sel (λ obj, write_object obj (set_select true))) with (s := s2)
    as (s3 & Hsel & (Hact3 & Hexp3 & Hdom3) & Hdone & _).
  { intros x st _ (Hact & Hexp & Hdom). eexists. split_and!; [done|done|done| | |].
    - intros k. rewrite <- Hdom. simpl. destruct (decide (x = k)) as [->|Hne].
      + rewrite lookup_alter_eq. by rewrite !is_Some_alt; destruct (objects st !! k).
      + by rewrite lookup_alter_ne.
    - intros o. simpl. rewrite lookup_alter_eq.
      destruct (objects st !! x); intros; simplify_eq/=; done.
    - intros y Hy o. simpl. destruct (decide (x = y)) as [->|Hne].
      + rewrite lookup_alter_eq.
        destruct (objects st !! y) eqn:Hy'; intros; simplify_eq/=; done.
      + rewrite lookup_alter_ne by done. apply Hy. }
  { subst s2. simpl. split_and!; [done|done|]. intros k. rewrite lookup_fmap, Hobjs1.
    by rewrite !is_Some_alt; destruct (objects s !! k). }
  unfold bind at 1. rewrite Hsel.
  unfold bind at 1. unfold gets at 1. cbn beta iota. rewrite Hact3, Ha.
  assert ((if decide (set_file_name scene ≠ "") then ret (clean_name (set_file_name scene))
           else ret (clean_name a)) s3 = (Return base, s3)) as Hbase.
  { subst base. by destruct (decide (set_file_name scene ≠ "")). }
  unfold bind at 1. rewrite Hbase.
  rewrite host_call_ok by done.
  eexists _, (context_selected_objects (objects s3)). split_and!; [reflexivity| |done|].
  - cbn [host_effect exported add_exported add_call]. by rewrite Hexp3.
  - intros obj Hobj [o Ho]. apply elem_of_context_selected_objects.
    assert (is_Some (objects s3 !! obj)) as [o3 Ho3] by (apply Hdom3; eauto).
    exists o3. split; [done|]. by eapply Hdone.
Qed.

(** ** The small host keeps the conditions *)

Lemma simple_host_frame fails : @HostFrame (simple_host fails).
Proof.
  split.
  - intros objs. simpl. unfold simple_transform_apply.
    apply shape_fmap_fmap. intros o.
    destruct (select_get o && bool_decide (type o = MESH)); [|done].
    unfold shape. simpl. by rewrite length_map.
  - intros c objs. simpl. unfold simple_origin_set.
    apply shape_fmap_fmap. intros o. destruct (select_get o); [|done].
    unfold shape. simpl. by rewrite length_map.
Qed.

Lemma vshift_self c : vshift c c = zero_vector.
Proof.
  destruct c as [x y z]. unfold vshift, zero_vector. simpl.
  assert (∀ q : Q, Qred (q - q) = 0%Q) as Hq.
  { intros q. change 0%Q with (Qred 0). apply Qred_complete. ring. }
  by rewrite !Hq.
Qed.

Lemma vshift_zero_vshift d v : vshift zero_vector (vshift d v) = vshift d v.
Proof.
  unfold vshift, zero_vector. simpl.
  assert (∀ q : Q, Qred (Qred q - 0) = Qred q) as Hq.
  { intros q. apply Qred_complete. rewrite Qred_correct. ring. }
  by rewrite !Hq.
Qed.

Lemma simple_host_origin_set fails : @OriginSetContract (simple_host fails).
Proof.
  split; simpl; unfold simple_origin_set.
  - intros c objs k o Ho Hsel _. rewrite lookup_fmap, Ho. simpl. rewrite Hsel.
    eexists. split; [done|]. by destruct c.
  - intros c objs k o Ho Hsel. rewrite lookup_fmap, Ho. simpl. rewrite Hsel. eauto.
  - intros c objs. apply map_eq. intros k. rewrite !lookup_fmap.
    destruct (objs !! k) as [o|]; simpl; [|done].
    destruct (select_get o) eqn:Hsel; simpl; congruence.
  - intros c objs. apply map_eq. intros k. rewrite !lookup_fmap.
    destruct (objs !! k) as [o|]; simpl; [|done]. f_equal.
    destruct (select_get o) eqn:Hsel; simpl; [|by rewrite Hsel].
    destruct c as [cx cy cz]. unfold set_origin_translation, translation. simpl.
    f_equal. change (mkVector (Qred (cx - cx)) (Qred (cy - cy)) (Qred (cz - cz)))
      with (vshift (mkVector cx cy cz) (mkVector cx cy cz)).
    rewrite vshift_self, map_map. apply map_ext. intros v. apply vshift_zero_vshift.
Qed.

(** ** The theorems on the small document *)

Lemma never_fails_never_raises : @host_never_raises demo_host.
Proof. by intros c s. Qed.

(** An export of the cube: restored and the cursor recentred. *)
Lemma execute_restores_snapshot_witness :
  @host_raises demo_host (wm_save_as_mainfile demo_blend) demo_state = false ∧
  filter_selection (objects demo_state) ≠ [] ∧
  let out := @execute demo_host demo_scene demo_blend demo_state in
  (∃ o, objects out.2 !! "Cube.001" = Some o ∧
        vertices o = [mkVector 0 0 0; mkVector 2 4 6] ∧
        matrix_world o = at_point 1 2 3) ∧
  (∃ o, objects out.2 !! "Anchor" = Some o ∧ matrix_world o = at_point 2 2 3) ∧
  last (calls out.2) = Some view3d_snap_cursor_to_center ∧
  cursor_location out.2 = zero_vector.
Proof.
  split; [reflexivity|]. split; [by vm_compute|]. intros out.
  destruct (@execute_restores_snapshot demo_host (simple_host_frame _)
              demo_scene demo_blend demo_state)
    as (Hv & Hm & He & Hlast & Hcur & _); [reflexivity|by vm_compute|].
  destruct (Hv "Cube.001" [mkVector 0 0 0; mkVector 2 4 6]) as (o & Ho & Hov);
    [by vm_compute|].
  destruct (Hm "Cube.001" (at_point 1 2 3)) as (o' & Ho' & Hom); [by vm_compute|].
  destruct (He "Anchor" (at_point 2 2 3)) as (c & Hc & Hcm); [by vm_compute|].
  split_and!.
  - exists o. split_and!; [exact Ho|exact Hov|]. congruence.
  - exists c. by split.
  - exact Hlast.
  - by apply Hcur.
Defined.

(** C1 as stated fails on an invocation that is cancelled: with only the
    empty selected, [execute] returns CANCELLED, the restore phase does
    not run and the cursor stays where it was. *)
Lemma cancelled_run_skips_restore :
  let out := @execute demo_host demo_scene demo_blend demo_state_only_marker in
  out.1 = Return CANCELLED ∧
  calls out.2 = [wm_save_as_mainfile demo_blend] ∧
  cursor_location out.2 = mkVector 7 7 7 ∧
  cursor_location out.2 ≠ zero_vector.
Proof. by vm_compute. Qed.

Lemma execute_no_valid_objects_witness :
  @host_raises demo_host (wm_save_as_mainfile demo_blend) demo_state_only_marker = false ∧
  filter_selection (objects demo_state_only_marker) = [] ∧
  let out := @execute demo_host demo_scene demo_blend demo_state_only_marker in
  out.1 = Return CANCELLED ∧
  reports out.2 = [("ERROR", "No valid mesh objects to export.")] ∧
  objects out.2 = objects demo_state_only_marker ∧
  exported out.2 = [].
Proof.
  split; [reflexivity|]. split; [by vm_compute|]. intros out.
  destruct (@execute_no_valid_objects demo_host demo_scene demo_blend
              demo_state_only_marker)
    as (Hr & Hrep & Hobjs & _ & _ & _ & Hexp & _); [reflexivity|by vm_compute|].
  by split_and!.
Defined.

(** The curve selected with the cube: no entry, left at the origin. *)
Lemma selected_non_mesh_left_at_zero_witness :
  let snap := store_original_state (objects demo_state_with_curve)
                (filter_selection (objects demo_state_with_curve)) in
  let out := @execute demo_host demo_scene demo_blend demo_state_with_curve in
  (location <$> objects demo_state_with_curve !! "Path" = Some (mkVector 5 5 5)) ∧
  original_matrices snap !! "Path" = None ∧
  original_vertices snap !! "Path" = None ∧
  original_empty_transforms snap !! "Path" = None ∧
  out.1 = Return FINISHED ∧
  ∃ o', objects out.2 !! "Path" = Some o' ∧ location o' = zero_vector.
Proof.
  intros snap out.
  destruct (@selected_non_mesh_left_at_zero demo_host (simple_host_frame _) demo_scene
              demo_blend demo_state_with_curve "Path"
              (mkObject CURVE OBJECT None (mkVector 5 5 5) (at_point 5 5 5) [] true))
    as (Hm & Hv & He & Hloc);
    [reflexivity|apply (bool_decide_unpack _); by vm_compute|by vm_compute|done|].
  split_and!; [vm_compute; reflexivity|exact Hm|exact Hv|exact He
              |vm_compute; reflexivity|].
  apply Hloc. vm_compute. reflexivity.
Defined.

(** The single-file OBJ export of the cube. *)
Lemma single_obj_export_refused_witness :
  let out := @export_process demo_host demo_scene_obj ["Cube.001"] demo_state in
  out.1 = Raise (TypeError "export_trianguled_mesh") ∧ exported out.2 = [].
Proof.
  intros out.
  destruct (@single_obj_export_refused demo_host demo_scene_obj ["Cube.001"] demo_state)
    as (filepath & Hr & _ & _ & Hexp);
    [reflexivity|reflexivity|exact never_fails_never_raises
    |right; eexists; reflexivity|].
  split; [exact Hr|exact Hexp].
Defined.

Lemma single_obj_export_writes_no_file_witness :
  let out := @execute demo_host demo_scene_obj demo_blend demo_state in
  exported out.2 = [] ∧ out.1 ≠ Return FINISHED.
Proof.
  intros out.
  destruct (@single_obj_export_writes_no_file demo_host demo_scene_obj demo_blend
              demo_state) as [Hexp Hr]; [reflexivity|reflexivity|].
  split; [exact Hexp|exact Hr].
Defined.

(** The cube at (1,2,3) with vertices (0,0,0) and (2,4,6): the host
    moves the location into the vertices, (1,2,3) and (3,6,9); the
    function returns (2,4,3) and leaves the vertices (-1,-2,0) and
    (1,2,6).  On the mesh with the vertices (0.1,0.2,0.3) and
    (0.7,0.9,1.1) the least z is 0 as well, and the centre of the box is
    within the tolerance. *)
Lemma set_origin_at_bottom_spec_witness :
  (let out := @set_origin_at_bottom demo_host "Cube.001" demo_state in
   ∃ o2, out.1 = Return (mkVector 2 4 3) ∧
     objects out.2 !! "Cube.001" = Some o2 ∧
     vertices o2 = [mkVector (-1) (-2) 0; mkVector 1 2 6] ∧
     least (map vz (vertices o2)) 0 ∧
     ∀ lo' hi', least (map vx (vertices o2)) lo' → greatest (map vx (vertices o2)) hi' →
       (Qabs ((lo' + hi') / 2) <= centre_tolerance 1 3 2)%Q) ∧
  (let out := @set_origin_at_bottom demo_host "Plane" demo_state_decimal in
   ∃ o2, objects out.2 !! "Plane" = Some o2 ∧
     least (map vz (vertices o2)) 0 ∧
     ∀ lo' hi', least (map vx (vertices o2)) lo' → greatest (map vx (vertices o2)) hi' →
       (Qabs ((lo' + hi') / 2)
        <= centre_tolerance (float32 (1 # 10)) (float32 (7 # 10)) (13421773 # 33554432))%Q).
Proof.
  assert (∀ a b : Q, (a <= b)%Q → least [a; b] a ∧ greatest [a; b] b) as Hpair.
  { intros a b Hab. split; (split; [|repeat constructor; first [done|apply Qle_refl]]).
    - by apply Exists_cons_hd.
    - by apply Exists_cons_tl, Exists_cons_hd. }
  split; intros out.
  - destruct (@set_origin_at_bottom_spec demo_host (simple_host_frame _) "Cube.001"
                demo_state
                (mkObject MESH OBJECT None (mkVector 1 2 3) (at_point 1 2 3)
                   [mkVector 0 0 0; mkVector 2 4 6] true))
      as (o1 & o2 & s' & c & Ho1 & Hrun & Ho2 & _ & _ & _ & Hc & Hfloat);
      [exact never_fails_never_raises|reflexivity|reflexivity|].
    vm_compute in Ho1. injection Ho1 as <-.
    cbn [vertices map vx vy vz] in Hc, Hfloat.
    destruct (Hpair 1%Q 3%Q) as [Hx1 Hx2]; [done|].
    destruct (Hpair 2%Q 6%Q) as [Hy1 Hy2]; [done|].
    destruct (Hpair 3%Q 9%Q) as [Hz1 _]; [done|].
    assert (c = mkVector 2 4 3) as -> by (by rewrite (Hc _ _ _ _ _ Hx1 Hx2 Hy1 Hy2 Hz1)).
    destruct Hfloat as (Hvs & Hleast & Hcentre & _).
    { repeat constructor; by vm_compute. }
    exists o2. subst out. rewrite Hrun. split_and!.
    + reflexivity.
    + exact Ho2.
    + rewrite Hvs. reflexivity.
    + by apply Hleast.
    + intros lo' hi'. exact (Hcentre _ _ lo' hi' Hx1 Hx2).
  - destruct (@set_origin_at_bottom_spec demo_host (simple_host_frame _) "Plane"
                demo_state_decimal
                (mkObject MESH OBJECT None zero_vector (at_point 0 0 0)
                   [mkVector (float32 (1 # 10)) (float32 (2 # 10)) (float32 (3 # 10));
                    mkVector (float32 (7 # 10)) (float32 (9 # 10)) (float32 (11 # 10))]
                   true))
      as (o1 & o2 & s' & c & Ho1 & Hrun & Ho2 & _ & _ & _ & Hc & Hfloat);
      [exact never_fails_never_raises|reflexivity|reflexivity|].
    vm_compute in Ho1. injection Ho1 as <-.
    cbn [vertices map vx vy vz] in Hc, Hfloat.
    destruct (Hpair (13421773 # 134217728)%Q (11744051 # 16777216)%Q) as [Hx1 Hx2]; [done|].
    destruct (Hpair (13421773 # 67108864)%Q (7549747 # 8388608)%Q) as [Hy1 Hy2]; [done|].
    destruct (Hpair (5033165 # 16777216)%Q (9227469 # 8388608)%Q) as [Hz1 _]; [done|].
    assert (c = mkVector (13421773 # 33554432) (9227469 # 16777216) (5033165 # 16777216))
      as -> by (by rewrite (Hc _ _ _ _ _ Hx1 Hx2 Hy1 Hy2 Hz1)).
    destruct Hfloat as (_ & Hleast & Hcentre & _).
    { repeat constructor; by vm_compute. }
    exists o2. subst out. rewrite Hrun. split_and!.
    + exact Ho2.
    + by apply Hleast.
    + intros lo' hi'. exact (Hcentre _ _ lo' hi' Hx1 Hx2).
Defined.

(** C5 as stated fails on floats: on the mesh with the vertices
    (0.1,0.2,0.3) and (0.7,0.9,1.1) the centre of the box is computed as
    0.4 and 0.55 in single precision, and after the move the box
    [obj.bound_box] has its least z at 0 but its centre at
    (-2^-26, -2^-25). *)
Lemma set_origin_at_bottom_centre_off :
  let out := @set_origin_at_bottom demo_host "Plane" demo_state_decimal in
  ∃ o2, out.1 = Return (mkVector (13421773 # 33554432) (9227469 # 16777216)
                                 (5033165 # 16777216)) ∧
    objects out.2 !! "Plane" = Some o2 ∧
    let bb := bound_box o2 in
    (py_min (map (λ point, vindex point 2) bb) == 0)%Q ∧
    ((bb_at bb 0 0 + bb_at bb 6 0) / 2 == -1 # 67108864)%Q ∧
    ((bb_at bb 0 1 + bb_at bb 2 1) / 2 == -1 # 33554432)%Q ∧
    ¬ ((bb_at bb 0 0 + bb_at bb 6 0) / 2 == 0)%Q.
Proof.
  eexists. split; [by vm_compute|]. split; [by vm_compute|]. by vm_compute.
Qed.

(** The cube with its child empty, on the scene as the add-on registers
    it. *)
Lemma process_obj_marker_raises_witness :
  @process_obj demo_host demo_scene_custom "Cube.001" demo_state
  = (Raise (AttributeError "selected_empty"), demo_state).
Proof.
  apply (@process_obj_marker_raises demo_host demo_scene_custom "Cube.001" demo_state
           (mkObject MESH OBJECT None (mkVector 1 2 3) (at_point 1 2 3)
              [mkVector 0 0 0; mkVector 2 4 6] true) "Anchor");
    [reflexivity|reflexivity|reflexivity| |reflexivity].
  apply (bool_decide_unpack _). by vm_compute.
Defined.

(** The cube with its child empty: under [custom_origin] on the add-on
    as registered the body of the [try] raises and the cube stays at
    (1,2,3), as it does with no flag set on a host that refuses to set
    the origin; with no flag set it is at (0,0,0) when the export starts,
    after one deselect-all and one origin-set; with both flags set no
    transform is applied; with [origin_at_bottom] alone no origin is set
    at the cursor. *)
Lemma one_origin_policy_then_zero_witness :
  (@try_body demo_host demo_scene_custom ["Cube.001"] demo_state
     = (Raise (AttributeError "selected_empty"), demo_state) ∧
   location <$> objects demo_state !! "Cube.001" = Some (mkVector 1 2 3)) ∧
  (∃ s1, @try_body (simple_host fails_on_origin_set) demo_scene ["Cube.001"] demo_state
           = (Raise (RuntimeError object_origin_set_CURSOR_MEDIAN), s1) ∧
         location <$> objects s1 !! "Cube.001" = Some (mkVector 1 2 3)) ∧
  (∃ s2, @try_body demo_host demo_scene ["Cube.001"] demo_state
           = @export_process demo_host demo_scene ["Cube.001"] s2 ∧
         ∃ o, objects s2 !! "Cube.001" = Some o ∧ location o = zero_vector) ∧
  calls (@origin_handling demo_host demo_scene ["Cube.001"] demo_state).2
    = [object_select_all_DESELECT; object_origin_set_CURSOR_MEDIAN] ∧
  Forall (λ c, c = object_select_all_DESELECT ∨ c = object_origin_set_CURSOR_MEDIAN)
    (calls (@origin_handling demo_host demo_scene_both_flags ["Cube.001"] demo_state).2) ∧
  Forall (λ c, c = object_mode_set_OBJECT ∨ c = object_transform_apply_rotation_scale)
    (calls (@origin_handling demo_host demo_scene_bottom ["Cube.001"] demo_state).2).
Proof.
  assert (∀ obj, obj ∈ ["Cube.001"] → is_Some (objects demo_state !! obj)) as Hin.
  { intros obj ->%list_elem_of_singleton. by eexists. }
  split_and!.
  - destruct (@one_origin_policy_then_zero demo_host (simple_host_frame _)
                demo_scene_custom ["Cube.001"] demo_state Hin) as (_ & _ & _ & Hbug).
    apply Hbug; [reflexivity|reflexivity|].
    apply (bool_decide_unpack _). by vm_compute.
  - reflexivity.
  - destruct (@one_origin_policy_then_zero (simple_host fails_on_origin_set)
                (simple_host_frame _) demo_scene ["Cube.001"] demo_state Hin)
      as (_ & _ & Hraise & _).
    eexists. split; [exact (Hraise _ _ eq_refl)|reflexivity].
  - destruct (@one_origin_policy_then_zero demo_host (simple_host_frame _)
                demo_scene ["Cube.001"] demo_state Hin)
      as (_ & Hzero & _).
    destruct (Hzero _ eq_refl) as (s2 & Hrun & Hloc).
    exists s2. split; [exact Hrun|]. apply Hloc, list_elem_of_here.
  - destruct (@one_origin_policy_then_zero demo_host (simple_host_frame _)
                demo_scene ["Cube.001"] demo_state Hin)
      as ((issued & Hcalls & _ & _ & Hdefault) & _).
    destruct (Hdefault eq_refl eq_refl) as [_ Hissued].
    rewrite Hcalls, (Hissued eq_refl). reflexivity.
  - destruct (@one_origin_policy_then_zero demo_host (simple_host_frame _)
                demo_scene_both_flags ["Cube.001"] demo_state Hin)
      as ((issued & Hcalls & Hcustom & _) & _).
    destruct (Hcustom eq_refl) as [Hall _]. rewrite Hcalls. exact Hall.
  - destruct (@one_origin_policy_then_zero demo_host (simple_host_frame _)
                demo_scene_bottom ["Cube.001"] demo_state Hin)
      as ((issued & Hcalls & _ & Hbottom & _) & _).
    rewrite Hcalls. exact (Hbottom eq_refl eq_refl).
Defined.


Lemma custom_origin_without_selected_empty_witness :
  custom_origin demo_scene_custom = true ∧
  other_properties demo_scene_custom !! "selected_empty" = None ∧
  let out := @execute demo_host demo_scene_custom demo_blend demo_state in
  calls out.2 = [wm_save_as_mainfile demo_blend; view3d_snap_cursor_to_center] ∧
  out.1 = Raise (AttributeError "selected_empty").
Proof.
  split; [reflexivity|]. split; [reflexivity|]. intros out.
  destruct (@custom_origin_without_selected_empty demo_host demo_scene_custom demo_blend
              demo_state) as (_ & _ & Hrun); [reflexivity..|by vm_compute|].
  destruct Hrun as [Hcalls Hres].
  { apply (bool_decide_unpack _). by vm_compute. }
  split; [exact Hcalls|]. apply Hres. reflexivity.
Defined.

(** C10 as stated fails on a mesh without a child empty: with the
    custom-origin flag set and no [selected_empty] on the scene, nothing
    is raised and the export finishes. *)
Lemma custom_origin_without_marker_finishes :
  custom_origin demo_scene_custom = true ∧
  other_properties demo_scene_custom !! "selected_empty" = None ∧
  let out := @execute demo_host demo_scene_custom demo_blend demo_state_no_marker in
  out.1 = Return FINISHED ∧
  exported out.2 = [("/tmp/out/Cube_001.fbx", ["Cube.001"])].
Proof. by vm_compute. Qed.

(** * Further properties of the add-on *)

(** ** Invariants of a whole run

    An invariant of the states that every host call and every attribute
    write of the add-on keeps is kept by each of its functions. *)

Section WalkRestore.

Context `{!Host}.
Variable P : State → Prop.
Hypothesis P_snap : preserves P (host_call view3d_snap_cursor_to_center).
Hypothesis P_vertices : ∀ obj vs, preserves P (write_object obj (set_vertices vs)).
Hypothesis P_matrix : ∀ obj m, preserves P (write_object obj (set_matrix_world m)).

Lemma walk_restore_object snap obj : preserves P (restore_object snap obj).
Proof.
  apply preserves_bind; [apply preserves_read_object|]. intros o.
  apply preserves_bind.
  - case_decide; [|apply preserves_ret].
    destruct (original_vertices snap !! obj) as [original|]; [|apply preserves_ret].
    destruct (assign_vertices (vertices o) original) as [vs ok].
    apply preserves_bind; [apply P_vertices|]. intros _.
    destruct ok; [apply preserves_ret | apply preserves_raise].
  - intros _. destruct (original_matrices snap !! obj);
      [apply P_matrix | apply preserves_ret].
Qed.

Lemma walk_restore_empty item : preserves P (restore_empty item).
Proof.
  apply preserves_bind; [apply preserves_gets|]. intros objs.
  destruct (objs !! item.1); [apply P_matrix | apply preserves_ret].
Qed.

Lemma walk_restore_original_state snap sel :
  preserves P (restore_original_state snap sel).
Proof.
  apply preserves_bind.
  { apply preserves_for_each. intros obj _. apply walk_restore_object. }
  intros _. apply preserves_bind; [|intros _; apply P_snap].
  apply preserves_for_each. intros item _. apply walk_restore_empty.
Qed.

End WalkRestore.

Section Walk.

Context `{!Host}.
Variable P : State → Prop.
Hypothesis P_call : ∀ c, inner_call c → preserves P (host_call c).
Hypothesis P_select : ∀ obj b, preserves P (write_object obj (set_select b)).
Hypothesis P_location : ∀ obj v, preserves P (write_object obj (set_location v)).
Hypothesis P_vertices : ∀ obj g, preserves P (write_object obj (λ o, set_vertices (g o) o)).
Hypothesis P_matrix : ∀ obj m, preserves P (write_object obj (set_matrix_world m)).
Hypothesis P_active : ∀ a, preserves P (modify (set_active a)).
Hypothesis P_cursor : ∀ v, preserves P (modify (set_cursor_location v)).

Lemma walk_data_transform obj m : preserves P (data_transform obj m).
Proof.
  apply preserves_bind; [apply preserves_read_object|]. intros o.
  destruct (type o); try apply preserves_raise;
    apply (P_vertices obj (λ o, map (transform_point m) (vertices o))).
Qed.

Lemma walk_set_origin_at_bottom obj : preserves P (set_origin_at_bottom obj).
Proof.
  apply preserves_bind; [apply preserves_read_object|]. intros o.
  apply preserves_bind.
  { case_decide; [by apply P_call | apply preserves_ret]. }
  intros _. apply preserves_bind; [by apply P_call|]. intros _.
  apply preserves_bind; [apply preserves_read_object|]. intros o1.
  apply preserves_bind; [apply walk_data_transform|]. intros _.
  apply preserves_ret.
Qed.

Lemma walk_process_obj scene obj : preserves P (process_obj scene obj).
Proof.
  apply preserves_bind; [apply preserves_read_object|]. intros o.
  case_decide; [apply preserves_ret|].
  apply preserves_bind; [apply preserves_gets|]. intros objs.
  destruct (find_custom_empty scene objs (children objs obj)) as [[ce|]|e];
    [|apply preserves_ret|apply preserves_raise].
  apply preserves_bind; [apply preserves_read_object|]. intros c.
  apply preserves_bind; [apply P_cursor|]. intros _.
  apply preserves_bind; [by apply P_call|]. intros _.
  apply preserves_bind; [apply P_select|]. intros _.
  apply preserves_bind; [apply P_active|]. intros _.
  by apply P_call.
Qed.

Lemma walk_set_origin_to_custom objs scene : preserves P (set_origin_to_custom objs scene).
Proof.
  assert (preserves P (process_objects scene objs)) as Hpass.
  { destruct objs as [l|obj]; simpl; [|apply walk_process_obj].
    apply preserves_for_each. intros obj _. apply walk_process_obj. }
  apply preserves_bind; [done|]. by intros _.
Qed.

Lemma walk_origin_to_object_location obj : preserves P (origin_to_object_location obj).
Proof.
  apply preserves_bind; [apply preserves_read_object|]. intros o.
  apply preserves_bind; [apply P_cursor|]. intros _.
  apply preserves_bind; [by apply P_call|]. intros _.
  apply preserves_bind; [apply P_select|]. intros _.
  apply preserves_bind; [apply P_active|]. intros _.
  by apply P_call.
Qed.

Lemma walk_origin_handling scene sel : preserves P (origin_handling scene sel).
Proof.
  unfold origin_handling. destruct (custom_origin scene).
  - apply walk_set_origin_to_custom.
  - destruct (origin_at_bottom scene); apply preserves_for_each; intros obj _.
    + apply preserves_bind; [apply walk_set_origin_at_bottom|].
      intros _. apply preserves_ret.
    + apply walk_origin_to_object_location.
Qed.

Lemma walk_export_objects sel format directory um ut uc :
  preserves P (export_objects sel format directory um ut uc).
Proof.
  apply preserves_for_each. intros obj _.
  apply preserves_bind; [apply P_active|]. intros _.
  apply preserves_bind; [by apply P_call|]. intros _.
  apply preserves_bind; [apply P_select|]. intros _.
  destruct format; by apply P_call.
Qed.

Lemma walk_export_process scene sel : preserves P (export_process scene sel).
Proof.
  unfold export_process.
  apply preserves_bind; [apply preserves_gets|]. intros dirs.
  apply preserves_bind.
  { case_decide; [apply preserves_ret | by apply P_call]. }
  intros _. destruct (batch_export scene); [apply walk_export_objects|].
  apply preserves_bind; [by apply P_call|]. intros _.
  apply preserves_bind.
  { apply preserves_for_each. intros obj _. apply P_select. }
  intros _. apply preserves_bind; [apply preserves_gets|]. intros a.
  apply preserves_bind.
  { case_decide; [apply preserves_ret|].
    destruct a; [apply preserves_ret | apply preserves_raise]. }
  intros base. destruct (export_types scene); by apply P_call.
Qed.

Lemma walk_try_body scene sel : preserves P (try_body scene sel).
Proof.
  apply preserves_bind; [apply walk_origin_handling|]. intros _.
  apply preserves_bind; [|intros _; apply walk_export_process].
  apply preserves_for_each. intros obj _. apply P_location.
Qed.

(** The [try] statement of [execute] with its [finally] block. *)
Lemma walk_try_finally scene sel snap :
  preserves P (try_finally (try_body scene sel) (restore_original_state snap sel)).
Proof.
  apply preserves_try_finally; [apply walk_try_body|].
  apply walk_restore_original_state; [by apply P_call| |apply P_matrix].
  intros obj vs. apply (P_vertices obj (λ _, vs)).
Qed.

Lemma walk_manipulate_origin sel scene : preserves P (manipulate_origin sel scene).
Proof.
  apply preserves_bind; [by apply P_call|]. intros _.
  apply preserves_for_each. intros obj _.
  apply preserves_bind; [apply P_select|]. intros _.
  apply preserves_bind; [apply P_active|]. intros _.
  apply preserves_bind.
  { destruct (origin_at_bottom scene).
    - apply preserves_bind; [apply walk_set_origin_at_bottom|].
      intros _. apply preserves_ret.
    - destruct (selected_empty scene) as [name|e]; [|apply preserves_raise].
      case_decide; [apply walk_set_origin_to_custom|].
      apply preserves_bind; [apply preserves_read_object|]. intros o.
      apply preserves_bind; [apply P_cursor|]. intros _. by apply P_call. }
  intros _. apply preserves_bind; [apply P_location|]. intros _. apply P_select.
Qed.

End Walk.

(** ** The outcome and the host calls of [execute] *)

Lemma host_call_reports `{!Host} c s : reports (host_call c s).2 = reports s.
Proof.
  unfold host_call. destruct (unrecognized_keyword c); [done|].
  destruct (host_raises c s); [done|]. simpl.
  destruct c; simpl; try done. by destruct (active s).
Qed.

Lemma filter_selection_nil (objs : gmap string Object) :
  filter_selection objs = [] ↔
  ∀ k o, objs !! k = Some o → select_get o = true → type o = EMPTY.
Proof.
  split.
  - intros Hnil k o Ho Hsel. destruct (decide (type o = EMPTY)) as [|Hty]; [done|].
    assert (k ∈ filter_selection objs) as Hin by (apply elem_of_filter_selection; eauto).
    rewrite Hnil in Hin. by apply elem_of_nil in Hin.
  - intros Hall. destruct (filter_selection objs) as [|k l] eqn:Hsel; [done|].
    assert (k ∈ filter_selection objs) as Hin by (rewrite Hsel; apply list_elem_of_here).
    apply elem_of_filter_selection in Hin as (o & Ho & Hs & Hty).
    destruct Hty. by eapply Hall.
Qed.

(** The run of [execute] once the document is saved and the selection
    holds an object that is not an empty. *)
Lemma execute_try_run `{!Host} scene blend s0 :
  host_raises (wm_save_as_mainfile blend) s0 = false →
  filter_selection (objects s0) ≠ [] →
  let sel := filter_selection (objects s0) in
  let run := try_finally (try_body scene sel)
               (restore_original_state (store_original_state (objects s0) sel) sel)
               (add_call (wm_save_as_mainfile blend) s0) in
  execute scene blend s0 =
    (match run.1 with Return _ => Return FINISHED | Raise e => Raise e end, run.2).
Proof.
  intros Hsave Hsel sel run.
  rewrite (execute_reaches_try scene blend s0 Hsave Hsel). subst run sel.
  unfold bind. by destruct (try_finally _ _ _) as [[a|e] s2].
Qed.

Lemma execute_save_raises `{!Host} scene blend s0 :
  host_raises (wm_save_as_mainfile blend) s0 = true →
  execute scene blend s0 =
    (Raise (RuntimeError (wm_save_as_mainfile blend)),
     add_call (wm_save_as_mainfile blend) s0).
Proof.
  intros Hsave. unfold execute. unfold bind at 1. unfold host_call. simpl.
  by rewrite Hsave.
Qed.

Lemma execute_cancelled_run `{!Host} scene blend s0 :
  host_raises (wm_save_as_mainfile blend) s0 = false →
  filter_selection (objects s0) = [] →
  execute scene blend s0 =
    (Return CANCELLED,
     add_report ("ERROR", "No valid mesh objects to export.")
       (add_call (wm_save_as_mainfile blend) s0)).
Proof.
  intros Hsave Hsel. unfold execute. unfold bind at 1. unfold host_call. simpl.
  rewrite Hsave. unfold bind at 1. unfold gets. simpl. by rewrite Hsel.
Qed.

(** X1: the document is saved exactly once in a run, before anything
    else: the first host call of [execute] saves the document under its
    own path, and no later call of the run is a save.  When that save
    fails, [execute] raises at once and has touched nothing. *)
Theorem execute_saves_once `{!Host} scene blend s0 :
  let out := execute scene blend s0 in
  (∃ rest, calls out.2 = calls s0 ++ wm_save_as_mainfile blend :: rest ∧
           Forall inner_call rest) ∧
  (host_raises (wm_save_as_mainfile blend) s0 = true →
     out = (Raise (RuntimeError (wm_save_as_mainfile blend)),
            add_call (wm_save_as_mainfile blend) s0)).
Proof.
  intros out.
  destruct (host_raises (wm_save_as_mainfile blend) s0) eqn:Hsave.
  { assert (out = (Raise (RuntimeError (wm_save_as_mainfile blend)),
                   add_call (wm_save_as_mainfile blend) s0)) as ->.
    { by apply execute_save_raises. }
    split; [|done]. exists []. by split. }
  split; [|done].
  destruct (filter_selection (objects s0)) as [|x l] eqn:Hsel.
  { subst out. rewrite (execute_cancelled_run scene blend s0 Hsave Hsel).
    exists []. by split. }
  assert (filter_selection (objects s0) ≠ []) as Hne by (by rewrite Hsel).
  subst out. rewrite (execute_try_run scene blend s0 Hsave Hne). cbn [snd].
  set (P := λ st : State, ∃ rest,
              calls st = calls s0 ++ wm_save_as_mainfile blend :: rest ∧
              Forall inner_call rest).
  apply (walk_try_finally P).
  - intros c Hc s (rest & Hcalls & Hrest). exists (rest ++ [c]).
    rewrite host_call_calls, Hcalls. split; [by rewrite <- app_assoc|].
    apply Forall_app. split; [done|]. by apply Forall_singleton.
  - by intros obj b s.
  - by intros obj v s.
  - by intros obj g s.
  - by intros obj m s.
  - by intros a s.
  - by intros v s.
  - exists []. by split.
Qed.

(** X2: [execute] returns CANCELLED exactly when the document could be
    saved and every selected object is an empty (or nothing is selected);
    it reports an error in that case and makes no report otherwise. *)
Theorem execute_cancels_iff `{!Host} scene blend s0 :
  let out := execute scene blend s0 in
  (out.1 = Return CANCELLED ↔
     host_raises (wm_save_as_mainfile blend) s0 = false ∧
     ∀ k o, objects s0 !! k = Some o → select_get o = true → type o = EMPTY) ∧
  (out.1 = Return CANCELLED →
     reports out.2 = reports s0 ++ [("ERROR", "No valid mesh objects to export.")]) ∧
  (out.1 ≠ Return CANCELLED → reports out.2 = reports s0).
Proof.
  intros out.
  destruct (host_raises (wm_save_as_mainfile blend) s0) eqn:Hsave.
  { subst out. rewrite (execute_save_raises scene blend s0 Hsave). cbn [fst snd].
    split_and!; [|done|done]. split; [done|]. by intros [? _]. }
  destruct (filter_selection (objects s0)) as [|x l] eqn:Hsel.
  { subst out. rewrite (execute_cancelled_run scene blend s0 Hsave Hsel).
    cbn [fst snd reports add_report add_call].
    split_and!; [|done|done]. split; [|done]. intros _. split; [done|].
    by apply filter_selection_nil. }
  assert (filter_selection (objects s0) ≠ []) as Hne by (by rewrite Hsel).
  assert (¬ ∀ k o, objects s0 !! k = Some o → select_get o = true → type o = EMPTY)
    as Hnot.
  { intros Hall. by apply filter_selection_nil in Hall. }
  subst out. rewrite (execute_try_run scene blend s0 Hsave Hne). cbn [fst snd].
  set (run := try_finally _ _ _).
  assert (reports run.2 = reports s0) as Hrep.
  { subst run. apply (walk_try_finally (λ st, reports st = reports s0)).
    - intros c _ s Hs. by rewrite host_call_reports.
    - by intros obj b s.
    - by intros obj v s.
    - by intros obj g s.
    - by intros obj m s.
    - by intros a s.
    - by intros v s.
    - done. }
  assert (match run.1 with
          | Return _ => Return FINISHED
          | Raise e => Raise e
          end ≠ Return CANCELLED) as Hres.
  { by destruct run.1. }
  split_and!; [|done|done]. split; [done|]. by intros [_ ?].
Qed.

Lemma restore_original_state_shape `{!Host} objs0 sel s :
  same_shape objs0 s → (∀ obj, obj ∈ sel → is_Some (objs0 !! obj)) →
  same_shape objs0
    (restore_original_state (store_original_state objs0 sel) sel s).2.
Proof.
  intros Hshape Hsel.
  pose proof (store_original_state_sound objs0 sel) as Hsound.
  revert s Hshape. apply preserves_bind.
  { apply preserves_for_each. intros x Hx st Hst.
    destruct (restore_object_spec objs0 _ x st Hsound Hst (Hsel x Hx))
      as (st' & Hrun & Hst' & _). by rewrite Hrun. }
  intros _. apply preserves_bind.
  { apply preserves_for_each. intros item Hitem st Hst.
    apply elem_of_map_to_list' in Hitem.
    destruct (restore_empty_spec objs0 _ item st Hsound Hst Hitem)
      as (st' & Hrun & Hst' & _). by rewrite Hrun. }
  intros _ st Hst. unfold same_shape.
  by rewrite (host_call_objects_kept view3d_snap_cursor_to_center st (λ _, eq_refl)).
Qed.

(** X3: whatever the settings and whether it returns or raises, a run of
    [execute] creates and deletes no object and changes neither the type,
    the parent nor the number of vertices of any object, on a host whose
    two geometry operators do not. *)
Theorem execute_keeps_shape `{!Host} `{!HostFrame} scene blend s0 :
  shape <$> objects (execute scene blend s0).2 = shape <$> objects s0.
Proof.
  destruct (host_raises (wm_save_as_mainfile blend) s0) eqn:Hsave.
  { by rewrite (execute_save_raises scene blend s0 Hsave). }
  destruct (filter_selection (objects s0)) as [|x l] eqn:Hsel.
  { by rewrite (execute_cancelled_run scene blend s0 Hsave Hsel). }
  assert (filter_selection (objects s0) ≠ []) as Hne by (by rewrite Hsel).
  rewrite (execute_try_run scene blend s0 Hsave Hne). cbn [snd].
  rewrite try_finally_state.
  apply (restore_original_state_shape (objects s0)).
  - by apply preserves_shape_try_body.
  - intros obj Hobj. apply elem_of_filter_selection in Hobj as (o & -> & _). eauto.
Qed.


(** ** What the snapshot holds *)

Lemma store_empties_keys (objs : gmap string Object) cs snap k :
  is_Some (original_empty_transforms (foldl (store_empty objs) snap cs) !! k) →
  k ∈ cs ∨ is_Some (original_empty_transforms snap !! k).
Proof.
  revert snap. induction cs as [|c cs IH]; intros snap; simpl; [tauto|].
  intros Hk. destruct (IH _ Hk) as [Hin|Hc]; [left; by apply list_elem_of_further|].
  unfold store_empty in Hc. destruct (objs !! c) as [oc|]; [|tauto].
  case_decide; [|tauto]. simpl in Hc.
  destruct (decide (c = k)) as [->|Hne]; [left; apply list_elem_of_here|].
  rewrite lookup_insert_ne in Hc by done. tauto.
Qed.

Lemma store_objects_empty_keys (objs : gmap string Object) sel snap k :
  is_Some (original_empty_transforms (foldl (store_object objs) snap sel) !! k) →
  (∃ obj, obj ∈ sel ∧ is_Some (objs !! obj) ∧ k ∈ children objs obj) ∨
  is_Some (original_empty_transforms snap !! k).
Proof.
  revert snap. induction sel as [|x sel IH]; intros snap; simpl; [tauto|].
  intros Hk. destruct (IH _ Hk) as [(obj & Hin & Hobj & Hch)|Hx].
  { left. exists obj. split_and!; [by apply list_elem_of_further|done|done]. }
  unfold store_object in Hx. destruct (objs !! x) as [o|] eqn:Ho; [|tauto].
  apply store_empties_keys in Hx as [Hin|Hx].
  { left. exists x. split_and!; [apply list_elem_of_here|by rewrite Ho|done]. }
  right. by case_decide.
Qed.

(** X5: the snapshot of [execute] holds a world matrix and a vertex list
    for exactly the meshes of the filtered selection, and a world matrix
    for exactly the objects of type EMPTY that are children of an object
    of that selection, whatever the type of the parent; each entry is the
    current value of the object.  A selected object that is not a mesh
    has no entry of its own. *)
Theorem snapshot_domain (objs : gmap string Object) sel :
  let snap := store_original_state objs sel in
  (∀ k m, original_matrices snap !! k = Some m ↔
     k ∈ sel ∧ ∃ o, objs !! k = Some o ∧ type o = MESH ∧ m = matrix_world o) ∧
  (∀ k vs, original_vertices snap !! k = Some vs ↔
     k ∈ sel ∧ ∃ o, objs !! k = Some o ∧ type o = MESH ∧ vs = vertices o) ∧
  (∀ k m, original_empty_transforms snap !! k = Some m ↔
     (∃ obj, obj ∈ sel ∧ is_Some (objs !! obj) ∧ k ∈ children objs obj) ∧
     ∃ c, objs !! k = Some c ∧ type c = EMPTY ∧ m = matrix_world c).
Proof.
  intros snap.
  destruct (store_original_state_sound objs sel) as (Hm & Hv & He).
  destruct (snapshot_covers_selection objs sel) as [Hmesh Hempty].
  fold snap in Hm, Hv, He, Hmesh, Hempty.
  assert (∀ k, is_Some (original_vertices snap !! k) ∨
               is_Some (original_matrices snap !! k) → k ∈ sel) as Hkeys.
  { intros k Hk. apply store_objects_keys in Hk as [Hk|[Hk|Hk]]; [done| |];
      simpl in Hk; rewrite lookup_empty in Hk; by destruct Hk. }
  split_and!.
  - intros k m. split.
    + intros Hk. split; [apply Hkeys; right; by eexists|]. by apply Hm.
    + intros (Hin & o & Ho & Hty & ->). by destruct (Hmesh k o Hin Ho Hty).
  - intros k vs. split.
    + intros Hk. split; [apply Hkeys; left; by eexists|]. by apply Hv.
    + intros (Hin & o & Ho & Hty & ->). by destruct (Hmesh k o Hin Ho Hty).
  - intros k m. split.
    + intros Hk. split; [|by apply He].
      destruct (store_objects_empty_keys objs sel (mkSnapshot ∅ ∅ ∅) k) as [Hp|Hp];
        [by eexists|done|].
      simpl in Hp. rewrite lookup_empty in Hp. by destruct Hp.
    + intros ((obj & Hin & Hobj & Hch) & c & Hc & Hty & ->). by eapply Hempty.
Qed.

(** ** The restore phase when the number of vertices has changed *)

Lemma assign_vertices_spec current original :
  assign_vertices current original =
    (take (length current) original ++ drop (length original) current,
     bool_decide (length current ≤ length original)).
Proof.
  revert original. induction current as [|v current IH]; intros [|co original];
    cbn [assign_vertices length take drop app]; try done.
  rewrite IH. f_equal.
  apply bool_decide_ext. lia.
Qed.

(** [restore_object] on a mesh whose vertex list is stored, up to the
    assignment of the world matrix. *)
Lemma restore_object_mesh_run snap obj s o original :
  objects s !! obj = Some o → type o = MESH →
  original_vertices snap !! obj = Some original →
  let restored := take (length (vertices o)) original
                  ++ drop (length original) (vertices o) in
  restore_object snap obj s =
    bind (bind (write_object obj (set_vertices restored))
            (λ _, if bool_decide (length (vertices o) ≤ length original)
                  then ret tt else raise IndexError))
         (λ _, match original_matrices snap !! obj with
               | Some m => write_object obj (set_matrix_world m)
               | None => ret tt
               end) s.
Proof.
  intros Ho Hty Hov restored.
  unfold restore_object. unfold bind at 1. unfold read_object. rewrite Ho.
  rewrite decide_True by done. rewrite Hov. by rewrite assign_vertices_spec.
Qed.

(** X6: [restore_object] on a mesh whose vertex list is stored.  The
    stored coordinates are assigned in order to the vertices the mesh has
    now.  A mesh that has no more vertices than were stored gets the
    first of the stored coordinates and then its stored world matrix; a
    mesh that has more makes the loop raise IndexError once the stored
    list is used up: the remaining vertices keep their coordinates and
    the world matrix is not restored. *)
Theorem restore_object_vertex_count snap obj s o original :
  objects s !! obj = Some o → type o = MESH →
  original_vertices snap !! obj = Some original →
  let out := restore_object snap obj s in
  let restored := take (length (vertices o)) original
                  ++ drop (length original) (vertices o) in
  (length (vertices o) ≤ length original →
     out.1 = Return tt ∧
     ∃ o', objects out.2 !! obj = Some o' ∧
           vertices o' = take (length (vertices o)) original ∧
           matrix_world o' = default (matrix_world o) (original_matrices snap !! obj)) ∧
  (length original < length (vertices o) →
     out = (Raise IndexError,
            set_objects (alter (set_vertices restored) obj (objects s)) s)).
Proof.
  intros Ho Hty Hov out restored.
  subst out. rewrite (restore_object_mesh_run snap obj s o original Ho Hty Hov).
  fold restored. split.
  - intros Hlen. rewrite bool_decide_eq_true_2 by done.
    unfold bind, write_object, modify, ret. cbn [fst snd].
    assert (restored = take (length (vertices o)) original) as ->.
    { subst restored. rewrite drop_ge by done. by rewrite app_nil_r. }
    destruct (original_matrices snap !! obj) as [m|]; cbn [fst snd objects set_objects].
    + split; [done|]. rewrite !lookup_alter_eq, Ho. cbn. eauto.
    + split; [done|]. rewrite lookup_alter_eq, Ho. cbn. eauto.
  - intros Hlen. rewrite bool_decide_eq_false_2 by lia. done.
Qed.

Lemma for_each_raises {A} (I : State → Prop) (l : list A) (body : A → Py unit) x :
  (∀ y, preserves I (body y)) →
  (∀ s, I s → ∃ e, (body x s).1 = Raise e) →
  x ∈ l → ∀ s, I s → ∃ e, (for_each l body s).1 = Raise e.
Proof.
  intros Hkeep Hx. induction l as [|y l IH]; intros Hin s Hs.
  { by apply elem_of_nil in Hin. }
  cbn [for_each]. unfold bind. pose proof (Hkeep y s Hs) as Hs1.
  destruct (body y s) as [[[]|e'] s1] eqn:Hy; [|by eauto].
  apply elem_of_cons in Hin as [->|Hin]; [|by apply IH].
  destruct (Hx s Hs) as [e He]. by rewrite Hy in He.
Qed.

(** X7: one mesh of the selection that has more vertices than were
    stored for it stops the whole restore phase: it raises, no host call
    is issued, so the 3D cursor is not recentred. *)
Theorem restore_stops_at_grown_mesh `{!Host} snap sel obj s o original :
  obj ∈ sel →
  objects s !! obj = Some o → type o = MESH →
  original_vertices snap !! obj = Some original →
  length original < length (vertices o) →
  let out := restore_original_state snap sel s in
  (∃ e, out.1 = Raise e) ∧
  calls out.2 = calls s ∧
  cursor_location out.2 = cursor_location s.
Proof.
  intros Hin Ho Hty Hov Hlen out.
  set (I := λ st : State, ∃ o1, objects st !! obj = Some o1 ∧ type o1 = MESH ∧
                                 length original < length (vertices o1)).
  assert (∀ k vs, (k = obj → length original < length vs) →
            preserves I (write_object k (set_vertices vs))) as Hvert.
  { intros k vs Hvs st (o1 & Ho1 & Hty1 & Hlen1).
    unfold I, write_object, modify. cbn [snd objects set_objects].
    destruct (decide (k = obj)) as [->|Hne].
    - exists (set_vertices vs o1). rewrite lookup_alter_eq, Ho1. split_and!; [done|done|].
      by apply Hvs.
    - exists o1. by rewrite lookup_alter_ne. }
  assert (∀ k m, preserves I (write_object k (set_matrix_world m))) as Hmat.
  { intros k m st (o1 & Ho1 & Hty1 & Hlen1).
    unfold I, write_object, modify. cbn [snd objects set_objects].
    destruct (decide (k = obj)) as [->|Hne].
    - exists (set_matrix_world m o1). by rewrite lookup_alter_eq, Ho1.
    - exists o1. by rewrite lookup_alter_ne. }
  assert (∀ k, preserves I (restore_object snap k)) as Hkeep.
  { intros k st Hst. unfold restore_object. unfold bind at 1. unfold read_object.
    destruct (objects st !! k) as [ok|] eqn:Hk; [|done].
    assert (k = obj → length original < length (vertices ok)) as Hok.
    { intros ->. destruct Hst as (o1 & Ho1 & _ & Hlen1). congruence. }
    refine (preserves_bind I _ _ _ _ st Hst).
    - case_decide; [|apply preserves_ret].
      destruct (original_vertices snap !! k) as [orig|] eqn:Hko; [|apply preserves_ret].
      pose proof (assign_vertices_length (vertices ok) orig) as Hl.
      destruct (assign_vertices (vertices ok) orig) as [vs ok'].
      apply preserves_bind.
      + apply Hvert. intros Heq. cbn in Hl. rewrite Hl. by apply Hok.
      + intros _. destruct ok'; [apply preserves_ret | apply preserves_raise].
    - intros _. destruct (original_matrices snap !! k); [apply Hmat | apply preserves_ret]. }
  assert (∃ e, (for_each sel (restore_object snap) s).1 = Raise e) as [e He].
  { apply (for_each_raises I sel (restore_object snap) obj); [done| |done|].
    - intros st (o1 & Ho1 & Hty1 & Hlen1).
      rewrite (restore_object_mesh_run snap obj st o1 original Ho1 Hty1 Hov).
      rewrite bool_decide_eq_false_2 by lia. cbn. eauto.
    - exists o. by split_and!. }
  assert (calls (for_each sel (restore_object snap) s).2 = calls s ∧
          cursor_location (for_each sel (restore_object snap) s).2 = cursor_location s)
    as Hframe.
  { apply (preserves_for_each
             (λ st, calls st = calls s ∧ cursor_location st = cursor_location s));
      [|done].
    intros k _. apply walk_restore_object.
    - by intros ?? st Hst.
    - by intros ?? st Hst. }
  destruct (for_each sel (restore_object snap) s) as [[[]|e'] s1] eqn:Hloop; [done|].
  assert (out = (Raise e', s1)) as ->.
  { subst out. unfold restore_original_state. unfold bind at 1. by rewrite Hloop. }
  cbn [fst snd] in *. split; [eauto|done].
Qed.

(** ** What the restore phase leaves alone *)

Lemma fmap_alter_kept {B} (g : Object → B) f k (m : gmap string Object) :
  (∀ o, g (f o) = g o) → g <$> alter f k m = g <$> m.
Proof.
  intros Hf. apply map_eq. intros i. rewrite !lookup_fmap.
  destruct (decide (k = i)) as [->|Hne].
  - rewrite lookup_alter_eq. destruct (m !! i); simpl; [by rewrite Hf|done].
  - by rewrite lookup_alter_ne.
Qed.

Lemma restore_select_active `{!Host} snap sel s :
  select_get <$> objects (restore_original_state snap sel s).2
    = select_get <$> objects s ∧
  active (restore_original_state snap sel s).2 = active s.
Proof.
  apply (walk_restore_original_state
           (λ st, select_get <$> objects st = select_get <$> objects s ∧
                  active st = active s)); [| | |done].
  - intros st [Hs Ha]. split.
    + by rewrite (host_call_objects_kept view3d_snap_cursor_to_center st (λ _, eq_refl)).
    + unfold host_call. cbn [unrecognized_keyword].
      by destruct (host_raises view3d_snap_cursor_to_center st).
  - intros obj vs st [Hs Ha]. split; [|done]. cbn. by rewrite fmap_alter_kept.
  - intros obj m st [Hs Ha]. split; [|done]. cbn. by rewrite fmap_alter_kept.
Qed.

(** X8: the restore phase gives back vertex positions and world
    matrices only: the selection and the active object stay as the export
    left them, and an object without an entry in the snapshot is not
    written to. *)
Theorem restore_keeps_selection `{!Host} snap sel s :
  let out := restore_original_state snap sel s in
  select_get <$> objects out.2 = select_get <$> objects s ∧
  active out.2 = active s ∧
  (∀ k, original_vertices snap !! k = None → original_matrices snap !! k = None →
        original_empty_transforms snap !! k = None →
        objects out.2 !! k = objects s !! k).
Proof.
  intros out. subst out.
  destruct (restore_select_active snap sel s) as [Hsel Hact].
  split_and!; [done|done|]. intros k Hv Hm He.
  set (I := λ st : State, objects st !! k = objects s !! k).
  assert (∀ x f, x ≠ k → preserves I (write_object x f)) as Hwrite.
  { intros x f Hne st Hst. unfold I, write_object, modify. cbn [snd objects set_objects].
    by rewrite lookup_alter_ne. }
  assert (preserves I (restore_original_state snap sel)) as Hp;
    [|exact (Hp s eq_refl)].
  apply preserves_bind.
  { apply preserves_for_each. intros x _.
    apply preserves_bind; [apply preserves_read_object|]. intros o.
    destruct (decide (x = k)) as [->|Hne].
    - rewrite Hv, Hm. apply preserves_bind; [|intros _; apply preserves_ret].
      case_decide; apply preserves_ret.
    - apply preserves_bind.
      + case_decide; [|apply preserves_ret].
        destruct (original_vertices snap !! x) as [original|]; [|apply preserves_ret].
        destruct (assign_vertices (vertices o) original) as [vs ok].
        apply preserves_bind; [by apply Hwrite|]. intros _.
        destruct ok; [apply preserves_ret | apply preserves_raise].
      + intros _. destruct (original_matrices snap !! x);
          [by apply Hwrite | apply preserves_ret]. }
  intros _. apply preserves_bind.
  { apply preserves_for_each. intros item Hitem.
    apply elem_of_map_to_list' in Hitem.
    apply preserves_bind; [apply preserves_gets|]. intros objs.
    destruct (objs !! item.1); [|apply preserves_ret].
    apply Hwrite. intros Heq. rewrite Heq in Hitem. congruence. }
  intros _ st Hst. unfold I.
  by rewrite (host_call_objects_kept view3d_snap_cursor_to_center st (λ _, eq_refl)).
Qed.

(** ** The anchor of the custom origin *)

(** X9: which child [process_obj] takes as the anchor.  With an empty
    [selected_empty] it is the first child of type EMPTY.  With a name it
    is the child of that name, wherever it stands among the children, if
    it is of type EMPTY; no other empty is taken in its place. *)
Theorem find_custom_empty_spec scene (objs : gmap string Object) cs name :
  selected_empty scene = Return name →
  find_custom_empty scene objs cs =
    Return (if decide (name = "") then
              head (filter (λ child, type <$> objs !! child = Some EMPTY) cs)
            else if decide (name ∈ cs ∧ type <$> objs !! name = Some EMPTY) then Some name
            else None).
Proof.
  intros Hname. induction cs as [|child cs IH]; cbn [find_custom_empty].
  { destruct (decide (name = "")); [done|].
    rewrite decide_False; [done|]. intros [Hin _]. by apply elem_of_nil in Hin. }
  rewrite Hname, IH. clear IH.
  destruct (decide (type <$> objs !! child = Some EMPTY)) as [Hty|Hty].
  - destruct (decide (name = "")) as [->|Hne].
    { by rewrite filter_cons_True. }
    destruct (decide (child = name)) as [->|Hne'].
    { rewrite decide_True; [done|]. split; [apply list_elem_of_here|done]. }
    f_equal. apply decide_ext. rewrite elem_of_cons.
    split; intros [Hin HT]; (split; [|done]);
      [by right | by destruct Hin as [->|Hin]].
  - destruct (decide (name = "")) as [->|Hne].
    { by rewrite filter_cons_False. }
    f_equal. apply decide_ext. rewrite elem_of_cons.
    split; intros [Hin HT]; (split; [|done]);
      [by right | by destruct Hin as [->|Hin]].
Qed.

(** ** The option flags and the OBJ format *)

Lemma export_objects_obj `{!Host} sel directory um ut uc um' ut' uc' s :
  export_objects sel OBJ directory um ut uc s
  = export_objects sel OBJ directory um' ut' uc' s.
Proof. reflexivity. Qed.

(** X10: in an OBJ export none of the five option flags is used: the run
    is the same for every value of [ExportOptions], in batch mode and in
    single-file mode. *)
Theorem obj_export_ignores_options `{!Host} scene blend opts s :
  export_types scene = OBJ →
  execute (with_options opts scene) blend s = execute scene blend s.
Proof.
  intros Hformat.
  unfold execute. apply bind_ext; [done|]. intros _ s1.
  apply bind_ext; [done|]. intros objs s2.
  destruct (filter_selection objs) as [|x l]; [done|].
  apply bind_ext; [|done]. intros s3. unfold try_finally.
  assert (try_body (with_options opts scene) (x :: l) s3
          = try_body scene (x :: l) s3) as ->; [|done].
  unfold try_body. apply bind_ext.
  - intros s4. unfold origin_handling. cbn [with_options custom_origin origin_at_bottom].
    destruct (custom_origin scene); [|done].
    unfold set_origin_to_custom. cbn [process_objects].
    assert (∀ obj st, process_obj (with_options opts scene) obj st
                      = process_obj scene obj st) as Hobj.
    { intros obj st. unfold process_obj. apply bind_ext; [done|]. intros o st1.
      case_decide; [done|]. apply bind_ext; [done|]. intros objs' st2.
      assert (find_custom_empty (with_options opts scene) objs' (children objs' obj)
              = find_custom_empty scene objs' (children objs' obj)) as ->; [|done].
      induction (children objs' obj) as [|child cs IH]; cbn [find_custom_empty]; [done|].
      by rewrite IH. }
    apply bind_ext; [|intros _]; intros s5; apply for_each_ext; intros; apply Hobj.
  - intros _ s4. apply bind_ext; [done|]. intros _ s5.
    unfold export_process.
    cbn [with_options export_types batch_export mesh_directory_path set_file_name
         scene_ExportOptions].
    rewrite Hformat. reflexivity.
Qed.

(** ** A complete run with the default settings of the origin *)

Section DefaultRun.

Context `{!Host} `{!HostFrame}.
Hypothesis never : host_never_raises.

Lemma origin_to_object_location_run obj s o :
  objects s !! obj = Some o →
  ∃ s', origin_to_object_location obj s = (Return tt, s') ∧
        shape <$> objects s' = shape <$> objects s ∧
        active s' = Some obj ∧ exported s' = exported s ∧
        directories s' = directories s.
Proof.
  intros Ho. unfold origin_to_object_location.
  unfold bind at 1. unfold read_object. rewrite Ho.
  unfold bind at 1. unfold modify at 1.
  unfold bind at 1. rewrite host_call_ok by done.
  unfold bind at 1. unfold write_object, modify at 1.
  unfold bind at 1. unfold modify at 1.
  rewrite host_call_ok by done.
  eexists. split; [reflexivity|]. cbn. split_and!; [|done|done|done].
  rewrite origin_set_shape. rewrite shape_fmap_alter by done.
  by apply shape_fmap_fmap.
Qed.

Lemma default_origin_loop sel s :
  (∀ obj, obj ∈ sel → is_Some (objects s !! obj)) →
  ∃ s', for_each sel origin_to_object_location s = (Return tt, s') ∧
        shape <$> objects s' = shape <$> objects s ∧
        active s' = match last sel with Some x => Some x | None => active s end ∧
        exported s' = exported s ∧ directories s' = directories s.
Proof.
  revert s. induction sel as [|x l IH]; intros s Hin; cbn [for_each].
  { by exists s. }
  destruct (Hin x (list_elem_of_here _ _)) as [o Ho].
  destruct (origin_to_object_location_run x s o Ho)
    as (s1 & Hrun1 & Hsh1 & Hact1 & Hexp1 & Hdir1).
  destruct (IH s1) as (s' & Hrun & Hsh & Hact & Hexp & Hdir).
  { intros obj Hobj. destruct (Hin obj (list_elem_of_further _ _ _ Hobj)) as [oo Hoo].
    destruct (shape_lookup_Some _ _ _ _ Hsh1 Hoo) as (o1 & Ho1 & _). eauto. }
  exists s'. unfold bind. rewrite Hrun1. split_and!; [done|congruence| |congruence|congruence].
  rewrite Hact, Hact1, last_cons. by destruct (last l).
Qed.

Lemma move_objects_to_zero_run sel s :
  ∃ s', move_objects_to_zero sel s = (Return tt, s') ∧
        shape <$> objects s' = shape <$> objects s ∧
        active s' = active s ∧ exported s' = exported s ∧
        directories s' = directories s.
Proof.
  unfold move_objects_to_zero.
  revert s. induction sel as [|obj sel IH]; intros s; cbn [for_each]; [by eexists|].
  unfold bind at 1. unfold write_object at 1, modify at 1.
  destruct (IH (set_objects (alter (set_location zero_vector) obj (objects s)) s))
    as (s' & Hrun & Hsh & ? & ? & ?).
  exists s'. rewrite Hrun. split_and!; [done| |done|done|done].
  rewrite Hsh. cbn. by apply shape_fmap_alter.
Qed.

(** The step of [export_process] that creates the directory. *)
Lemma makedirs_run directory s :
  ∃ s1, (if decide (directory ∈ directories s) then ret tt
         else host_call (os_makedirs directory)) s = (Return tt, s1) ∧
        objects s1 = objects s ∧ active s1 = active s ∧ exported s1 = exported s ∧
        directory ∈ directories s1 ∧
        (directory ∈ directories s → s1 = s).
Proof.
  case_decide as Hdir.
  - exists s. by split_and!.
  - rewrite host_call_ok by done. eexists. split; [reflexivity|]. cbn.
    split_and!; [done|done|done| |done]. apply elem_of_app. right. apply list_elem_of_here.
Qed.

Lemma export_objects_cons x l format directory um ut uc s :
  is_Some (objects s !! x) →
  let p := path_join directory (clean_name x +:+ "." +:+ lower (export_format format)) in
  let call := match format with
              | FBX => export_scene_fbx (fbx_kwargs p um ut uc)
              | OBJ => wm_obj_export (batch_obj_kwargs p)
              end in
  let s1 := set_objects (alter (set_select true) x (set_select false <$> objects s))
              (add_call object_select_all_DESELECT (set_active (Some x) s)) in
  export_objects (x :: l) format directory um ut uc s
  = export_objects l format directory um ut uc (add_exported (p, [x]) (add_call call s1)).
Proof.
  intros Hx p call s1.
  set (body := modify (set_active (Some x)) ;;
               host_call object_select_all_DESELECT ;;
               write_object x (set_select true) ;;
               match format with
               | FBX => host_call (export_scene_fbx (fbx_kwargs p um ut uc))
               | OBJ => host_call (wm_obj_export (batch_obj_kwargs p))
               end).
  change (export_objects (x :: l) format directory um ut uc s) with
    (bind body (λ _, export_objects l format directory um ut uc) s).
  assert (body s = (Return tt, add_exported (p, [x]) (add_call call s1))) as Hbody.
  { subst body. unfold bind at 1. unfold modify at 1.
    unfold bind at 1. rewrite host_call_ok by done.
    unfold bind at 1. unfold write_object, modify.
    change (set_objects _ _) with s1.
    assert (host_call call s1 = (Return tt, add_exported (p, [x]) (add_call call s1)))
      as Hcall.
    { rewrite host_call_ok; [|done|by subst call; destruct format].
      subst call. destruct format; simpl;
        by rewrite (context_selected_objects_only (objects s) x) by done. }
    subst call. by destruct format; rewrite Hcall. }
  unfold bind at 1. by rewrite Hbody.
Qed.

(** What the batch branch leaves behind: the last object is the active
    one and the only one selected. *)
Lemma export_objects_last sel format directory um ut uc s :
  sel ≠ [] →
  (∀ obj, obj ∈ sel → is_Some (objects s !! obj)) →
  ∃ s', export_objects sel format directory um ut uc s = (Return tt, s') ∧
        active s' = last sel ∧
        ∀ k o, objects s' !! k = Some o → select_get o = bool_decide (last sel = Some k).
Proof.
  revert s. induction sel as [|x l IH]; intros s Hne Hin; [done|].
  rewrite export_objects_cons by (apply Hin, list_elem_of_here).
  set (s1 := set_objects (alter (set_select true) x (set_select false <$> objects s)) _).
  set (s2 := add_exported _ _).
  destruct l as [|y l'].
  { exists s2. split; [done|]. split; [done|]. intros k o Hk.
    apply selected_only in Hk. rewrite Hk. cbn.
    apply bool_decide_ext. split; [by intros ->|by intros [= ->]]. }
  destruct (IH s2) as (s' & Hrun & Hact & Hsel); [done| |].
  { intros k Hk. destruct (Hin k (list_elem_of_further _ _ _ Hk)) as [ok Hok].
    assert (objects s2 = alter (set_select true) x (set_select false <$> objects s))
      as -> by done.
    destruct (decide (x = k)) as [->|Hxk].
    - rewrite lookup_alter_eq, lookup_fmap, Hok. simpl. eauto.
    - rewrite lookup_alter_ne, lookup_fmap, Hok by done. simpl. eauto. }
  exists s'. rewrite last_cons_cons. by split_and!.
Qed.

(** The two loops of the restore phase end normally on a document whose
    objects kept their number of vertices. *)
Lemma restore_original_state_returns objs0 sel s :
  same_shape objs0 s → (∀ obj, obj ∈ sel → is_Some (objs0 !! obj)) →
  ∃ s', restore_original_state (store_original_state objs0 sel) sel s = (Return tt, s').
Proof.
  intros Hshape Hsel.
  pose proof (store_original_state_sound objs0 sel) as Hsound.
  set (snap := store_original_state objs0 sel) in *.
  destruct (returns_for_each (same_shape objs0) (λ _ _, True) sel (restore_object snap))
    with (s := s) as (s1 & Hrun1 & Hshape1 & _); [|done|].
  { intros x st Hx Hst.
    destruct (restore_object_spec objs0 snap x st Hsound Hst (Hsel x Hx))
      as (st' & Hrun & Hst' & _). exists st'. by split_and!. }
  destruct (returns_for_each (same_shape objs0) (λ _ _, True)
              (map_to_list (original_empty_transforms snap)) restore_empty)
    with (s := s1) as (s2 & Hrun2 & Hshape2 & _); [|done|].
  { intros item st Hitem Hst. apply elem_of_map_to_list' in Hitem.
    destruct (restore_empty_spec objs0 snap item st Hsound Hst Hitem)
      as (st' & Hrun & Hst' & _). exists st'. by split_and!. }
  unfold restore_original_state, bind. rewrite Hrun1, Hrun2.
  rewrite host_call_ok by done. eauto.
Qed.

End DefaultRun.

Lemma host_call_directories `{!Host} c s :
  (∀ p, c ≠ os_makedirs p) → directories (host_call c s).2 = directories s.
Proof.
  intros Hc. unfold host_call. destruct (unrecognized_keyword c); [done|].
  destruct (host_raises c s); [done|]. simpl.
  destruct c; simpl; try done; [by destruct (active s)|]. by destruct (Hc path).
Qed.

Lemma export_objects_directories `{!Host} sel format directory um ut uc s :
  directories (export_objects sel format directory um ut uc s).2 = directories s.
Proof.
  apply (preserves_for_each (λ st, directories st = directories s)); [|done].
  intros obj _.
  apply preserves_bind; [by apply preserves_modify|]. intros _.
  apply preserves_bind.
  { intros st Hst. by rewrite host_call_directories. }
  intros _. apply preserves_bind; [by apply preserves_modify|]. intros _.
  destruct format; intros st Hst; by rewrite host_call_directories.
Qed.

(** What the restore phase keeps besides the selection. *)
Lemma restore_files `{!Host} snap sel s :
  exported (restore_original_state snap sel s).2 = exported s ∧
  directories (restore_original_state snap sel s).2 = directories s.
Proof.
  apply (walk_restore_original_state
           (λ st, exported st = exported s ∧ directories st = directories s)); [| | |done].
  - intros st [He Hd]. unfold host_call. cbn [unrecognized_keyword].
    by destruct (host_raises view3d_snap_cursor_to_center st).
  - by intros obj vs st.
  - by intros obj m st.
Qed.

(** The state in which the export phase of a run with the default origin
    policy starts. *)
Lemma default_before_export `{!Host} `{!HostFrame} scene sel s :
  host_never_raises →
  custom_origin scene = false → origin_at_bottom scene = false →
  (∀ obj, obj ∈ sel → is_Some (objects s !! obj)) →
  ∃ s2, try_body scene sel s = export_process scene sel s2 ∧
        shape <$> objects s2 = shape <$> objects s ∧
        active s2 = match last sel with Some x => Some x | None => active s end ∧
        exported s2 = exported s ∧ directories s2 = directories s.
Proof.
  intros Hnever Hcustom Hbottom Hin.
  destruct (default_origin_loop Hnever sel s Hin) as (s1 & Hrun1 & Hsh1 & Hact1 & He1 & Hd1).
  destruct (move_objects_to_zero_run sel s1) as (s2 & Hrun2 & Hsh2 & Hact2 & He2 & Hd2).
  exists s2. split_and!; [|congruence|congruence|congruence|congruence].
  unfold try_body, origin_handling. rewrite Hcustom, Hbottom.
  unfold bind at 1. rewrite Hrun1. unfold bind at 1. by rewrite Hrun2.
Qed.

Lemma filter_selection_exist (objs : gmap string Object) obj :
  obj ∈ filter_selection objs → is_Some (objs !! obj).
Proof. intros Hobj. apply elem_of_filter_selection in Hobj as (o & -> & _). eauto. Qed.

Lemma lookup_shape_is_Some (m m' : gmap string Object) k :
  shape <$> m' = shape <$> m → is_Some (m !! k) → is_Some (m' !! k).
Proof.
  intros Hsh [o Ho]. destruct (shape_lookup_Some _ _ _ _ Hsh Ho) as (o' & Ho' & _). eauto.
Qed.

Lemma select_get_lookup (m m' : gmap string Object) k o (b : bool) :
  select_get <$> m' = select_get <$> m →
  (∀ o0, m !! k = Some o0 → select_get o0 = b) →
  m' !! k = Some o → select_get o = b.
Proof.
  intros Hsel Hm Ho. apply (f_equal (λ x, x !! k)) in Hsel.
  rewrite !lookup_fmap, Ho in Hsel. destruct (m !! k) as [o0|]; [|done].
  injection Hsel as ->. by apply Hm.
Qed.

(** X11: a batch export with the default origin policy, on a host that
    makes no call fail.  [execute] returns FINISHED and has written one
    file per object of the filtered selection, in the order of the
    selection: the file of an object is named after its sanitized name
    and the lower-case format, lies in the output directory and holds
    that object alone.  The directory exists afterwards.  The selection
    is not given back: the object exported last is the active object and
    the only selected one. *)
Theorem default_batch_export `{!Host} `{!HostFrame} scene blend s0 :
  host_never_raises →
  custom_origin scene = false → origin_at_bottom scene = false →
  batch_export scene = true →
  filter_selection (objects s0) ≠ [] →
  let sel := filter_selection (objects s0) in
  let directory := abspath (mesh_directory_path scene) in
  let out := execute scene blend s0 in
  out.1 = Return FINISHED ∧
  exported out.2 = exported s0 ++
    map (λ obj, (path_join directory
                   (clean_name obj +:+ "." +:+ lower (export_format (export_types scene))),
                 [obj])) sel ∧
  directory ∈ directories out.2 ∧
  active out.2 = last sel ∧
  (∀ k o, objects out.2 !! k = Some o → select_get o = bool_decide (last sel = Some k)).
Proof.
  intros Hnever Hcustom Hbottom Hbatch Hsel sel directory out.
  set (s1 := add_call (wm_save_as_mainfile blend) s0).
  assert (∀ obj, obj ∈ sel → is_Some (objects s1 !! obj)) as Hin.
  { intros obj Hobj. by apply filter_selection_exist. }
  destruct (default_before_export scene sel s1 Hnever Hcustom Hbottom Hin)
    as (s2 & Hbody & Hsh2 & _ & He2 & Hd2).
  destruct (makedirs_run Hnever directory s2) as (s3 & Hmk & Ho3 & _ & He3 & Hd3 & _).
  assert (∀ obj, obj ∈ sel → is_Some (objects s3 !! obj)) as Hin3.
  { intros obj Hobj. rewrite Ho3. eapply lookup_shape_is_Some; [done|]. by apply Hin. }
  set (um := include_modifiers_fbx (scene_ExportOptions scene)).
  set (ut := use_triangles_fbx (scene_ExportOptions scene)).
  set (uc := use_vertex_colors_fbx (scene_ExportOptions scene)).
  destruct (export_objects_files sel (export_types scene) directory um ut uc s3 Hnever Hin3)
    as (s4 & Hrun4 & He4 & _).
  destruct (export_objects_last Hnever sel (export_types scene) directory um ut uc s3
              Hsel Hin3) as (s4' & Hrun4' & Hact4 & Hsel4).
  assert (s4' = s4) as -> by congruence. clear Hrun4'.
  pose proof (export_objects_directories sel (export_types scene) directory um ut uc s3)
    as Hd4. rewrite Hrun4 in Hd4. cbn [snd] in Hd4.
  assert (try_body scene sel s1 = (Return tt, s4)) as Hrun.
  { rewrite Hbody. unfold export_process. rewrite Hbatch.
    unfold bind at 1. unfold gets at 1. cbn beta iota.
    unfold bind at 1. fold directory. rewrite Hmk. exact Hrun4. }
  assert (same_shape (objects s0) s4) as Hshape.
  { pose proof (preserves_shape_try_body (objects s0) scene sel s1 eq_refl) as Hp.
    by rewrite Hrun in Hp. }
  destruct (restore_original_state_returns Hnever (objects s0) sel s4 Hshape)
    as (s5 & Hrestore).
  { intros obj Hobj. by apply filter_selection_exist. }
  destruct (restore_files (store_original_state (objects s0) sel) sel s4) as [He5 Hd5].
  destruct (restore_select_active (store_original_state (objects s0) sel) sel s4)
    as [Hsel5 Hact5].
  rewrite Hrestore in He5, Hd5, Hsel5, Hact5. cbn [snd] in *.
  assert (out = (Return FINISHED, s5)) as ->.
  { subst out. rewrite (execute_try_run scene blend s0 (Hnever _ _) Hsel).
    fold sel. fold s1. unfold try_finally. by rewrite Hrun, Hrestore. }
  cbn [fst snd]. split_and!.
  - done.
  - rewrite He5, He4, He3, He2. done.
  - by rewrite Hd5, Hd4.
  - congruence.
  - intros k o Hk. eapply select_get_lookup; [exact Hsel5| |exact Hk]. apply Hsel4.
Qed.

(** The selection loop of the single-file branch (lines 265-267). *)
Lemma select_only_objects sel s :
  (∀ k o, objects s !! k = Some o → select_get o = false) →
  ∃ s', for_each sel (λ obj, write_object obj (set_select true)) s = (Return tt, s') ∧
        active s' = active s ∧ exported s' = exported s ∧
        directories s' = directories s ∧
        (∀ k, is_Some (objects s' !! k) ↔ is_Some (objects s !! k)) ∧
        (∀ k o, objects s' !! k = Some o → select_get o = bool_decide (k ∈ sel)).
Proof.
  intros Hnone.
  assert (∀ l st,
    ∃ s', for_each l (λ obj, write_object obj (set_select true)) st = (Return tt, s') ∧
          active s' = active st ∧ exported s' = exported st ∧
          directories s' = directories st ∧
          ∀ k, objects s' !! k =
               (λ o, if bool_decide (k ∈ l) then set_select true o else o) <$>
                 objects st !! k) as Hloop.
  { induction l as [|x l IH]; intros st; cbn [for_each].
    { exists st. split_and!; [done..|]. intros k.
      rewrite bool_decide_eq_false_2 by apply not_elem_of_nil.
      by destruct (objects st !! k). }
    unfold bind at 1. unfold write_object at 1, modify at 1.
    destruct (IH (set_objects (alter (set_select true) x (objects st)) st))
      as (s' & Hrun & ? & ? & ? & Hobjs).
    exists s'. rewrite Hrun. split_and!; [done..|]. intros k. rewrite Hobjs. cbn.
    destruct (decide (x = k)) as [->|Hne].
    - rewrite lookup_alter_eq. rewrite (bool_decide_eq_true_2 (k ∈ k :: l))
        by apply list_elem_of_here.
      destruct (objects st !! k) as [o|]; [|done]. cbn. f_equal. by case_bool_decide.
    - rewrite lookup_alter_ne by done.
      destruct (objects st !! k) as [o|]; [|done]. cbn. f_equal.
      destruct (decide (k ∈ l)) as [Hk|Hk].
      + rewrite !bool_decide_eq_true_2; [done| |done]. by apply list_elem_of_further.
      + rewrite !bool_decide_eq_false_2; [done| |done].
        intros [?|?]%elem_of_cons; congruence. }
  destruct (Hloop sel s) as (s' & Hrun & ? & ? & ? & Hobjs).
  exists s'. split_and!; [done..| |].
  - intros k. rewrite Hobjs. by rewrite is_Some_alt; destruct (objects s !! k).
  - intros k o. rewrite Hobjs. destruct (objects s !! k) as [o0|] eqn:Ho0; [|done].
    cbn. intros [= <-]. case_bool_decide; [done|]. by eapply Hnone.
Qed.

(** The single-file branch with the FBX format on a host that makes no
    call fail. *)
Lemma export_process_single_run `{!Host} scene sel s a :
  host_never_raises →
  export_types scene = FBX → batch_export scene = false → active s = Some a →
  let directory := abspath (mesh_directory_path scene) in
  let base := clean_name (if decide (set_file_name scene ≠ "")
                          then set_file_name scene else a) in
  ∃ s', export_process scene sel s = (Return tt, s') ∧
        exported s' = exported s ++
          [(path_join directory (base +:+ ".fbx"), context_selected_objects (objects s'))] ∧
        active s' = Some a ∧
        directory ∈ directories s' ∧
        (∀ k, is_Some (objects s' !! k) ↔ is_Some (objects s !! k)) ∧
        (∀ k o, objects s' !! k = Some o → select_get o = bool_decide (k ∈ sel)).
Proof.
  intros Hnever Hformat Hbatch Ha directory base.
  destruct (makedirs_run Hnever directory s) as (s1 & Hmk & Ho1 & Ha1 & He1 & Hd1 & _).
  set (s2 := host_effect object_select_all_DESELECT
               (add_call object_select_all_DESELECT s1)).
  destruct (select_only_objects sel s2) as (s3 & Hloop & Ha3 & He3 & Hd3 & Hdom3 & Hsel3).
  { intros k o. subst s2. cbn. rewrite lookup_fmap.
    destruct (objects s1 !! k); [|done]. by intros [= <-]. }
  assert ((if decide (set_file_name scene ≠ "") then ret (clean_name (set_file_name scene))
           else match active s3 with
                | Some a => ret (clean_name a)
                | None => raise (AttributeError "name")
                end) s3 = (Return base, s3)) as Hbase.
  { subst base. rewrite Ha3. subst s2. cbn [active host_effect set_objects add_call].
    rewrite Ha1, Ha. by destruct (decide (set_file_name scene ≠ "")). }
  eexists. split.
  { unfold export_process. rewrite Hformat, Hbatch.
    unfold bind at 1. unfold gets at 1. cbn beta iota.
    unfold bind at 1. fold directory. rewrite Hmk.
    unfold bind at 1. rewrite host_call_ok by done. fold s2.
    unfold bind at 1. rewrite Hloop.
    unfold bind at 1. unfold gets at 1. cbn beta iota.
    unfold bind at 1. rewrite Hbase.
    rewrite host_call_ok by done. reflexivity. }
  cbn [host_effect exported add_exported add_call objects active directories
       keyword_filepath keyword fbx_kwargs].
  split_and!.
  - rewrite He3. subst s2. cbn. by rewrite He1.
  - rewrite Ha3. subst s2. cbn. by rewrite Ha1.
  - rewrite Hd3. subst s2. by cbn.
  - intros k. rewrite Hdom3. subst s2. cbn. rewrite lookup_fmap, Ho1.
    by rewrite !is_Some_alt; destruct (objects s !! k).
  - done.
Qed.

(** X12: a single-file FBX export with the default origin policy, on a
    host that makes no call fail.  [execute] returns FINISHED and has
    written one file that holds exactly the objects of the filtered
    selection.  With an empty [set_file_name] the file is named after the
    last object of that selection, not after the object that was active
    when the command was called: the origin loop has made every object
    the active one in turn.  That object stays the active one, and the
    exported objects stay selected while every other object, a selected
    empty included, has lost its selection. *)
Theorem default_single_fbx_export `{!Host} `{!HostFrame} scene blend s0 :
  host_never_raises →
  custom_origin scene = false → origin_at_bottom scene = false →
  batch_export scene = false → export_types scene = FBX →
  filter_selection (objects s0) ≠ [] →
  let sel := filter_selection (objects s0) in
  let directory := abspath (mesh_directory_path scene) in
  let out := execute scene blend s0 in
  ∃ final selected,
    last sel = Some final ∧
    out.1 = Return FINISHED ∧
    exported out.2 = exported s0 ++
      [(path_join directory
          (clean_name (if decide (set_file_name scene ≠ "")
                       then set_file_name scene else final) +:+ ".fbx"),
        selected)] ∧
    (∀ k, k ∈ selected ↔ k ∈ sel) ∧
    directory ∈ directories out.2 ∧
    active out.2 = Some final ∧
    (∀ k o, objects out.2 !! k = Some o → select_get o = bool_decide (k ∈ sel)).
Proof.
  intros Hnever Hcustom Hbottom Hbatch Hformat Hsel sel directory out.
  set (s1 := add_call (wm_save_as_mainfile blend) s0).
  assert (∀ obj, obj ∈ sel → is_Some (objects s1 !! obj)) as Hin.
  { intros obj Hobj. by apply filter_selection_exist. }
  destruct (last sel) as [final|] eqn:Hlast.
  2:{ apply last_None in Hlast. done. }
  destruct (default_before_export scene sel s1 Hnever Hcustom Hbottom Hin)
    as (s2 & Hbody & Hsh2 & Ha2 & He2 & Hd2).
  rewrite Hlast in Ha2.
  destruct (export_process_single_run scene sel s2 final Hnever Hformat Hbatch Ha2)
    as (s3 & Hrun3 & He3 & Ha3 & Hd3 & Hdom3 & Hsel3).
  assert (try_body scene sel s1 = (Return tt, s3)) as Hrun by congruence.
  assert (same_shape (objects s0) s3) as Hshape.
  { pose proof (preserves_shape_try_body (objects s0) scene sel s1 eq_refl) as Hp.
    by rewrite Hrun in Hp. }
  destruct (restore_original_state_returns Hnever (objects s0) sel s3 Hshape)
    as (s4 & Hrestore).
  { intros obj Hobj. by apply filter_selection_exist. }
  destruct (restore_files (store_original_state (objects s0) sel) sel s3) as [He4 Hd4].
  destruct (restore_select_active (store_original_state (objects s0) sel) sel s3)
    as [Hsel4 Hact4].
  rewrite Hrestore in He4, Hd4, Hsel4, Hact4. cbn [snd] in *.
  assert (out = (Return FINISHED, s4)) as ->.
  { subst out. rewrite (execute_try_run scene blend s0 (Hnever _ _) Hsel).
    fold sel. fold s1. unfold try_finally. by rewrite Hrun, Hrestore. }
  exists final, (context_selected_objects (objects s3)). cbn [fst snd]. split_and!.
  - done.
  - done.
  - by rewrite He4, He3, He2.
  - intros k. rewrite elem_of_context_selected_objects. split.
    + intros (o & Ho & Hs). rewrite (Hsel3 k o Ho) in Hs. by apply bool_decide_eq_true in Hs.
    + intros Hk. assert (is_Some (objects s3 !! k)) as [o Ho].
      { apply Hdom3. eapply lookup_shape_is_Some; [done|]. by apply Hin. }
      exists o. split; [done|]. rewrite (Hsel3 k o Ho). by apply bool_decide_eq_true.
  - by rewrite Hd4.
  - congruence.
  - intros k o Hk. eapply select_get_lookup; [exact Hsel4| |exact Hk]. apply Hsel3.
Qed.

(** ** [manipulate_origin] *)

(** X13: on a scene that carries only the properties the add-on
    registers, [manipulate_origin] with [origin_at_bottom] off fails at
    the first object: everything is deselected, the object is selected
    and made the active one, and the read of [scene.selected_empty]
    raises AttributeError before any origin or location is touched. *)
Theorem manipulate_origin_unregistered `{!Host} scene obj l s :
  origin_at_bottom scene = false →
  other_properties scene !! "selected_empty" = None →
  host_raises object_select_all_DESELECT s = false →
  manipulate_origin (obj :: l) scene s =
    (Raise (AttributeError "selected_empty"),
     set_active (Some obj)
       (set_objects (alter (set_select true) obj (set_select false <$> objects s))
          (add_call object_select_all_DESELECT s))).
Proof.
  intros Hbottom Hundef Hok. unfold manipulate_origin.
  unfold bind at 1. rewrite host_call_ok by done. cbn [for_each].
  unfold bind at 1 2. unfold write_object at 1, modify at 1.
  unfold bind at 1. unfold modify at 1.
  rewrite Hbottom. unfold selected_empty. rewrite Hundef.
  unfold bind at 1. reflexivity.
Qed.

Section ManipulateOrigin.

Context `{!Host} `{!HostFrame}.
Hypothesis never : host_never_raises.
Hypothesis transform_apply_selected : ∀ objs k o,
  objs !! k = Some o → select_get o = false → transform_apply objs !! k = Some o.

(** [set_origin_at_bottom] on the active object, a mesh, when the host's
    operator leaves unselected objects alone. *)
Lemma set_origin_at_bottom_others obj s o :
  active s = Some obj → objects s !! obj = Some o → type o = MESH →
  ∃ w s', set_origin_at_bottom obj s = (Return w, s') ∧
          shape <$> objects s' = shape <$> objects s ∧
          active s' = Some obj ∧
          ∀ k ok, k ≠ obj → objects s !! k = Some ok → select_get ok = false →
                  objects s' !! k = Some ok.
Proof.
  intros Hact Ho Hty.
  set (s_pre := if decide (mode o ≠ OBJECT)
                then host_effect object_mode_set_OBJECT (add_call object_mode_set_OBJECT s)
                else s).
  assert ((if decide (mode o ≠ OBJECT) then host_call object_mode_set_OBJECT else ret tt) s
          = (Return tt, s_pre)) as Hmode.
  { subst s_pre. case_decide; [|done]. by apply host_call_ok. }
  assert (shape <$> objects s_pre = shape <$> objects s ∧ active s_pre = Some obj ∧
          ∀ k, k ≠ obj → objects s_pre !! k = objects s !! k) as (Hsh0 & Hact0 & Hoth0).
  { subst s_pre. case_decide; [|done]. cbn. rewrite Hact. cbn.
    split_and!; [by apply shape_fmap_alter|done|]. intros k Hk. by rewrite lookup_alter_ne. }
  clearbody s_pre.
  set (s1 := host_effect object_transform_apply_rotation_scale
               (add_call object_transform_apply_rotation_scale s_pre)).
  assert (objects s1 = transform_apply (objects s_pre)) as Hobjs1 by done.
  assert (shape <$> objects s1 = shape <$> objects s) as Hsh1.
  { rewrite Hobjs1, transform_apply_shape. done. }
  destruct (shape_lookup_Some _ _ _ _ Hsh1 Ho) as (o1 & Ho1 & Hshape1).
  pose proof (shape_type _ _ Hshape1) as Hty1. rewrite Hty in Hty1.
  eexists _, _. split.
  { unfold set_origin_at_bottom. unfold bind at 1. unfold read_object at 1. rewrite Ho.
    unfold bind at 1. rewrite Hmode. unfold bind at 1.
    rewrite host_call_ok by done. fold s1.
    unfold bind at 1. unfold read_object at 1. rewrite Ho1.
    unfold bind at 1. unfold data_transform. unfold bind at 1.
    unfold read_object. rewrite Ho1, Hty1.
    unfold write_object, modify, ret. reflexivity. }
  cbn [objects set_objects active]. split_and!.
  - rewrite shape_fmap_alter; [done|]. intros o' _. apply shape_set_vertices, length_map.
  - subst s1. by cbn.
  - intros k ok Hk Hok Hsel. rewrite lookup_alter_ne by done. rewrite Hobjs1.
    apply transform_apply_selected; [|done]. by rewrite Hoth0.
Qed.

(** One iteration of the loop of [manipulate_origin] with the origin at
    the bottom, from a state in which nothing is selected. *)
Lemma manipulate_origin_step scene obj s o :
  origin_at_bottom scene = true →
  (∀ k ok, objects s !! k = Some ok → select_get ok = false) →
  objects s !! obj = Some o → type o = MESH →
  ∃ s', (write_object obj (set_select true) ;;
         modify (set_active (Some obj)) ;;
         (if origin_at_bottom scene then (set_origin_at_bottom obj ;; ret tt)
          else
            match selected_empty scene with
            | Raise e => raise e
            | Return name =>
                if decide (name ≠ "") then
                  set_origin_to_custom (SingleObject obj) scene
                else
                  (o <- read_object obj ;;
                   modify (set_cursor_location (location o)) ;;
                   host_call object_origin_set_CURSOR_MEDIAN)
            end) ;;
         write_object obj (set_location zero_vector) ;;
         write_object obj (set_select false)) s = (Return tt, s') ∧
        shape <$> objects s' = shape <$> objects s ∧
        active s' = Some obj ∧
        (∀ k ok, objects s' !! k = Some ok → select_get ok = false) ∧
        (∀ ok, objects s' !! obj = Some ok → location ok = zero_vector) ∧
        (∀ k, k ≠ obj → objects s' !! k = objects s !! k).
Proof.
  intros Hbottom Hnone Ho Hty. rewrite Hbottom.
  set (s1 := set_active (Some obj)
               (set_objects (alter (set_select true) obj (objects s)) s)).
  destruct (set_origin_at_bottom_others obj s1 (set_select true o))
    as (w & s2 & Hrun & Hsh2 & Hact2 & Hoth2).
  { done. }
  { subst s1. cbn. by rewrite lookup_alter_eq, Ho. }
  { done. }
  eexists. split.
  { unfold bind at 1. unfold write_object at 1, modify at 1.
    unfold bind at 1. unfold modify at 1. fold s1.
    unfold bind at 1 2. rewrite Hrun. unfold ret at 1.
    unfold bind at 1. unfold write_object at 1, modify at 1.
    unfold write_object, modify. reflexivity. }
  cbn [objects set_objects active].
  assert (∀ k, k ≠ obj → objects s2 !! k = objects s !! k) as Hkeep.
  { intros k Hk. destruct (objects s !! k) as [ok|] eqn:Hok.
    - apply Hoth2; [done| |by eapply Hnone].
      subst s1. cbn. by rewrite lookup_alter_ne.
    - destruct (objects s2 !! k) as [o2|] eqn:Ho2; [|done].
      assert (is_Some (objects s1 !! k)) as [o1 Ho1].
      { eapply lookup_shape_is_Some; [symmetry; exact Hsh2|eauto]. }
      subst s1. cbn in Ho1. rewrite lookup_alter_ne in Ho1 by done. congruence. }
  split_and!.
  - rewrite !shape_fmap_alter by done. rewrite Hsh2. subst s1. cbn.
    by apply shape_fmap_alter.
  - done.
  - intros k ok. destruct (decide (obj = k)) as [->|Hne].
    + rewrite !lookup_alter_eq. destruct (objects s2 !! k); [|done]. by intros [= <-].
    + rewrite !lookup_alter_ne by done. rewrite Hkeep by done. apply Hnone.
  - intros ok. rewrite !lookup_alter_eq. destruct (objects s2 !! obj); [|done].
    by intros [= <-].
  - intros k Hk. rewrite !lookup_alter_ne by done. by apply Hkeep.
Qed.

End ManipulateOrigin.

(** X14: [manipulate_origin] with [origin_at_bottom] on, for a list of
    meshes, on a host that makes no call fail and whose transform-apply
    leaves unselected objects alone.  It ends normally; the last object
    of the list is the active one, nothing is selected, every object of
    the list is at location (0,0,0), and an object that is not in the
    list is as it was, up to its selection. *)
Theorem manipulate_origin_at_bottom `{!Host} `{!HostFrame} scene sel s :
  host_never_raises →
  (∀ objs k o, objs !! k = Some o → select_get o = false →
     transform_apply objs !! k = Some o) →
  origin_at_bottom scene = true →
  (∀ obj, obj ∈ sel → type <$> objects s !! obj = Some MESH) →
  ∃ s', manipulate_origin sel scene s = (Return tt, s') ∧
        active s' = match last sel with Some x => Some x | None => active s end ∧
        (∀ k o, objects s' !! k = Some o → select_get o = false) ∧
        (∀ obj, obj ∈ sel →
           ∃ o, objects s' !! obj = Some o ∧ location o = zero_vector) ∧
        (∀ k, k ∉ sel → objects s' !! k = set_select false <$> objects s !! k).
Proof.
  intros Hnever Happly Hbottom Hmesh.
  set (s1 := host_effect object_select_all_DESELECT
               (add_call object_select_all_DESELECT s)).
  assert (∀ l st,
    (∀ k ok, objects st !! k = Some ok → select_get ok = false) →
    (∀ obj, obj ∈ l → type <$> objects st !! obj = Some MESH) →
    ∃ s', for_each l (λ obj,
            write_object obj (set_select true) ;;
            modify (set_active (Some obj)) ;;
            (if origin_at_bottom scene then (set_origin_at_bottom obj ;; ret tt)
             else
               match selected_empty scene with
               | Raise e => raise e
               | Return name =>
                   if decide (name ≠ "") then
                     set_origin_to_custom (SingleObject obj) scene
                   else
                     (o <- read_object obj ;;
                      modify (set_cursor_location (location o)) ;;
                      host_call object_origin_set_CURSOR_MEDIAN)
               end) ;;
            write_object obj (set_location zero_vector) ;;
            write_object obj (set_select false)) st = (Return tt, s') ∧
          active s' = match last l with Some x => Some x | None => active st end ∧
          (∀ k o, objects s' !! k = Some o → select_get o = false) ∧
          (∀ obj, obj ∈ l →
             ∃ o, objects s' !! obj = Some o ∧ location o = zero_vector) ∧
          (∀ k, k ∉ l → objects s' !! k = objects st !! k)) as Hloop.
  { induction l as [|x l IH]; intros st Hnone Hin; cbn [for_each].
    { exists st. split_and!; [done|done|done| |done].
      intros obj Hobj. by apply elem_of_nil in Hobj. }
    destruct (objects st !! x) as [o|] eqn:Ho.
    2:{ specialize (Hin x (list_elem_of_here _ _)). by rewrite Ho in Hin. }
    assert (type o = MESH) as Hty.
    { specialize (Hin x (list_elem_of_here _ _)). rewrite Ho in Hin. by injection Hin. }
    destruct (manipulate_origin_step Hnever Happly scene x st o Hbottom Hnone Ho Hty)
      as (st1 & Hrun1 & Hsh1 & Hact1 & Hnone1 & Hzero1 & Hoth1).
    destruct (IH st1 Hnone1) as (s' & Hrun & Hact & Hnone' & Hzero & Hoth).
    { intros obj Hobj. rewrite (shape_lookup_type _ _ obj Hsh1).
      apply Hin. by apply list_elem_of_further. }
    exists s'. unfold bind at 1. rewrite Hrun1. split_and!; [done| |done| |].
    - rewrite Hact, Hact1, last_cons. by destruct (last l).
    - intros obj Hobj. destruct (decide (obj ∈ l)) as [Hl|Hl]; [by apply Hzero|].
      apply elem_of_cons in Hobj as [->|Hobj]; [|done].
      rewrite (Hoth x Hl).
      assert (is_Some (objects st1 !! x)) as [o1 Ho1].
      { eapply lookup_shape_is_Some; [exact Hsh1|eauto]. }
      exists o1. split; [done|]. by apply Hzero1.
    - intros k Hk. rewrite Hoth by (intros ?; apply Hk; by apply list_elem_of_further).
      apply Hoth1. intros ->. apply Hk, list_elem_of_here. }
  destruct (Hloop sel s1) as (s' & Hrun & Hact & Hnone & Hzero & Hoth).
  { intros k ok. subst s1. cbn. rewrite lookup_fmap.
    destruct (objects s !! k); [|done]. by intros [= <-]. }
  { intros obj Hobj. subst s1. cbn. rewrite lookup_fmap.
    specialize (Hmesh obj Hobj). destruct (objects s !! obj); [|done]. done. }
  exists s'. split_and!; [|done|done|done|].
  - unfold manipulate_origin. unfold bind at 1. rewrite host_call_ok by done.
    fold s1. exact Hrun.
  - intros k Hk. rewrite (Hoth k Hk). subst s1. cbn. by rewrite lookup_fmap.
Qed.

(** ** The panel *)

(** X15: whatever the settings, every property the panel draws is one
    that exists on the object it is drawn from (a registered scene
    property, or an annotation of [ExportOptions]), and the one button of
    the panel calls the export operator.  The file-name field is drawn
    exactly when batch export is off, the options of [ExportOptions] that
    are drawn are those of the chosen format, and no control of the panel
    sets [selected_empty]. *)
Theorem draw_shows_defined_properties scene :
  Forall (λ p, prop_name p ∈ properties_of (prop_owner p)) (panel_props (draw scene)) ∧
  panel_operators (draw scene) = [bl_idname] ∧
  (mkUIProp OnScene "set_file_name" None (Some "File Name") false
     ∈ panel_props (draw scene) ↔ batch_export scene = false) ∧
  prop_name <$> filter (λ p, prop_owner p = OnExportOptions) (panel_props (draw scene))
    = match export_types scene with
      | FBX => ["include_modifiers_fbx"; "use_triangles_fbx"; "use_vertex_colors_fbx"]
      | OBJ => ["include_modifiers_obj"; "use_triangles_obj"]
      end ∧
  "selected_empty" ∉ prop_name <$> panel_props (draw scene).
Proof.
  unfold draw. destruct (batch_export scene), (export_types scene);
    (split_and!;
     [ apply (bool_decide_unpack _); by vm_compute
     | reflexivity
     | split; [intros Hin; apply (bool_decide_pack _) in Hin; by vm_compute in Hin
              | intros Heq; try done; apply (bool_decide_unpack _); by vm_compute ]
     | reflexivity
     | apply (bool_decide_unpack _); by vm_compute ]).
Qed.

(** ** Registration *)

Lemma classes_NoDup : NoDup classes.
Proof. apply (bool_decide_unpack _). by vm_compute. Qed.

Lemma for_classes_register l r :
  NoDup l → (∀ cls, cls ∈ l → cls ∉ registered_classes r) →
  for_classes register_class l r
  = Some (mkRegistry (Scene_attributes r) (registered_classes r ++ l)).
Proof.
  revert r. induction l as [|x l IH]; intros r Hnd Hfresh; cbn [for_classes].
  { rewrite app_nil_r. by destruct r. }
  apply NoDup_cons in Hnd as [Hx Hnd].
  assert (register_class x r
          = Some (mkRegistry (Scene_attributes r) (registered_classes r ++ [x]))) as ->.
  { unfold register_class. by rewrite decide_False by apply Hfresh, list_elem_of_here. }
  cbn [mbind option_bind]. rewrite IH; [|done|].
  - cbn [Scene_attributes registered_classes]. by rewrite <- app_assoc.
  - intros cls Hcls. cbn [registered_classes]. rewrite elem_of_app, list_elem_of_singleton.
    intros [Hin| ->]; [|done]. revert Hin. by apply Hfresh, list_elem_of_further.
Qed.

Lemma for_classes_unregister l r :
  NoDup l → (∀ cls, cls ∈ l → cls ∈ registered_classes r) →
  for_classes unregister_class l r
  = Some (mkRegistry (Scene_attributes r) (filter (λ c, c ∉ l) (registered_classes r))).
Proof.
  revert r. induction l as [|x l IH]; intros r Hnd Hreg; cbn [for_classes].
  { f_equal. destruct r as [attrs cs]. cbn. f_equal.
    clear. induction cs as [|c cs IHcs]; [done|].
    rewrite filter_cons_True by apply not_elem_of_nil. by rewrite <- IHcs. }
  apply NoDup_cons in Hnd as [Hx Hnd].
  assert (unregister_class x r
          = Some (mkRegistry (Scene_attributes r)
                    (filter (λ c, c ≠ x) (registered_classes r)))) as ->.
  { unfold unregister_class. by rewrite decide_True by apply Hreg, list_elem_of_here. }
  cbn [mbind option_bind]. rewrite IH; [|done|].
  - cbn [Scene_attributes registered_classes]. do 2 f_equal.
    rewrite list_filter_filter. apply list_filter_iff. intros c.
    rewrite not_elem_of_cons. tauto.
  - intros cls Hcls. cbn [registered_classes]. apply list_elem_of_filter. split.
    + intros ->. done.
    + by apply Hreg, list_elem_of_further.
Qed.

(** X16: loading the module and calling [register], when none of the
    three classes is registered yet, succeeds; it registers the three
    classes and leaves on the scene type exactly the attributes that were
    there before and the seven properties of the add-on.
    [selected_empty] is not one of them: it is on the scene type
    afterwards only if it was before. *)
Theorem register_attaches_properties r :
  (∀ cls, cls ∈ classes → cls ∉ registered_classes r) →
  ∃ r', register (module_body r) = Some r' ∧
        Scene_attributes r' = Scene_attributes r ∪ list_to_set registered_scene_properties ∧
        registered_classes r' = registered_classes r ++ classes ∧
        ("selected_empty" ∈ Scene_attributes r' ↔ "selected_empty" ∈ Scene_attributes r).
Proof.
  intros Hfresh. unfold register.
  rewrite for_classes_register; [|apply classes_NoDup|done].
  eexists. split; [reflexivity|].
  cbn [set_Scene_attribute module_body Scene_attributes registered_classes
       registered_scene_properties list_to_set].
  split_and!; [|done|].
  - apply set_eq. intros x.
    rewrite !elem_of_union, !elem_of_singleton, elem_of_empty. tauto.
  - rewrite !elem_of_union, !elem_of_singleton.
    split; [|tauto]. intros Hin.
    repeat (destruct Hin as [Hin|Hin]; [discriminate Hin|]). done.
Qed.

(** X17: [unregister] after [register] succeeds and removes the three
    classes and the attribute [ExportOptions], nothing else: the six
    properties that loading the module attached to the scene type stay on
    it.  Called when the classes are not registered, [unregister]
    fails. *)
Theorem unregister_leaves_properties r :
  (∀ cls, cls ∈ classes → cls ∉ registered_classes r) →
  unregister r = None ∧
  ∃ r1 r2, register (module_body r) = Some r1 ∧ unregister r1 = Some r2 ∧
    registered_classes r2 = registered_classes r ∧
    Scene_attributes r2 =
      (Scene_attributes r ∪ list_to_set registered_scene_properties) ∖ {["ExportOptions"]} ∧
    Forall (λ name, name ∈ Scene_attributes r2)
      [ "export_types"; "batch_export"; "mesh_directory_path"; "set_file_name";
        "origin_at_bottom"; "custom_origin" ] ∧
    "ExportOptions" ∉ Scene_attributes r2.
Proof.
  intros Hfresh. split.
  { unfold unregister, classes. cbn [for_classes].
    assert (unregister_class "View3D_PT_Export_Utility" r = None) as ->; [|done].
    unfold unregister_class. rewrite decide_False; [done|].
    apply Hfresh. unfold classes. apply list_elem_of_here. }
  unfold register. rewrite for_classes_register; [|apply classes_NoDup|done].
  cbn [mbind option_bind].
  eexists _, _. split; [reflexivity|]. unfold unregister.
  rewrite for_classes_unregister; [|apply classes_NoDup|].
  2:{ intros cls Hcls. cbn [set_Scene_attribute registered_classes].
      apply elem_of_app. by right. }
  cbn [mbind option_bind set_Scene_attribute module_body Scene_attributes
       registered_classes].
  rewrite decide_True by (apply elem_of_union; left; by apply elem_of_singleton).
  split; [reflexivity|]. cbn [Scene_attributes registered_classes].
  split_and!.
  - rewrite filter_app.
    assert (filter (λ c, c ∉ classes) classes = []) as ->.
    { apply (bool_decide_unpack _). by vm_compute. }
    rewrite app_nil_r. induction (registered_classes r) as [|c cs IH]; [done|].
    rewrite filter_cons_True.
    + f_equal. apply IH. intros cls Hcls Hin. apply (Hfresh cls Hcls).
      by apply list_elem_of_further.
    + intros Hc. apply (Hfresh c Hc). apply list_elem_of_here.
  - cbn [registered_scene_properties list_to_set]. apply set_eq. intros x.
    rewrite !elem_of_difference, !elem_of_union, !elem_of_singleton, elem_of_empty. tauto.
  - repeat (apply Forall_cons; split;
              [rewrite elem_of_difference, !elem_of_union, !elem_of_singleton;
               split; [tauto|discriminate]|]).
    apply Forall_nil_2.
  - rewrite elem_of_difference, elem_of_singleton. tauto.
Qed.

(** ** The further properties on the small document *)

Lemma execute_keeps_shape_witness :
  shape <$> objects (@execute demo_host demo_scene_bottom demo_blend demo_state).2
  = shape <$> objects demo_state.
Proof.
  exact (@execute_keeps_shape demo_host (simple_host_frame _) demo_scene_bottom demo_blend
           demo_state).
Defined.


(** The cube with a third vertex: the two stored coordinates are
    assigned, IndexError is raised, the world matrix is not assigned. *)
Lemma restore_object_vertex_count_witness :
  restore_object demo_snapshot "Cube.001" demo_state_grown =
    (Raise IndexError, demo_state_grown).
Proof.
  destruct (restore_object_vertex_count demo_snapshot "Cube.001" demo_state_grown
              (mkObject MESH OBJECT None (mkVector 1 2 3) (at_point 1 2 3)
                 [mkVector 0 0 0; mkVector 2 4 6; mkVector 9 9 9] true)
              [mkVector 0 0 0; mkVector 2 4 6]) as [_ Hraise];
    [reflexivity|reflexivity|reflexivity|].
  rewrite Hraise; [|vm_compute; lia]. vm_compute. reflexivity.
Defined.

Lemma restore_stops_at_grown_mesh_witness :
  let out := @restore_original_state demo_host demo_snapshot ["Cube.001"]
               demo_state_grown in
  (∃ e, out.1 = Raise e) ∧ calls out.2 = [] ∧ cursor_location out.2 = mkVector 7 7 7.
Proof.
  exact (@restore_stops_at_grown_mesh demo_host demo_snapshot ["Cube.001"] "Cube.001"
           demo_state_grown
           (mkObject MESH OBJECT None (mkVector 1 2 3) (at_point 1 2 3)
              [mkVector 0 0 0; mkVector 2 4 6; mkVector 9 9 9] true)
           [mkVector 0 0 0; mkVector 2 4 6]
           (list_elem_of_here _ _) eq_refl eq_refl eq_refl
           (le_n_S _ _ (le_n 2))).
Defined.

(** The empty named by [selected_empty] among the children of the cube. *)
Lemma find_custom_empty_spec_witness :
  find_custom_empty demo_scene_custom_defined demo_objects ["Path"; "Anchor"]
  = Return (Some "Anchor").
Proof.
  rewrite (find_custom_empty_spec demo_scene_custom_defined demo_objects
             ["Path"; "Anchor"] "Anchor"); [|reflexivity].
  vm_compute. reflexivity.
Defined.

Lemma obj_export_ignores_options_witness :
  @execute demo_host (with_options demo_options_all demo_scene_batch_obj) demo_blend
    demo_state
  = @execute demo_host demo_scene_batch_obj demo_blend demo_state.
Proof.
  apply (@obj_export_ignores_options demo_host demo_scene_batch_obj demo_blend
           demo_options_all demo_state).
  reflexivity.
Defined.

(** The cube and the curve in batch mode, OBJ format. *)
Lemma default_batch_export_witness :
  let out := @execute demo_host demo_scene_batch_obj demo_blend demo_state_with_curve in
  out.1 = Return FINISHED ∧
  exported out.2 = [("/tmp/out/Cube_001.obj", ["Cube.001"]); ("/tmp/out/Path.obj", ["Path"])] ∧
  active out.2 = Some "Path".
Proof.
  intros out.
  destruct (@default_batch_export demo_host (simple_host_frame _) demo_scene_batch_obj
              demo_blend demo_state_with_curve)
    as (Hres & Hexp & _ & Hact & _);
    [exact never_fails_never_raises|reflexivity|reflexivity|reflexivity|by vm_compute|].
  split_and!; [exact Hres| |].
  - subst out. rewrite Hexp. vm_compute. reflexivity.
  - subst out. rewrite Hact. vm_compute. reflexivity.
Defined.

(** The cube, the active object, and the curve into one FBX file: it is
    named after the curve. *)
Lemma default_single_fbx_export_witness :
  active demo_state_with_curve = Some "Cube.001" ∧
  let out := @execute demo_host demo_scene demo_blend demo_state_with_curve in
  out.1 = Return FINISHED ∧
  ∃ selected, exported out.2 = [("/tmp/out/Path.fbx", selected)] ∧
              (∀ k, k ∈ selected ↔ k ∈ ["Cube.001"; "Path"]).
Proof.
  split; [reflexivity|]. intros out.
  destruct (@default_single_fbx_export demo_host (simple_host_frame _) demo_scene
              demo_blend demo_state_with_curve)
    as (final & selected & Hlast & Hres & Hexp & Hsel & _);
    [exact never_fails_never_raises|reflexivity|reflexivity|reflexivity|reflexivity
    |by vm_compute|].
  split; [exact Hres|]. exists selected. split; [|exact Hsel].
  assert (final = "Path") as -> by (vm_compute in Hlast; congruence).
  subst out. rewrite Hexp. reflexivity.
Defined.

Lemma manipulate_origin_unregistered_witness :
  (@manipulate_origin demo_host ["Cube.001"] demo_scene demo_state).1
  = Raise (AttributeError "selected_empty").
Proof.
  rewrite (@manipulate_origin_unregistered demo_host demo_scene "Cube.001" [] demo_state);
    reflexivity.
Defined.

Lemma manipulate_origin_at_bottom_witness :
  ∃ s', @manipulate_origin demo_host ["Cube.001"] demo_scene_bottom demo_state
        = (Return tt, s') ∧
        active s' = Some "Cube.001" ∧
        ∃ o, objects s' !! "Cube.001" = Some o ∧ location o = zero_vector.
Proof.
  destruct (@manipulate_origin_at_bottom demo_host (simple_host_frame _) demo_scene_bottom
              ["Cube.001"] demo_state)
    as (s' & Hrun & Hact & _ & Hzero & _).
  - exact never_fails_never_raises.
  - intros objs k o Hk Hsel. cbn [transform_apply demo_host simple_host].
    unfold simple_transform_apply. by rewrite lookup_fmap, Hk; cbn; rewrite Hsel.
  - reflexivity.
  - intros obj ->%list_elem_of_singleton. reflexivity.
  - exists s'. split_and!; [exact Hrun|exact Hact|].
    apply Hzero, list_elem_of_here.
Defined.

Lemma register_attaches_properties_witness :
  ∃ r', register (module_body demo_registry) = Some r' ∧
        Scene_attributes r' = list_to_set registered_scene_properties ∧
        registered_classes r' = classes ∧
        "selected_empty" ∉ Scene_attributes r'.
Proof.
  destruct (register_attaches_properties demo_registry)
    as (r' & Hrun & Hattrs & Hcls & Hsel).
  { intros cls _. apply not_elem_of_nil. }
  exists r'. split_and!; [exact Hrun| |exact Hcls|].
  - rewrite Hattrs. apply union_empty_l_L.
  - intros Hin. apply Hsel in Hin. revert Hin. apply not_elem_of_empty.
Defined.

Lemma unregister_leaves_properties_witness :
  ∃ r1 r2, register (module_body demo_registry) = Some r1 ∧ unregister r1 = Some r2 ∧
           registered_classes r2 = [] ∧
           "custom_origin" ∈ Scene_attributes r2 ∧
           "ExportOptions" ∉ Scene_attributes r2.
Proof.
  destruct (unregister_leaves_properties demo_registry)
    as (_ & r1 & r2 & Hreg & Hunreg & Hcls & _ & Hleft & Hgone).
  { intros cls _. apply not_elem_of_nil. }
  exists r1, r2. split_and!; [exact Hreg|exact Hunreg|exact Hcls| |exact Hgone].
  apply (proj1 (Forall_forall _ _) Hleft).
  apply (bool_decide_unpack _). by vm_compute.
Defined.

(** ** The calls of the export phase *)

(** X18: the host calls of the export phase in batch mode, on a host that
    makes no call fail.  The output directory is created when it is not
    there, and only then; after that every object of the selection gets
    a deselect-all and one exporter call.  The FBX exporter is called
    with [use_selection] on and with the three FBX options of the scene;
    the OBJ exporter with the selection, the modifiers and the
    triangulation switched on, whatever the options are. *)
Theorem export_process_batch_calls `{!Host} scene sel s :
  host_never_raises →
  batch_export scene = true →
  (∀ obj, obj ∈ sel → is_Some (objects s !! obj)) →
  let directory := abspath (mesh_directory_path scene) in
  let filepath obj :=
    path_join directory
      (clean_name obj +:+ "." +:+ lower (export_format (export_types scene))) in
  let opts := scene_ExportOptions scene in
  ∃ s', export_process scene sel s = (Return tt, s') ∧
        calls s' = calls s
          ++ (if decide (directory ∈ directories s) then [] else [os_makedirs directory])
          ++ flat_map (λ obj,
               [ object_select_all_DESELECT;
                 match export_types scene with
                 | FBX =>
                     export_scene_fbx
                       [ ("filepath", PyStr (filepath obj));
                         ("use_selection", PyBool true);
                         ("use_mesh_modifiers", PyBool (include_modifiers_fbx opts));
                         ("use_triangles", PyBool (use_triangles_fbx opts));
                         ("colors_type", PyEnum (use_vertex_colors_fbx opts)) ]
                 | OBJ =>
                     wm_obj_export
                       [ ("filepath", PyStr (filepath obj));
                         ("export_selected_objects", PyBool true);
                         ("apply_modifiers", PyBool true);
                         ("export_triangulated_mesh", PyBool true) ]
                 end ]) sel.
Proof.
  intros Hnever Hbatch Hin directory filepath opts.
  set (s1 := if decide (directory ∈ directories s) then s
             else host_effect (os_makedirs directory) (add_call (os_makedirs directory) s)).
  assert ((if decide (directory ∈ directories s) then ret tt
           else host_call (os_makedirs directory)) s = (Return tt, s1)) as Hdir.
  { subst s1. case_decide; [done|]. by apply host_call_ok. }
  assert (objects s1 = objects s ∧
          calls s1 = calls s ++ (if decide (directory ∈ directories s) then []
                                 else [os_makedirs directory])) as [Hobjs1 Hcalls1].
  { subst s1. case_decide; [|done]. by rewrite app_nil_r. }
  clearbody s1.
  destruct (export_objects_files sel (export_types scene) directory
              (include_modifiers_fbx opts) (use_triangles_fbx opts)
              (use_vertex_colors_fbx opts) s1 Hnever) as (s' & Hrun & _ & Hcalls).
  { intros obj Hobj. rewrite Hobjs1. by apply Hin. }
  exists s'. split.
  - unfold export_process. rewrite Hbatch.
    unfold bind at 1. unfold gets at 1. cbn beta iota.
    unfold bind at 1. fold directory. rewrite Hdir. exact Hrun.
  - rewrite Hcalls, Hcalls1, <- app_assoc. do 2 f_equal.
Qed.

(** X19: the single-file branch takes the name of the file from the
    active object when [set_file_name] is empty.  Without an active
    object it raises AttributeError there, whatever the format: the
    directory has been created and the objects are selected, but no
    exporter is called and no file is written. *)
Theorem export_process_without_active `{!Host} scene sel s :
  host_never_raises →
  batch_export scene = false → set_file_name scene = "" → active s = None →
  let directory := abspath (mesh_directory_path scene) in
  let out := export_process scene sel s in
  out.1 = Raise (AttributeError "name") ∧
  exported out.2 = exported s ∧
  directory ∈ directories out.2 ∧
  calls out.2 = calls s
    ++ (if decide (directory ∈ directories s) then [] else [os_makedirs directory])
    ++ [object_select_all_DESELECT].
Proof.
  intros Hnever Hbatch Hname Hact directory out.
  set (s1 := if decide (directory ∈ directories s) then s
             else host_effect (os_makedirs directory) (add_call (os_makedirs directory) s)).
  assert ((if decide (directory ∈ directories s) then ret tt
           else host_call (os_makedirs directory)) s = (Return tt, s1)) as Hdir.
  { subst s1. case_decide; [done|]. by apply host_call_ok. }
  assert (active s1 = None ∧ exported s1 = exported s ∧ directory ∈ directories s1 ∧
          calls s1 = calls s ++ (if decide (directory ∈ directories s) then []
                                 else [os_makedirs directory]))
    as (Hact1 & Hexp1 & Hd1 & Hcalls1).
  { subst s1. case_decide; [by rewrite app_nil_r|]. cbn. split_and!; [done|done| |done].
    apply elem_of_app. right. apply list_elem_of_here. }
  clearbody s1.
  set (s2 := host_effect object_select_all_DESELECT
               (add_call object_select_all_DESELECT s1)).
  destruct (select_all_objects sel s2) as (s3 & Hsel & Hact3 & Hexp3 & Hcalls3 & Hd3 & _).
  assert (out = (Raise (AttributeError "name"), s3)) as ->.
  { subst out. unfold export_process. rewrite Hbatch.
    unfold bind at 1. unfold gets at 1. cbn beta iota.
    unfold bind at 1. fold directory. rewrite Hdir.
    unfold bind at 1. rewrite host_call_ok by done. fold s2.
    unfold bind at 1. rewrite Hsel.
    unfold bind at 1. unfold gets at 1. cbn beta iota.
    unfold bind at 1. rewrite Hname. rewrite decide_False by (intros Hne; by apply Hne).
    rewrite Hact3. subst s2. cbn [active host_effect set_objects add_call].
    by rewrite Hact1. }
  cbn [fst snd]. split_and!; [done| | |].
  - rewrite Hexp3. subst s2. cbn. done.
  - rewrite Hd3. subst s2. by cbn.
  - rewrite Hcalls3. subst s2. cbn. by rewrite Hcalls1, <- app_assoc.
Qed.

(** The cube in batch mode, FBX with all the options set. *)
Lemma export_process_batch_calls_witness :
  (@export_process demo_host demo_scene_batch_fbx ["Cube.001"] demo_state).1 = Return tt ∧
  calls (@export_process demo_host demo_scene_batch_fbx ["Cube.001"] demo_state).2 =
    [ os_makedirs "/tmp/out"; object_select_all_DESELECT;
      export_scene_fbx
        [ ("filepath", PyStr "/tmp/out/Cube_001.fbx"); ("use_selection", PyBool true);
          ("use_mesh_modifiers", PyBool true); ("use_triangles", PyBool true);
          ("colors_type", PyEnum LINEAR) ] ].
Proof.
  destruct (@export_process_batch_calls demo_host demo_scene_batch_fbx ["Cube.001"]
              demo_state) as (s' & Hrun & Hcalls).
  - exact never_fails_never_raises.
  - reflexivity.
  - intros obj ->%list_elem_of_singleton. by eexists.
  - rewrite Hrun. cbn [fst snd]. split; [reflexivity|]. rewrite Hcalls.
    vm_compute. reflexivity.
Defined.

Lemma export_process_without_active_witness :
  let out := @export_process demo_host demo_scene ["Cube.001"] demo_state_no_active in
  out.1 = Raise (AttributeError "name") ∧ exported out.2 = [].
Proof.
  intros out.
  destruct (@export_process_without_active demo_host demo_scene ["Cube.001"]
              demo_state_no_active) as (Hres & Hexp & _);
    [exact never_fails_never_raises|reflexivity|reflexivity|reflexivity|].
  split; [exact Hres|exact Hexp].
Defined.
